(** * claude-mcp-kb: glob matcher, document index, blocklist ledger, sync pass

    A shallow embedding of the TypeScript sources

      - [src/knowledge-base/github-sync.ts]  (class [GitHubSync]),
      - [src/knowledge-base/search.ts]       (class [SearchEngine]),
      - [src/knowledge-base/storage.ts]      (class [KnowledgeBaseStorage]),
      - [src/index.ts]                       ([syncKnowledgeBase] and the
        cases of the tool handler that use the ledger and the pass),

    together with the part of the JavaScript runtime they call.

    Conventions.  A JavaScript string is a [string]: a sequence of code
    units, here of the range U+0000..U+00FF.  On this range [toLowerCase]
    maps code unit to code unit; beyond it the lower case of one code
    unit can take two (U+0130), so the statements on [search] read
    offsets and counts in the lower-cased copy, as the code does, and a
    statement that needs the lower-cased copy to be as long as the
    original says so.  Indices and lengths are [Z].  A number that a caller
    chooses, [maxResults], is a finite number, a rational [Q]; [slice]
    cuts its fraction off.  The relevance
    score, the quotient of an integer by ten, is a rational [Q]: rounding
    to a double is monotone and keeps 0 and 1, so the order and the bounds
    of the scores are those of the doubles.  A call that may throw returns
    an [option] or a [Result].  The hosting service, the file system, the
    clock and the digest are parameters, collected in [Env]; a service
    answers one request in one way during a pass. *)

From Stdlib Require Import String Ascii List ZArith QArith Qminmax Qround Bool.
From Stdlib Require Import Lia Lqa DecimalString OrdersEx Permutation Sorted.
Import ListNotations.

Local Close Scope Q_scope.
Local Open Scope list_scope.
Local Open Scope string_scope.

(** ** The JavaScript runtime: strings and arrays *)

Module JS.

(** [String.prototype.length], as a number. *)
Definition len (s : string) : Z := Z.of_nat (String.length s).

(** Lower-casing of one code unit of U+0000..U+00FF: [A-Z] and the
    Latin-1 capitals U+00C0..U+00DE, except the sign U+00D7, move up by
    32; every other code unit is its own lower case. *)
Definition toLowerCaseChar (c : ascii) : ascii :=
  let n := nat_of_ascii c in
  if ((65 <=? n) && (n <=? 90))%nat then ascii_of_nat (n + 32)
  else if ((192 <=? n) && (n <=? 222) && negb (n =? 215))%nat
       then ascii_of_nat (n + 32)
  else c.

(** [String.prototype.toLowerCase] on strings of U+0000..U+00FF. *)
Fixpoint toLowerCase (s : string) : string :=
  match s with
  | EmptyString => EmptyString
  | String c s' => String (toLowerCaseChar c) (toLowerCase s')
  end.

(** [s.indexOf(q)]: the least position at which [q] occurs in [s],
    and [-1] when there is none. *)
Definition indexOf (s q : string) : Z :=
  match String.index 0 q s with
  | Some i => Z.of_nat i
  | None => (-1)%Z
  end.

(** [s.includes(q)]. *)
Definition includes (s q : string) : bool :=
  match String.index 0 q s with Some _ => true | None => false end.

(** Scanning loop of [s.split(sep)] for a non-empty separator: [skip]
    code units of a separator found earlier are still to be passed over,
    [cur] is the piece being collected. *)
Fixpoint splitScan (sep : string) (skip : nat) (cur : string) (s : string)
  : list string :=
  match s with
  | EmptyString => [cur]
  | String c s' =>
      match skip with
      | S k => splitScan sep k cur s'
      | O =>
          if String.prefix sep s
          then cur :: splitScan sep (String.length sep - 1) EmptyString s'
          else splitScan sep 0 (cur ++ String c EmptyString) s'
      end
  end.

(** [s.split(sep)] with a string separator and no limit.  An empty
    separator cuts [s] into its code units, so that the empty string
    gives the empty array; a non-empty separator is searched from left
    to right, each search resuming after the previous occurrence. *)
Definition split (s sep : string) : list string :=
  match sep with
  | EmptyString =>
      map (fun c => String c EmptyString) (list_ascii_of_string s)
  | String _ _ => splitScan sep 0 EmptyString s
  end.

(** Relative index of [slice]: a negative index counts from the end,
    and the result is clamped to [0, n]. *)
Definition clampIndex (n i : Z) : Z :=
  if (i <? 0)%Z then Z.max (n + i) 0 else Z.min i n.

(** [s.slice(start, end)] on strings; [s.slice(start)] is
    [s.slice(start, s.length)]. *)
Definition slice (s : string) (start stop : Z) : string :=
  let from := clampIndex (len s) start in
  let to := clampIndex (len s) stop in
  String.substring (Z.to_nat from) (Z.to_nat (Z.max (to - from) 0)) s.

(** [ToIntegerOrInfinity] on a finite number: the fraction is cut off,
    towards zero. *)
Definition toIntegerOrInfinity (x : Q) : Z := Z.quot (Qnum x) (Z.pos (Qden x)).

(** [a.slice(start, end)] on arrays, for the integers that
    [ToIntegerOrInfinity] makes of its two arguments. *)
Definition arraySlice {A : Type} (a : list A) (start stop : Z) : list A :=
  let n := Z.of_nat (length a) in
  let from := clampIndex n start in
  let to := clampIndex n stop in
  firstn (Z.to_nat (Z.max (to - from) 0)) (skipn (Z.to_nat from) a).

(** Scanning loop of [s.replace(/lit/g, rep)] for a regular expression
    that is one non-empty literal [lit]: occurrences are replaced from
    left to right and do not overlap. *)
Fixpoint replaceScan (lit rep : string) (skip : nat) (s : string) : string :=
  match s with
  | EmptyString => EmptyString
  | String c s' =>
      match skip with
      | S k => replaceScan lit rep k s'
      | O =>
          if String.prefix lit s
          then rep ++ replaceScan lit rep (String.length lit - 1) s'
          else String c (replaceScan lit rep 0 s')
      end
  end.

Definition replaceAll (lit rep s : string) : string :=
  replaceScan lit rep 0 s.

(** [a.some(f)] for a callback that may throw: the callbacks run in
    order, the first [true] ends the scan, a throw ends it as well. *)
Fixpoint some {A : Type} (f : A -> option bool) (a : list A) : option bool :=
  match a with
  | [] => Some false
  | x :: a' =>
      match f x with
      | None => None
      | Some true => Some true
      | Some false => some f a'
      end
  end.

(** [a.sort(cmp)].  The language requires the sort to be stable, so
    for a comparator that is a consistent ordering the result is the one
    of any stable sort (lemma [stable_sort_unique] below); this one
    inserts each element, from the last to the first, in front of the
    sorted rest and moves it right only past elements that the comparator
    puts strictly before it. *)
Fixpoint sortInsert {A : Type} (cmp : A -> A -> Q) (x : A) (l : list A)
  : list A :=
  match l with
  | [] => [x]
  | y :: l' =>
      if Qlt_le_dec 0%Q (cmp x y) then y :: sortInsert cmp x l'
      else x :: l
  end.

Fixpoint sort {A : Type} (cmp : A -> A -> Q) (a : list A) : list A :=
  match a with
  | [] => []
  | x :: a' => sortInsert cmp x (sort cmp a')
  end.

End JS.

(** ** Regular expressions: the fragment the glob translation reaches *)

Module RegExp.

(** What one position of the input is tested against. *)
Inductive CharClass : Type :=
| Lit (c : ascii)      (* a literal code unit, also the escaped dot *)
| AnyChar              (* [.]: anything but a line terminator *)
| NotSlash.            (* the class [[^/]] *)

Inductive Term : Type :=
| One (k : CharClass)
| Star (k : CharClass).

(** A pattern [^ t1 ... tn $]. *)
Definition Pattern := list Term.

Inductive Token : Type :=
| TClass (k : CharClass)
| TStar
| TBegin
| TEnd.

Definition isLineTerminator (c : ascii) : bool :=
  (nat_of_ascii c =? 10)%nat || (nat_of_ascii c =? 13)%nat.

Definition classTest (k : CharClass) (c : ascii) : bool :=
  match k with
  | Lit d => Ascii.eqb c d
  | AnyChar => negb (isLineTerminator c)
  | NotSlash => negb (Ascii.eqb c "/")
  end.

(** Syntax characters whose meaning lies outside the fragment. *)
Definition unsupported (c : ascii) : bool :=
  existsb (Ascii.eqb c)
    ["+"; "?"; "("; ")"; "["; "]"; "{"; "}"; "|"; "\"]%char.

(** Lexer of the pattern source; [None] for a source that leaves the
    fragment. *)
Fixpoint tokenize (src : string) : option (list Token) :=
  match src with
  | EmptyString => Some []
  | String c r =>
      if Ascii.eqb c "\" then
        match r with
        | String "." r' => option_map (cons (TClass (Lit "."))) (tokenize r')
        | _ => None
        end
      else if Ascii.eqb c "[" then
        match r with
        | String "^" (String "/" (String "]" r')) =>
            option_map (cons (TClass NotSlash)) (tokenize r')
        | _ => None
        end
      else if Ascii.eqb c "." then option_map (cons (TClass AnyChar)) (tokenize r)
      else if Ascii.eqb c "*" then option_map (cons TStar) (tokenize r)
      else if Ascii.eqb c "^" then option_map (cons TBegin) (tokenize r)
      else if Ascii.eqb c "$" then option_map (cons TEnd) (tokenize r)
      else if unsupported c then None
      else option_map (cons (TClass (Lit c))) (tokenize r)
  end.

(** Terms between the anchors: a class, optionally starred, up to the
    closing [$], which must be the last token. *)
Fixpoint terms (ts : list Token) : option Pattern :=
  match ts with
  | [TEnd] => Some []
  | TClass k :: TStar :: ts' => option_map (cons (Star k)) (terms ts')
  | TClass k :: ts' => option_map (cons (One k)) (terms ts')
  | _ => None
  end.

(** The pattern of a source of the fragment, [^ t1 ... tn $]. *)
Definition parse (src : string) : option Pattern :=
  match tokenize src with
  | Some (TBegin :: ts) => terms ts
  | _ => None
  end.

(** Does the pattern match the whole of [s]?  A starred class either
    stops or takes one more code unit. *)
Fixpoint matches (p : Pattern) (s : string) : bool :=
  match p with
  | [] => match s with EmptyString => true | _ => false end
  | One k :: p' =>
      match s with
      | EmptyString => false
      | String c s' => classTest k c && matches p' s'
      end
  | Star k :: p' =>
      (fix star (s : string) : bool :=
         matches p' s ||
         match s with
         | EmptyString => false
         | String c s' => classTest k c && star s'
         end) s
  end.

(** A regular expression once constructed: its method [test]. *)
Definition Compiled : Type := string -> bool.

(** The constructor [new RegExp(src)] on the sources outside the
    fragment, which is not modelled further: [None] when it throws a
    [SyntaxError], the expression otherwise. *)
Definition Engine : Type := string -> option Compiled.

(** [new RegExp(src)], without flags. *)
Definition compile (engine : Engine) (src : string) : option Compiled :=
  match parse src with
  | Some p => Some (matches p)
  | None => engine src
  end.

End RegExp.

(** ** [GitHubSync.matchPattern] *)

Module Glob.

(** The four replacements of [matchPattern], in the order of the
    source: dots, double stars, stars, question marks. *)
Definition escapeDots (p : string) : string := JS.replaceAll "." "\." p.
Definition expandGlobstar (p : string) : string := JS.replaceAll "**" ".*" p.
Definition expandStar (p : string) : string := JS.replaceAll "*" "[^/]*" p.
Definition expandQuestion (p : string) : string := JS.replaceAll "?" "." p.

Definition regexPattern (pattern : string) : string :=
  expandQuestion (expandStar (expandGlobstar (escapeDots pattern))).

(** [matchPattern(filePath, pattern)]; [None] when the constructor
    [new RegExp] throws. *)
Definition matchPattern (engine : RegExp.Engine) (filePath pattern : string)
  : option bool :=
  match RegExp.compile engine ("^" ++ regexPattern pattern ++ "$") with
  | Some regex => Some (regex filePath)
  | None => None
  end.

End Glob.

(** ** Keyed collections of the runtime: [Map] and [Set] *)

Module JsMap.

(** A [Map] with string keys: its entries in the order in which the
    keys were first inserted. *)
Definition t (V : Type) : Type := list (string * V).

(** [m.get(k)]; [None] stands for [undefined]. *)
Fixpoint get {V : Type} (m : t V) (k : string) : option V :=
  match m with
  | [] => None
  | (k', v) :: m' => if String.eqb k' k then Some v else get m' k
  end.

(** [m.set(k, v)]. *)
Fixpoint set {V : Type} (m : t V) (k : string) (v : V) : t V :=
  match m with
  | [] => [(k, v)]
  | (k', v') :: m' =>
      if String.eqb k' k then (k, v) :: m' else (k', v') :: set m' k v
  end.

(** [m.get(k) || 0] on a map of counts. *)
Definition getOrZero (m : t Z) (k : string) : Z :=
  match get m k with
  | Some n => n
  | None => 0%Z
  end.

End JsMap.

Module JsSet.

(** A [Set] of strings, in insertion order. *)
Definition t : Type := list string.

(** [s.add(k)]. *)
Definition add (s : t) (k : string) : t :=
  if existsb (String.eqb k) s then s else (s ++ [k])%list.

End JsSet.

(** ** [SearchEngine] *)

Record Metadata : Type := {
  fileType : string;
  lastModified : string;
  size : Z;
  hash : string
}.

Record IndexedDocument : Type := {
  id : string;
  repoOwner : string;
  repoName : string;
  branch : string;
  filePath : string;
  content : string;
  metadata : Metadata;
  indexed : string
}.

Record SearchResult : Type := {
  document : IndexedDocument;
  score : Q;
  snippet : string
}.

Module SearchEngine.

(** The field [documents]: a [Map] from ids to documents.  A [Map]
    iterates in the order in which its keys were first inserted, hence
    a list of bindings with pairwise distinct keys. *)
Definition Documents := list (string * IndexedDocument).

(** [Map.prototype.set]: the value of a present key is replaced where
    it stands, a new key goes to the end. *)
Fixpoint mapSet (k : string) (v : IndexedDocument) (m : Documents)
  : Documents :=
  match m with
  | [] => [(k, v)]
  | (k', v') :: m' =>
      if String.eqb k' k then (k, v) :: m' else (k', v') :: mapSet k v m'
  end.

(** [Map.prototype.values], in iteration order. *)
Definition values (m : Documents) : list IndexedDocument := map snd m.

(** [addDocuments(documents)]. *)
Definition addDocuments (this : Documents) (documents : list IndexedDocument)
  : Documents :=
  fold_left (fun m doc => mapSet (id doc) doc m) documents this.

(** [clear()]. *)
Definition clear (this : Documents) : Documents := [].

(** The body of the loop of [search] for one document: the result
    pushed, if any. *)
Definition searchDocument (queryLower : string) (doc : IndexedDocument)
  : option SearchResult :=
  let contentLower := JS.toLowerCase (content doc) in
  if JS.includes contentLower queryLower then
    let matches := (Z.of_nat (length (JS.split contentLower queryLower)) - 1)%Z in
    let score := Qmin (inject_Z matches / 10)%Q 1%Q in
    let firstMatchIndex := JS.indexOf contentLower queryLower in
    let snippetStart := Z.max 0 (firstMatchIndex - 100) in
    let snippetEnd := Z.min (JS.len (content doc)) (firstMatchIndex + 200) in
    let snippet := JS.slice (content doc) snippetStart snippetEnd in
    Some {| document := doc; score := score;
            snippet := "..." ++ snippet ++ "..." |}
  else None.

(** The array [results] when the loop ends. *)
Fixpoint collect (queryLower : string) (docs : list IndexedDocument)
  : list SearchResult :=
  match docs with
  | [] => []
  | doc :: docs' =>
      match searchDocument queryLower doc with
      | Some r => r :: collect queryLower docs'
      | None => collect queryLower docs'
      end
  end.

(** The comparator [(a, b) => b.score - a.score]. *)
Definition byScore (a b : SearchResult) : Q := (score b - score a)%Q.

(** [search(query, maxResults)]; [maxResults] is a number, and the
    schema of the tool, which admits the numbers from 1 to 50, lets
    fractions through. It is a finite number here: [NaN] and the
    infinities are left out. *)
Definition search (this : Documents) (query : string) (maxResults : Q)
  : list SearchResult :=
  let queryLower := JS.toLowerCase query in
  let results := collect queryLower (values this) in
  JS.arraySlice (JS.sort byScore results) 0 (JS.toIntegerOrInfinity maxResults).

(** [getDocument(id)]; [None] stands for [undefined]. *)
Definition getDocument (this : Documents) (id : string)
  : option IndexedDocument :=
  JsMap.get this id.

(** The value of [getStats()]. *)
Record Stats : Type := {
  totalDocuments : Z;
  repositories : JsSet.t;
  fileTypes : JsMap.t Z
}.

(** The template string [`${doc.repoOwner}/${doc.repoName}`]. *)
Definition repoKey (doc : IndexedDocument) : string :=
  repoOwner doc ++ "/" ++ repoName doc.

(** One turn of the loop of [getStats] on its two local collections. *)
Definition statsStep (acc : JsSet.t * JsMap.t Z) (doc : IndexedDocument)
  : JsSet.t * JsMap.t Z :=
  let repositories := JsSet.add (fst acc) (repoKey doc) in
  let currentCount := JsMap.getOrZero (snd acc) (fileType (metadata doc)) in
  (repositories,
   JsMap.set (snd acc) (fileType (metadata doc)) (currentCount + 1)%Z).

(** [getStats()]. *)
Definition getStats (this : Documents) : Stats :=
  let acc := fold_left statsStep (values this) ([], []) in
  {| totalDocuments := Z.of_nat (length this);
     repositories := fst acc;
     fileTypes := snd acc |}.

(** One element of the array that [listRepositories()] returns. The two
    names come out of an array destructuring and are [undefined], here
    [None], where the array is too short. *)
Record RepositoryInfo : Type := {
  owner : option string;
  repo : option string;
  fileCount : Z
}.

(** One turn of the loop of [listRepositories] on [repoMap]. *)
Definition repoMapStep (repoMap : JsMap.t Z) (doc : IndexedDocument)
  : JsMap.t Z :=
  let key := repoKey doc in
  JsMap.set repoMap key (JsMap.getOrZero repoMap key + 1)%Z.

(** The callback of [map] over the entries of [repoMap]. *)
Definition repositoryInfo (entry : string * Z) : RepositoryInfo :=
  let parts := JS.split (fst entry) "/" in
  {| owner := nth_error parts 0;
     repo := nth_error parts 1;
     fileCount := snd entry |}.

(** [listRepositories()]. *)
Definition listRepositories (this : Documents) : list RepositoryInfo :=
  let repoMap := fold_left repoMapStep (values this) [] in
  map repositoryInfo repoMap.

End SearchEngine.


(** ** Effects: state, exceptions, [try]/[catch] *)

(** Outcome of a call: a value, or an exception with its message. *)
Inductive Result (A : Type) : Type :=
| Ok (a : A)
| Throw (message : string).

Arguments Ok {A} a.
Arguments Throw {A} message.

Module Eff.

(** A computation over a state of type [S].  The state reached when an
    exception is thrown is kept: what was written before the throw
    stays written. *)
Definition M (S A : Type) : Type := S -> Result A * S.

Definition ret {S A : Type} (a : A) : M S A := fun s => (Ok a, s).

Definition bind {S A B : Type} (m : M S A) (f : A -> M S B) : M S B :=
  fun s =>
    match m s with
    | (Ok a, s') => f a s'
    | (Throw e, s') => (Throw e, s')
    end.

Definition throw {S A : Type} (e : string) : M S A := fun s => (Throw e, s).

(** [try { m } catch (error) { h error }]. *)
Definition tryCatch {S A : Type} (m : M S A) (h : string -> M S A) : M S A :=
  fun s =>
    match m s with
    | (Ok a, s') => (Ok a, s')
    | (Throw e, s') => h e s'
    end.

Definition get {S : Type} : M S S := fun s => (Ok s, s).

Definition modify {S : Type} (f : S -> S) : M S unit := fun s => (Ok tt, f s).

Definition liftResult {S A : Type} (r : Result A) : M S A := fun s => (r, s).

(** [for (const x of l) { body x }]. *)
Fixpoint forEach {S A : Type} (l : list A) (body : A -> M S unit) : M S unit :=
  match l with
  | [] => ret tt
  | x :: l' => bind (body x) (fun _ => forEach l' body)
  end.

(** A block with a local variable of type [L], initialised to [init]
    and dropped when the block is left. *)
Definition withLocal {S L A : Type} (init : L) (m : M (S * L) A) : M S A :=
  fun s => let '(r, (s', _)) := m (s, init) in (r, s').

(** A computation on the outer state, run inside such a block. *)
Definition outer {S L A : Type} (m : M S A) : M (S * L) A :=
  fun sl => let '(r, s') := m (fst sl) in (r, (s', snd sl)).

Definition getLocal {S L : Type} : M (S * L) L := fun sl => (Ok (snd sl), sl).

Definition modifyLocal {S L : Type} (f : L -> L) : M (S * L) unit :=
  fun sl => (Ok tt, (fst sl, f (snd sl))).

End Eff.

Declare Scope eff_scope.
Delimit Scope eff_scope with eff.
Notation "x <- m ;; k" := (Eff.bind m (fun x => k))
  (at level 61, m at next level, right associativity) : eff_scope.
Notation "m ;; k" := (Eff.bind m (fun _ => k))
  (at level 61, right associativity) : eff_scope.

(** ** JSON values and [JSON.stringify] *)

Module Json.

(** The values the ledger holds: entries are flat objects of strings
    and booleans, some of them left [undefined]. *)
Inductive Value : Type :=
| Undefined
| Null
| Bool (b : bool)
| Str (s : string).

(** An object: its own properties, in creation order, with pairwise
    distinct keys. *)
Definition Object := list (string * Value).

(** [o[k]]. *)
Fixpoint get (o : Object) (k : string) : Value :=
  match o with
  | [] => Undefined
  | (k', v) :: o' => if String.eqb k' k then v else get o' k
  end.

(** [o[k] = v]: an own property keeps its place, a new one is added
    last. *)
Fixpoint set (o : Object) (k : string) (v : Value) : Object :=
  match o with
  | [] => [(k, v)]
  | (k', v') :: o' =>
      if String.eqb k' k then (k, v) :: o' else (k', v') :: set o' k v
  end.

(** [Object.keys(o)]. *)
Definition keys (o : Object) : list string := map fst o.

Definition hexDigit (n : nat) : ascii :=
  if (n <? 10)%nat then ascii_of_nat (48 + n) else ascii_of_nat (87 + n).

(** Escape of one code unit in [QuoteJSONString]. *)
Definition quoteChar (c : ascii) : string :=
  let n := nat_of_ascii c in
  if (n =? 8)%nat then "\b"
  else if (n =? 9)%nat then "\t"
  else if (n =? 10)%nat then "\n"
  else if (n =? 12)%nat then "\f"
  else if (n =? 13)%nat then "\r"
  else if (n =? 34)%nat then String "\" (String c EmptyString)
  else if (n =? 92)%nat then "\\"
  else if (n <? 32)%nat
       then "\u00" ++ String (hexDigit (n / 16)) (String (hexDigit (n mod 16)) EmptyString)
  else String c EmptyString.

Fixpoint quoteBody (s : string) : string :=
  match s with
  | EmptyString => EmptyString
  | String c s' => quoteChar c ++ quoteBody s'
  end.

Definition dquote : string := String (ascii_of_nat 34) EmptyString.

(** [QuoteJSONString]. *)
Definition quote (s : string) : string := dquote ++ quoteBody s ++ dquote.

(** [SerializeJSONProperty] on a scalar: nothing for [undefined]. *)
Definition stringifyValue (v : Value) : option string :=
  match v with
  | Undefined => None
  | Null => Some "null"
  | Bool true => Some "true"
  | Bool false => Some "false"
  | Str s => Some (quote s)
  end.

(** The property list of an array replacer: its strings, without
    repetition, first occurrences first. *)
Fixpoint propertyList (seen replacer : list string) : list string :=
  match replacer with
  | [] => []
  | k :: r =>
      if existsb (String.eqb k) seen then propertyList seen r
      else k :: propertyList (k :: seen) r
  end.

Definition member (data : Object) (k : string) : list string :=
  match stringifyValue (get data k) with
  | Some text => [quote k ++ ":" ++ text]
  | None => []
  end.

(** [JSON.stringify(data, replacer)] for an object [data] and an array
    [replacer], without indentation: the properties named by the
    replacer, in its order, those holding [undefined] left out. *)
Definition stringify (data : Object) (replacer : list string) : string :=
  "{" ++ String.concat "," (flat_map (member data) (propertyList [] replacer)) ++ "}".

(** What a value becomes once written as JSON text and parsed back:
    properties holding [undefined] are gone. *)
Definition persisted (o : Object) : Object :=
  filter (fun kv => match snd kv with Undefined => false | _ => true end) o.

End Json.

Module JsArray.

(** The comparison of [a.sort()] without comparator, on strings:
    code unit by code unit. *)
Definition defaultCompare (x y : string) : Q :=
  match String_as_OT.compare x y with
  | Lt => (-1)%Q
  | Eq => 0%Q
  | Gt => 1%Q
  end.

(** [a.filter(f)] for a callback that may throw. *)
Fixpoint filter {A : Type} (f : A -> option bool) (a : list A)
  : option (list A) :=
  match a with
  | [] => Some []
  | x :: a' =>
      match f x with
      | None => None
      | Some keep =>
          match filter f a' with
          | None => None
          | Some r => Some (if keep then x :: r else r)
          end
      end
  end.

(** [a.find(f)]. *)
Definition find {A : Type} (f : A -> bool) (a : list A) : option A :=
  List.find f a.

End JsArray.

(** ** Persistent data: schemas of [schemas/knowledge-base.ts] *)

Module Config.

Record Repository : Type := {
  owner : string;
  repo : string;
  branch : string;
  includePatterns : list string;
  excludePatterns : list string;
  indexingEnabled : bool
}.

Record Sync : Type := {
  enabled : bool;
  intervalMinutes : Z;
  autoDiscoverUserRepos : bool;
  includeOfficialMCPRepos : bool;
  includeCommunityRepos : bool
}.

Record KnowledgeBaseConfig : Type := {
  repositories : list Repository;
  sync : Sync
}.

End Config.

Module Ledger.

(** A blocklist in memory. Entries are objects with the properties of
    [BlocklistEntrySchema]. *)
Record Blocklist : Type := {
  version : string;
  lastUpdated : string;
  entries : list Json.Object
}.

(** The file [data/blocklist.json] once read by [JSON.parse]: an object
    with an array of flat objects under [entries]. *)
Record BlocklistJson : Type := {
  jsonVersion : Json.Value;
  jsonLastUpdated : Json.Value;
  jsonEntries : list Json.Object
}.

(** [JSON.stringify] followed by [JSON.parse] on a blocklist. *)
Definition toJson (b : Blocklist) : BlocklistJson :=
  {| jsonVersion := Json.Str (version b);
     jsonLastUpdated := Json.Str (lastUpdated b);
     jsonEntries := map Json.persisted (entries b) |}.

End Ledger.

(** One entry of a repository tree as the hosting service lists it;
    every field is optional there. *)
Record TreeItem : Type := {
  path : option string;
  type : option string;
  sha : option string;
  itemSize : option Z
}.

(** The world outside the program: the services it calls and the
    functions of the platform that are not modelled further. *)
Record Env : Type := {
  (** [crypto.createHash('sha256').update(text).digest('hex')] *)
  sha256hex : string -> string;
  (** the test of [z.string().datetime()] *)
  isDatetime : string -> bool;
  (** [new Date().toISOString()] at the n-th reading of the clock *)
  isoTime : nat -> string;
  (** [new RegExp] outside the fragment of [RegExp] *)
  regExp : RegExp.Engine;
  (** [path.extname], [path.dirname], [path.join] *)
  extname : string -> string;
  dirname : string -> string;
  pathJoin : list string -> string;
  (** the directory [baseDir] of the storage *)
  baseDir : string;
  (** does creating the directory, or writing the file, at a path succeed? *)
  mkdirOk : string -> bool;
  writeFileOk : string -> bool;
  (** what a write that fails leaves of the ledger file, given what was
      there: the file as it was when it could not be opened; no JSON
      when the write failed after the file was opened, and so emptied *)
  ledgerAfterFailedWrite : option Ledger.BlocklistJson -> option Ledger.BlocklistJson;
  (** [octokit.git.getTree] for owner, repository and tree reference *)
  getTree : string -> string -> string -> Result (list TreeItem);
  (** [octokit.git.getBlob] for owner, repository and blob hash,
      decoded from base64 *)
  getBlob : string -> string -> string -> Result string;
  (** the owner's repositories, [octokit.repos.listForUser] *)
  listForUser : Result (list (string * string));
  (** does [octokit.repos.getContent] find [.claude] in the repository? *)
  getClaudeContent : string -> string -> Result unit
}.

(** The mutable state of the process and of its disk. *)
Record World : Type := {
  (** lines written with [console.error], oldest first *)
  console : list string;
  (** readings of the clock so far *)
  clock : nat;
  (** [config.json], when it is there and passes its schema *)
  configFile : option Config.KnowledgeBaseConfig;
  (** [data/blocklist.json], when it is there and is JSON *)
  blocklistFile : option Ledger.BlocklistJson;
  (** files written below [repos/], latest first *)
  repoFiles : list (string * string);
  (** the documents of the global [searchEngine] *)
  searchEngine : SearchEngine.Documents
}.

Module Sys.

Import Eff.
Local Open Scope eff_scope.

(** [console.error(line)]. *)
Definition consoleError (line : string) : M World unit :=
  modify (fun w =>
    {| console := (console w ++ [line])%list; clock := clock w;
       configFile := configFile w; blocklistFile := blocklistFile w;
       repoFiles := repoFiles w; searchEngine := searchEngine w |}).

(** [new Date().toISOString()]: time has passed at each reading. *)
Definition dateNow (env : Env) : M World string :=
  fun w =>
    (Ok (isoTime env (clock w)),
     {| console := console w; clock := S (clock w);
        configFile := configFile w; blocklistFile := blocklistFile w;
        repoFiles := repoFiles w; searchEngine := searchEngine w |}).

Definition setBlocklistFile (f : option Ledger.BlocklistJson) : M World unit :=
  modify (fun w =>
    {| console := console w; clock := clock w;
       configFile := configFile w; blocklistFile := f;
       repoFiles := repoFiles w; searchEngine := searchEngine w |}).

Definition addRepoFile (p text : string) : M World unit :=
  modify (fun w =>
    {| console := console w; clock := clock w;
       configFile := configFile w; blocklistFile := blocklistFile w;
       repoFiles := (p, text) :: repoFiles w; searchEngine := searchEngine w |}).

Definition setSearchEngine (d : SearchEngine.Documents) : M World unit :=
  modify (fun w =>
    {| console := console w; clock := clock w;
       configFile := configFile w; blocklistFile := blocklistFile w;
       repoFiles := repoFiles w; searchEngine := d |}).

(** [fs.mkdir(p, { recursive: true })]. *)
Definition mkdir (env : Env) (p : string) : M World unit :=
  if mkdirOk env p then ret tt else throw ("EACCES: mkdir " ++ p).

(** [fs.writeFile(p, text)] below [repos/]. *)
Definition writeRepoFile (env : Env) (p text : string) : M World unit :=
  if writeFileOk env p then addRepoFile p text
  else throw ("EACCES: open " ++ p).

(** Decimal notation of a count inside a template string. *)
Definition showNat (n : nat) : string :=
  DecimalString.NilZero.string_of_uint (Nat.to_uint n).

End Sys.

(** ** [KnowledgeBaseStorage]: the blocklist ledger *)

Module Schema.

(** A required string property passing the test [ok]. *)
Definition requiredString (ok : string -> bool) (o : Json.Object) (k : string)
  : option (list (string * Json.Value)) :=
  match Json.get o k with
  | Json.Str s => if ok s then Some [(k, Json.Str s)] else None
  | _ => None
  end.

(** [z.string().optional()]. *)
Definition optionalString (o : Json.Object) (k : string)
  : option (list (string * Json.Value)) :=
  match Json.get o k with
  | Json.Undefined => Some []
  | Json.Str s => Some [(k, Json.Str s)]
  | _ => None
  end.

(** [z.boolean().default(d)]. *)
Definition booleanDefault (d : bool) (o : Json.Object) (k : string)
  : option (list (string * Json.Value)) :=
  match Json.get o k with
  | Json.Undefined => Some [(k, Json.Bool d)]
  | Json.Bool b => Some [(k, Json.Bool b)]
  | _ => None
  end.

(** [z.enum(values).default(d)]. *)
Definition enumDefault (values : list string) (d : string) (o : Json.Object)
  (k : string) : option (list (string * Json.Value)) :=
  match Json.get o k with
  | Json.Undefined => Some [(k, Json.Str d)]
  | Json.Str s =>
      if existsb (String.eqb s) values then Some [(k, Json.Str s)] else None
  | _ => None
  end.

(** The parsed properties of an object schema, in the order of the
    schema; the first failing property fails the whole. *)
Fixpoint object (fields : list (option (list (string * Json.Value))))
  : option Json.Object :=
  match fields with
  | [] => Some []
  | None :: _ => None
  | Some kv :: fields' =>
      match object fields' with
      | Some o => Some (kv ++ o)%list
      | None => None
      end
  end.

Definition anyString (_ : string) : bool := true.

Definition oneOf (values : list string) (s : string) : bool :=
  existsb (String.eqb s) values.

(** [BlocklistEntrySchema.parse]: [None] when it throws. The property
    [hash] has to be a string, nothing more. *)
Definition BlocklistEntrySchema (env : Env) (o : Json.Object)
  : option Json.Object :=
  object
    [ requiredString (isDatetime env) o "timestamp";
      requiredString (oneOf ["server"; "file_pattern"]) o "type";
      optionalString o "serverName";
      optionalString o "version";
      optionalString o "pattern";
      requiredString anyString o "reason";
      requiredString anyString o "hash";
      booleanDefault false o "allowOverride";
      enumDefault ["user"; "system"; "community"] "user" o "source" ].

Fixpoint array {A B : Type} (item : A -> option B) (l : list A)
  : option (list B) :=
  match l with
  | [] => Some []
  | x :: l' =>
      match item x, array item l' with
      | Some y, Some r => Some (y :: r)
      | _, _ => None
      end
  end.

(** [BlocklistSchema.parse]. *)
Definition BlocklistSchema (env : Env) (j : Ledger.BlocklistJson)
  : option Ledger.Blocklist :=
  match
    (match Ledger.jsonVersion j with
     | Json.Undefined => Some "1.0.0"
     | Json.Str s => Some s
     | _ => None
     end),
    (match Ledger.jsonLastUpdated j with
     | Json.Str s => if isDatetime env s then Some s else None
     | _ => None
     end),
    array (BlocklistEntrySchema env) (Ledger.jsonEntries j)
  with
  | Some v, Some t, Some es =>
      Some {| Ledger.version := v; Ledger.lastUpdated := t; Ledger.entries := es |}
  | _, _, _ => None
  end.

End Schema.

Module Storage.

Import Eff.
Local Open Scope eff_scope.

Section WithEnv.

Variable env : Env.

Definition getBlocklistPath : string :=
  pathJoin env [baseDir env; "data"; "blocklist.json"].

(** [getRepoPath(owner, repo)]. *)
Definition getRepoPath (owner repo : string) : string :=
  pathJoin env [baseDir env; "repos"; owner; repo].

(** [ensureRepoDir(owner, repo)]. *)
Definition ensureRepoDir (owner repo : string) : M World string :=
  let repoPath := getRepoPath owner repo in
  Sys.mkdir env repoPath ;;
  ret repoPath.

(** [loadConfig()]. *)
Definition loadConfig : M World Config.KnowledgeBaseConfig :=
  w <- get ;;
  match configFile w with
  | Some c => ret c
  | None => throw "config.json: cannot read or parse"
  end.

(** [loadBlocklist()]: read, [JSON.parse], [BlocklistSchema.parse]. *)
Definition loadBlocklist : M World Ledger.Blocklist :=
  w <- get ;;
  match blocklistFile w with
  | None => throw "blocklist.json: cannot read or parse"
  | Some j =>
      match Schema.BlocklistSchema env j with
      | Some b => ret b
      | None => throw "ZodError"
      end
  end.

(** [saveBlocklist(blocklist)]: one [fs.writeFile], which is not atomic;
    when it fails the file is what the failure left of it. *)
Definition saveBlocklist (blocklist : Ledger.Blocklist) : M World unit :=
  if writeFileOk env getBlocklistPath
  then Sys.setBlocklistFile (Some (Ledger.toJson blocklist))
  else
    w <- get ;;
    Sys.setBlocklistFile (ledgerAfterFailedWrite env (blocklistFile w)) ;;
    throw ("writeFile failed: " ++ getBlocklistPath).

(** [calculateHash(data)]. *)
Definition calculateHash (data : Json.Object) : string :=
  let canonical :=
    Json.stringify data (JS.sort JsArray.defaultCompare (Json.keys data)) in
  "sha256:" ++ sha256hex env canonical.

(** [addBlocklistEntry(entry)]. *)
Definition addBlocklistEntry (entry : Json.Object) : M World unit :=
  blocklist <- loadBlocklist ;;
  let hash := calculateHash entry in
  let fullEntry := Json.set entry "hash" (Json.Str hash) in
  lastUpdated <- Sys.dateNow env ;;
  saveBlocklist
    {| Ledger.version := Ledger.version blocklist;
       Ledger.lastUpdated := lastUpdated;
       Ledger.entries := (Ledger.entries blocklist ++ [fullEntry])%list |}.

(** Is an optional string argument truthy? *)
Definition truthy (s : option string) : option string :=
  match s with
  | Some EmptyString => None
  | other => other
  end.

Definition reasonOf (e : Json.Object) : option string :=
  match Json.get e "reason" with
  | Json.Str r => Some r
  | _ => None
  end.

Definition valueEqb (v : Json.Value) (s : string) : bool :=
  match v with
  | Json.Str t => String.eqb t s
  | _ => false
  end.

(** [isBlocked(serverName, pattern)]: the pair of [blocked] and
    [reason]. *)
Definition isBlocked (serverName pattern : option string)
  : M World (bool * option string) :=
  blocklist <- loadBlocklist ;;
  let byServer :=
    match truthy serverName with
    | Some name =>
        JsArray.find
          (fun e => valueEqb (Json.get e "type") "server"
                    && valueEqb (Json.get e "serverName") name)
          (Ledger.entries blocklist)
    | None => None
    end in
  match byServer with
  | Some entry => ret (true, reasonOf entry)
  | None =>
      let byPattern :=
        match truthy pattern with
        | Some p =>
            JsArray.find
              (fun e => valueEqb (Json.get e "type") "file_pattern"
                        && valueEqb (Json.get e "pattern") p)
              (Ledger.entries blocklist)
        | None => None
        end in
      match byPattern with
      | Some entry => ret (true, reasonOf entry)
      | None => ret (false, None)
      end
  end.

End WithEnv.

End Storage.


(** ** [GitHubSync] *)

Module GitHubSync.

Import Eff.
Local Open Scope eff_scope.

(** Is an optional string truthy: defined and not empty? *)
Definition truthy (s : option string) : option string :=
  match s with
  | Some EmptyString => None
  | other => other
  end.

(** The callback of [tree.tree.filter] in [fetchFilesFromRepo]; [None]
    when [matchPattern] throws. *)
Definition isMatchingFile (engine : RegExp.Engine)
  (includePatterns excludePatterns : list string) (item : TreeItem)
  : option bool :=
  match type item with
  | Some "blob" =>
      match truthy (path item) with
      | None => Some false
      | Some p =>
          match JS.some (fun pattern => Glob.matchPattern engine p pattern)
                  includePatterns with
          | None => None
          | Some false => Some false
          | Some true =>
              match JS.some (fun pattern => Glob.matchPattern engine p pattern)
                      excludePatterns with
              | None => None
              | Some true => Some false
              | Some false => Some true
              end
          end
      end
  | _ => Some false
  end.

(** Default values of the parameters of [fetchFilesFromRepo]. *)
Definition defaultBranch : string := "main".
Definition defaultIncludePatterns : list string := [".claude/**/*.md"].
Definition defaultExcludePatterns : list string := ["**/node_modules/**"].

(** [getOfficialMCPRepos()] and [getCommunityMCPRepos()]. *)
Definition getOfficialMCPRepos : list (string * string) :=
  [ ("modelcontextprotocol", "servers");
    ("modelcontextprotocol", "typescript-sdk");
    ("modelcontextprotocol", "specification") ].

Definition getCommunityMCPRepos : list (string * string) :=
  [ ("punkpeye", "awesome-mcp-servers");
    ("wong2", "awesome-mcp-servers") ].

Section WithEnv.

Variable env : Env.

(** [hasCludeDirectory(owner, repo)]. *)
Definition hasCludeDirectory (owner repo : string) : M World bool :=
  tryCatch
    (liftResult (getClaudeContent env owner repo) ;; ret true)
    (fun _ => ret false).

(** [discoverUserRepos()], called without a user name. *)
Definition discoverUserRepos : M World (list (string * string)) :=
  tryCatch
    (repos <- liftResult (listForUser env) ;;
     withLocal []
       (forEach repos
          (fun r =>
             found <- outer (hasCludeDirectory (fst r) (snd r)) ;;
             if found then modifyLocal (fun reposWithClaude => reposWithClaude ++ [r])%list
             else ret tt) ;;
        getLocal))
    (fun error =>
       Sys.consoleError ("Error discovering user repos: " ++ error) ;;
       ret []).

(** The document built from a fetched blob. *)
Definition mkDocument (owner repo branch filePath fileSha content : string)
  (fileSize : option Z) (lastModified indexed : string) : IndexedDocument :=
  {| id := owner ++ "/" ++ repo ++ "/" ++ branch ++ "/" ++ filePath;
     repoOwner := owner;
     repoName := repo;
     branch := branch;
     filePath := filePath;
     content := content;
     metadata :=
       {| fileType :=
            (let ext := extname env filePath in
             match JS.slice ext 1 (JS.len ext) with
             | EmptyString => "unknown"
             | e => e
             end);
          lastModified := lastModified;
          size := match fileSize with Some n => n | None => 0%Z end;
          hash := fileSha |};
     indexed := indexed |}.

(** The body of the loop over [matchingFiles]; the local variable is the
    array [documents]. *)
Definition fetchFile (owner repo branch repoPath : string) (file : TreeItem)
  : M (World * list IndexedDocument) unit :=
  match truthy (path file), truthy (sha file) with
  | Some filePath, Some fileSha =>
      tryCatch
        (content <- outer (liftResult (getBlob env owner repo fileSha)) ;;
         lastModified <- outer (Sys.dateNow env) ;;
         indexed <- outer (Sys.dateNow env) ;;
         let document :=
           mkDocument owner repo branch filePath fileSha content
             (itemSize file) lastModified indexed in
         modifyLocal (fun documents => documents ++ [document])%list ;;
         let localPath := pathJoin env [repoPath; filePath] in
         outer (Sys.mkdir env (dirname env localPath)) ;;
         outer (Sys.writeRepoFile env localPath content))
        (fun error =>
           outer (Sys.consoleError
                    ("Error fetching file " ++ filePath ++ ": " ++ error)))
  | _, _ => ret tt
  end.

(** [fetchFilesFromRepo(owner, repo, branch, includePatterns,
    excludePatterns)]. *)
Definition fetchFilesFromRepo (owner repo branch : string)
  (includePatterns excludePatterns : list string)
  : M World (list IndexedDocument) :=
  Sys.consoleError ("Fetching files from " ++ owner ++ "/" ++ repo ++ "...") ;;
  tryCatch
    (let repoPath := Storage.getRepoPath env owner repo in
     Storage.ensureRepoDir env owner repo ;;
     withLocal []
       (tree <- outer (liftResult (getTree env owner repo branch)) ;;
        matchingFiles <-
          match JsArray.filter
                  (isMatchingFile (regExp env) includePatterns excludePatterns)
                  tree with
          | Some files => ret files
          | None => throw "SyntaxError: Invalid regular expression"
          end ;;
        outer (Sys.consoleError
                 ("Found " ++ Sys.showNat (length matchingFiles) ++ " matching files")) ;;
        forEach matchingFiles (fetchFile owner repo branch repoPath) ;;
        getLocal))
    (fun error =>
       Sys.consoleError
         ("Error fetching repo " ++ owner ++ "/" ++ repo ++ ": " ++ error) ;;
       ret []).

End WithEnv.

End GitHubSync.

(** ** [index.ts]: the sync pass *)

Module Main.

Import Eff.
Local Open Scope eff_scope.

Section WithEnv.

Variable env : Env.

(** [searchEngine.addDocuments(docs)] on the global engine. *)
Definition addDocuments (docs : list IndexedDocument) : M World unit :=
  w <- get ;;
  let documents := SearchEngine.addDocuments (searchEngine w) docs in
  Sys.setSearchEngine documents ;;
  Sys.consoleError
    ("Indexed " ++ Sys.showNat (length docs) ++ " documents. Total: "
     ++ Sys.showNat (length documents)).

(** One turn of the four loops of [syncKnowledgeBase]. *)
Definition syncRepo (owner repo branch : string)
  (includePatterns excludePatterns : list string) : M World unit :=
  docs <- GitHubSync.fetchFilesFromRepo env owner repo branch
            includePatterns excludePatterns ;;
  addDocuments docs.

(** [syncKnowledgeBase(force)]; [githubSync] tells whether the global of
    that name is set. *)
Definition syncKnowledgeBase (githubSync : bool) (force : bool) : M World unit :=
  if negb githubSync then Sys.consoleError "GitHub sync not available"
  else
    config <- Storage.loadConfig ;;
    (if force then
       w <- get ;; Sys.setSearchEngine (SearchEngine.clear (searchEngine w))
     else ret tt) ;;
    (if Config.autoDiscoverUserRepos (Config.sync config) then
       Sys.consoleError "Auto-discovering user repositories..." ;;
       userRepos <- GitHubSync.discoverUserRepos env ;;
       Sys.consoleError
         ("Found " ++ Sys.showNat (length userRepos)
          ++ " user repositories with .claude/ directories") ;;
       forEach userRepos
         (fun r =>
            syncRepo (fst r) (snd r) "main"
              [".claude/**/*.md"; "**/*.mcp.json"]
              GitHubSync.defaultExcludePatterns)
     else ret tt) ;;
    (if Config.includeOfficialMCPRepos (Config.sync config) then
       Sys.consoleError "Fetching official MCP repositories..." ;;
       forEach GitHubSync.getOfficialMCPRepos
         (fun r =>
            syncRepo (fst r) (snd r) "main"
              ["**/*.md"; "**/package.json"]
              GitHubSync.defaultExcludePatterns)
     else ret tt) ;;
    (if Config.includeCommunityRepos (Config.sync config) then
       Sys.consoleError "Fetching community MCP repositories..." ;;
       forEach GitHubSync.getCommunityMCPRepos
         (fun r =>
            syncRepo (fst r) (snd r) "main"
              ["**/*.md"]
              GitHubSync.defaultExcludePatterns)
     else ret tt) ;;
    forEach (Config.repositories config)
      (fun r =>
         if negb (Config.indexingEnabled r) then ret tt
         else
           syncRepo (Config.owner r) (Config.repo r) (Config.branch r)
             (Config.includePatterns r) (Config.excludePatterns r)) ;;
    Sys.consoleError "Knowledge base sync complete".

End WithEnv.

End Main.

(** ** [index.ts]: the tools that read and write the blocklist, and the
    tool that runs a pass *)

Module Tools.

Import Eff.
Local Open Scope eff_scope.

(** What a tool call answers: its one text content, and the flag
    [isError], which counts as [false] where the source leaves it out. *)
Record Response : Type := {
  text : string;
  isError : bool
}.

(** The schemas of the arguments; [None] when their [parse] throws. *)
Definition AddBlocklistEntrySchema (o : Json.Object) : option Json.Object :=
  Schema.object
    [ Schema.requiredString (Schema.oneOf ["server"; "file_pattern"]) o "type";
      Schema.optionalString o "serverName";
      Schema.optionalString o "pattern";
      Schema.requiredString Schema.anyString o "reason" ].

Definition CheckBlocklistSchema (o : Json.Object) : option Json.Object :=
  Schema.object
    [ Schema.optionalString o "serverName";
      Schema.optionalString o "pattern" ].

Definition UpdateKnowledgeBaseSchema (o : Json.Object) : option Json.Object :=
  Schema.object [ Schema.booleanDefault false o "force" ].

(** [schema.parse(request.params.arguments)]; a request may come
    without arguments, which no object schema accepts. *)
Definition parse (schema : Json.Object -> option Json.Object)
  (arguments : option Json.Object) : M World Json.Object :=
  match arguments with
  | Some o =>
      match schema o with
      | Some args => ret args
      | None => throw "ZodError"
      end
  | None => throw "ZodError"
  end.

(** A value inside a template string. *)
Definition toStr (v : Json.Value) : string :=
  match v with
  | Json.Undefined => "undefined"
  | Json.Null => "null"
  | Json.Bool true => "true"
  | Json.Bool false => "false"
  | Json.Str s => s
  end.

(** [a || b]. *)
Definition orElse (a b : Json.Value) : Json.Value :=
  match a with
  | Json.Undefined | Json.Null | Json.Bool false | Json.Str EmptyString => b
  | _ => a
  end.

(** An optional string argument handed on to a method. *)
Definition asOption (v : Json.Value) : option string :=
  match v with
  | Json.Str s => Some s
  | _ => None
  end.

Definition newline : string := String (ascii_of_nat 10) EmptyString.

Definition indentedMember (kv : string * Json.Value) : list string :=
  match Json.stringifyValue (snd kv) with
  | Some value => [Json.quote (fst kv) ++ ": " ++ value]
  | None => []
  end.

(** [JSON.stringify(data, null, 2)] for a flat object: one property
    per line behind two spaces, those holding [undefined] left out. *)
Definition stringifyIndented (data : Json.Object) : string :=
  match flat_map indentedMember data with
  | [] => "{}"
  | members =>
      "{" ++ newline ++ "  "
      ++ String.concat ("," ++ newline ++ "  ") members
      ++ newline ++ "}"
  end.

(** The object that [isBlocked] returns. *)
Definition blockedResult (result : bool * option string) : Json.Object :=
  [ ("blocked", Json.Bool (fst result));
    ("reason", match snd result with
               | Some reason => Json.Str reason
               | None => Json.Undefined
               end) ].

(** The object literal that the case ['add_blocklist_entry'] hands to
    the storage. *)
Definition blocklistEntry (timestamp : string) (args : Json.Object)
  : Json.Object :=
  [ ("timestamp", Json.Str timestamp);
    ("type", Json.get args "type");
    ("serverName", Json.get args "serverName");
    ("pattern", Json.get args "pattern");
    ("reason", Json.get args "reason");
    ("allowOverride", Json.Bool false);
    ("source", Json.Str "user") ].

Section WithEnv.

Variable env : Env.

(** The case ['add_blocklist_entry']. *)
Definition add_blocklist_entry (arguments : option Json.Object)
  : M World Response :=
  args <- parse AddBlocklistEntrySchema arguments ;;
  timestamp <- Sys.dateNow env ;;
  Storage.addBlocklistEntry env (blocklistEntry timestamp args) ;;
  ret {| text := "Added " ++ toStr (Json.get args "type")
                 ++ " blocklist entry: "
                 ++ toStr (orElse (Json.get args "serverName")
                             (Json.get args "pattern"));
         isError := false |}.

(** The case ['check_blocklist']. *)
Definition check_blocklist (arguments : option Json.Object)
  : M World Response :=
  args <- parse CheckBlocklistSchema arguments ;;
  result <- Storage.isBlocked env (asOption (Json.get args "serverName"))
              (asOption (Json.get args "pattern")) ;;
  ret {| text := stringifyIndented (blockedResult result); isError := false |}.

(** The case ['update_knowledge_base']; [githubSync] tells whether the
    global of that name is set. *)
Definition update_knowledge_base (githubSync : bool)
  (arguments : option Json.Object) : M World Response :=
  args <- parse UpdateKnowledgeBaseSchema arguments ;;
  if negb githubSync then
    ret {| text := "GitHub sync not configured. Set GITHUB_TOKEN environment variable.";
           isError := true |}
  else
    Sys.consoleError "Updating knowledge base..." ;;
    Main.syncKnowledgeBase env githubSync
      (match Json.get args "force" with Json.Bool force => force | _ => false end) ;;
    w <- get ;;
    let stats := SearchEngine.getStats (searchEngine w) in
    ret {| text := "Knowledge base updated. "
                   ++ Sys.showNat (Z.to_nat (SearchEngine.totalDocuments stats))
                   ++ " documents indexed from "
                   ++ Sys.showNat (length (SearchEngine.repositories stats))
                   ++ " repositories.";
           isError := false |}.

(** The [default] case. *)
Definition unknownTool (name : string) : M World Response :=
  throw ("Unknown tool: " ++ name).

(** The [try]/[catch] around the cases: an exception becomes an answer
    flagged as an error. *)
Definition handled (body : M World Response) : M World Response :=
  tryCatch body
    (fun message => ret {| text := "Error: " ++ message; isError := true |}).

End WithEnv.

End Tools.


(** ** The specification's wording, for comparison with the code *)

Module Spec.

(** The rest of [s] after its first [n] code units. *)
Fixpoint dropString (n : nat) (s : string) : string :=
  match n, s with
  | O, _ => s
  | S n', String _ s' => dropString n' s'
  | S _, EmptyString => EmptyString
  end.

(** Counting occurrences of [q] in [s] that do not overlap: find the
    first one, count it, go on behind it. [fuel] bounds the number of
    searches. *)
Fixpoint countFrom (fuel : nat) (q s : string) : nat :=
  match fuel with
  | O => O
  | S fuel' =>
      match String.index 0 q s with
      | None => O
      | Some j => S (countFrom fuel' q (dropString (j + String.length q) s))
      end
  end.

(** "The count of non-overlapping occurrences of [q] in [s]", for a
    non-empty [q]. *)
Definition occurrenceCount (q s : string) : nat :=
  countFrom (String.length s) q s.



(** "Contains the query case-insensitively". *)
Definition containsCI (content query : string) : Prop :=
  exists a b, JS.toLowerCase content = a ++ JS.toLowerCase query ++ b.

(** "min(occurrenceCount / 10, 1.0)". *)
Definition relevance (occurrences : nat) : Q :=
  Qmin (inject_Z (Z.of_nat occurrences) / 10)%Q 1%Q.

(** "The substring spanning [lo, hi), clamped to content bounds". *)
Definition window (content : string) (lo hi : Z) : string :=
  let from := Z.max 0 lo in
  let to := Z.min (JS.len content) hi in
  String.substring (Z.to_nat from) (Z.to_nat (to - from)) content.

(** "Wrapped with ellipsis markers". *)
Definition ellipsis (s : string) : string := "..." ++ s ++ "...".

(** The result for one document under the empty query: the empty
    string cuts the lower-cased content into its code units, one less
    than these is the count; the snippet is the beginning of the
    content. *)
Definition emptyQueryResult (doc : IndexedDocument) : SearchResult :=
  {| document := doc;
     score :=
       Qmin (inject_Z (JS.len (JS.toLowerCase (content doc)) - 1) / 10)%Q 1%Q;
     snippet := ellipsis (String.substring 0 200 (content doc)) |}.

(** "anyMatch(patterns, path)", for patterns that compile. *)
Definition anyMatch (engine : RegExp.Engine) (patterns : list string)
  (p : string) : bool :=
  existsb
    (fun pattern =>
       match Glob.matchPattern engine p pattern with
       | Some b => b
       | None => false
       end)
    patterns.

(** "isEligible(path, includes, excludes) = anyMatch(includes, path) AND
    NOT anyMatch(excludes, path)". *)
Definition isEligible (engine : RegExp.Engine) (p : string)
  (includes excludes : list string) : bool :=
  anyMatch engine includes p && negb (anyMatch engine excludes p).

End Spec.

(** ** The sync pass without its exceptions, for comparison *)

Module SyncSpec.

(** One unit of work of a pass: a repository with its patterns. *)
Record Job : Type := {
  owner : string;
  repo : string;
  branch : string;
  includePatterns : list string;
  excludePatterns : list string
}.

(** The documents fetched for one file, at clock [c]: one document when
    the file has a path and a hash and its blob can be fetched, none
    otherwise. *)
Definition fileDocuments (env : Env) (owner repo branch : string) (c : nat)
  (file : TreeItem) : list IndexedDocument :=
  match GitHubSync.truthy (path file), GitHubSync.truthy (sha file) with
  | Some filePath, Some fileSha =>
      match getBlob env owner repo fileSha with
      | Ok text =>
          [GitHubSync.mkDocument env owner repo branch filePath fileSha text
             (itemSize file) (isoTime env c) (isoTime env (S c))]
      | Throw _ => []
      end
  | _, _ => []
  end.

(** The documents of a list of files; each document takes two readings
    of the clock. *)
Fixpoint filesDocuments (env : Env) (owner repo branch : string) (c : nat)
  (files : list TreeItem) : list IndexedDocument :=
  match files with
  | [] => []
  | file :: files' =>
      let docs := fileDocuments env owner repo branch c file in
      (docs ++ filesDocuments env owner repo branch (c + 2 * length docs) files')%list
  end.

(** The batch of one repository: empty when its directory cannot be
    made, its tree cannot be listed or a pattern cannot be compiled. *)
Definition repoDocuments (env : Env) (job : Job) (c : nat) : list IndexedDocument :=
  if mkdirOk env (Storage.getRepoPath env (owner job) (repo job)) then
    match getTree env (owner job) (repo job) (branch job) with
    | Ok tree =>
        match JsArray.filter
                (GitHubSync.isMatchingFile (regExp env) (includePatterns job)
                   (excludePatterns job))
                tree with
        | Some files => filesDocuments env (owner job) (repo job) (branch job) c files
        | None => []
        end
    | Throw _ => []
    end
  else [].

(** One repository done: its batch is upserted, the clock has gone on. *)
Definition stepJob (env : Env) (state : nat * SearchEngine.Documents) (job : Job)
  : nat * SearchEngine.Documents :=
  let docs := repoDocuments env job (fst state) in
  ((fst state + 2 * length docs)%nat, SearchEngine.addDocuments (snd state) docs).

(** The repositories found by discovery: none when the listing fails. *)
Definition discovered (env : Env) : list (string * string) :=
  match listForUser env with
  | Ok repos =>
      filter
        (fun r =>
           match getClaudeContent env (fst r) (snd r) with
           | Ok _ => true
           | Throw _ => false
           end)
        repos
  | Throw _ => []
  end.

Definition mainJob (includePatterns : list string) (r : string * string) : Job :=
  {| owner := fst r; repo := snd r; branch := "main";
     includePatterns := includePatterns;
     excludePatterns := GitHubSync.defaultExcludePatterns |}.

Definition configuredJob (r : Config.Repository) : Job :=
  {| owner := Config.owner r; repo := Config.repo r; branch := Config.branch r;
     includePatterns := Config.includePatterns r;
     excludePatterns := Config.excludePatterns r |}.

(** The units of work of a pass, in the order of [syncKnowledgeBase]. *)
Definition passJobs (env : Env) (config : Config.KnowledgeBaseConfig) : list Job :=
  ((if Config.autoDiscoverUserRepos (Config.sync config)
    then map (mainJob [".claude/**/*.md"; "**/*.mcp.json"]) (discovered env)
    else [])
   ++ (if Config.includeOfficialMCPRepos (Config.sync config)
       then map (mainJob ["**/*.md"; "**/package.json"]) GitHubSync.getOfficialMCPRepos
       else [])
   ++ (if Config.includeCommunityRepos (Config.sync config)
       then map (mainJob ["**/*.md"]) GitHubSync.getCommunityMCPRepos
       else [])
   ++ map configuredJob
        (filter Config.indexingEnabled (Config.repositories config)))%list.

(** From [w] to [w'] the clock was read [ticks] times and, but for the
    console and the files below [repos/], nothing else changed. *)
Definition advances (w w' : World) (ticks : nat) : Prop :=
  clock w' = (clock w + ticks)%nat
  /\ searchEngine w' = searchEngine w
  /\ configFile w' = configFile w
  /\ blocklistFile w' = blocklistFile w.

(** From [w] to [w'] the repositories [jobs] were done one after the
    other. *)
Definition reaches (env : Env) (w w' : World) (jobs : list Job) : Prop :=
  (clock w', searchEngine w') =
  fold_left (stepJob env) jobs (clock w, searchEngine w)
  /\ configFile w' = configFile w.

End SyncSpec.

(** ** The ledger in the specification's words *)

Module LedgerSpec.

(** The fields of an entry "except itself", the hash. *)
Definition withoutHash (e : Json.Object) : Json.Object :=
  filter (fun kv => negb (String.eqb (fst kv) "hash")) e.

(** "Recompute the entry's hash from its fields" and compare. *)
Definition hashMatches (env : Env) (e : Json.Object) : Prop :=
  Json.get e "hash" = Json.Str (Storage.calculateHash env (withoutHash e)).

(** The JSON text of a value that is not [undefined]. *)
Definition valueText (v : Json.Value) : string :=
  match v with
  | Json.Undefined => ""
  | Json.Null => "null"
  | Json.Bool true => "true"
  | Json.Bool false => "false"
  | Json.Str s => Json.quote s
  end.

Definition memberText (e : Json.Object) (k : string) : string :=
  Json.quote k ++ ":" ++ valueText (Json.get e k).

(** "Computed with lexicographically sorted field names": the text of
    the JSON object that lists the fields [names] of [e], in the order
    of [names]. *)
Definition canonicalText (e : Json.Object) (names : list string) : string :=
  "{" ++ String.concat "," (map (memberText e) names) ++ "}".

(** "All fields", "lexicographically sorted": the names of the fields of
    [e] that hold a value, each once, in increasing order. *)
Definition fieldNames (e : Json.Object) (names : list string) : Prop :=
  StronglySorted String_as_OT.lt names
  /\ forall k, In k names <-> Json.get e k <> Json.Undefined.

(** The value of a hexadecimal digit. *)
Definition unhex (c : ascii) : option nat :=
  let n := nat_of_ascii c in
  if ((48 <=? n) && (n <=? 57))%nat then Some (n - 48)%nat
  else if ((97 <=? n) && (n <=? 102))%nat then Some (n - 87)%nat
  else None.

(** Reading a JSON string literal back: the text behind the opening
    quote gives the string, and what follows the closing quote. *)
Fixpoint unquoteBody (s : string) : option (string * string) :=
  match s with
  | EmptyString => None
  | String c s1 =>
      if Ascii.eqb c (ascii_of_nat 34) then Some (EmptyString, s1)
      else if Ascii.eqb c "\" then
        match s1 with
        | String e s2 =>
            if Ascii.eqb e "u" then
              match s2 with
              | String _ (String _ (String h1 (String h2 s6))) =>
                  match unhex h1, unhex h2, unquoteBody s6 with
                  | Some a, Some b, Some (t, rest) =>
                      Some (String (ascii_of_nat (16 * a + b)) t, rest)
                  | _, _, _ => None
                  end
              | _ => None
              end
            else
              match unquoteBody s2 with
              | Some (t, rest) =>
                  let d :=
                    if Ascii.eqb e "b" then ascii_of_nat 8
                    else if Ascii.eqb e "t" then ascii_of_nat 9
                    else if Ascii.eqb e "n" then ascii_of_nat 10
                    else if Ascii.eqb e "f" then ascii_of_nat 12
                    else if Ascii.eqb e "r" then ascii_of_nat 13
                    else e in
                  Some (String d t, rest)
              | None => None
              end
        | EmptyString => None
        end
      else
        match unquoteBody s1 with
        | Some (t, rest) => Some (String c t, rest)
        | None => None
        end
  end.

(** A ledger file whose stored hashes were overwritten, entry by entry. *)
Definition tamper (h : Json.Object -> string) (j : Ledger.BlocklistJson)
  : Ledger.BlocklistJson :=
  {| Ledger.jsonVersion := Ledger.jsonVersion j;
     Ledger.jsonLastUpdated := Ledger.jsonLastUpdated j;
     Ledger.jsonEntries :=
       map (fun e => Json.set e "hash" (Json.Str (h e))) (Ledger.jsonEntries j) |}.

End LedgerSpec.

(** ** Notions for statements about patterns *)

Module GlobSpec.

(** A code unit that stands for itself in a pattern and in a regular
    expression alike. *)
Definition plainChar (c : ascii) : bool :=
  negb (existsb (Ascii.eqb c)
          ["."; "*"; "?"; "+"; "("; ")"; "["; "]"; "{"; "}"; "|"; "\"; "^"; "$"]%char).

(** A pattern without wildcard: plain code units and dots. *)
Definition literalPattern (pattern : string) : bool :=
  forallb (fun c => plainChar c || Ascii.eqb c ".") (list_ascii_of_string pattern).

(** Can the term take a path separator? *)
Definition takesSlash (t : RegExp.Term) : bool :=
  match t with
  | RegExp.One k => RegExp.classTest k "/"
  | RegExp.Star k => false
  end.

(** The number of separators in a path. *)
Definition slashes (s : string) : nat :=
  length (filter (Ascii.eqb "/") (list_ascii_of_string s)).

(** A star, if the term is one, runs over code units other than the
    separator. *)
Definition starIsSegment (t : RegExp.Term) : Prop :=
  match t with
  | RegExp.One _ => True
  | RegExp.Star k => k = RegExp.NotSlash
  end.

End GlobSpec.

(** The world after a successful append. *)
Definition appended (env : Env) (w : World) (b : Ledger.Blocklist) (entry : Json.Object)
  : World :=
  {| console := console w; clock := S (clock w); configFile := configFile w;
     blocklistFile :=
       Some (Ledger.toJson
               {| Ledger.version := Ledger.version b;
                  Ledger.lastUpdated := isoTime env (clock w);
                  Ledger.entries :=
                    (Ledger.entries b
                     ++ [Json.set entry "hash"
                           (Json.Str (Storage.calculateHash env entry))])%list |});
     repoFiles := repoFiles w; searchEngine := searchEngine w |}.

(** The world after one more line on the console. *)
Definition logged (w : World) (line : string) : World :=
  {| console := (console w ++ [line])%list; clock := clock w;
     configFile := configFile w; blocklistFile := blocklistFile w;
     repoFiles := repoFiles w; searchEngine := searchEngine w |}.

(** A document whose owner and repository name hold no slash. *)
Definition slashFree (d : IndexedDocument) : Prop :=
  JS.includes (repoOwner d) "/" = false /\ JS.includes (repoName d) "/" = false.

(** The order in which [sort()] puts strings. *)
Definition strLe (x y : string) : Prop := String_as_OT.compare x y <> Gt.

(** Is a value written by [JSON.stringify]? *)
Definition isDefined (v : Json.Value) : bool :=
  match v with Json.Undefined => false | _ => true end.

(** ** Sample data *)

(** Sample documents for the examples below. *)
Definition sampleDoc (name text : string) : IndexedDocument :=
  {| id := "o/r/main/" ++ name; repoOwner := "o"; repoName := "r";
     branch := "main"; filePath := name; content := text;
     metadata := {| fileType := "md"; lastModified := "2025-11-08T00:00:00.000Z";
                    size := JS.len text; hash := "" |};
     indexed := "2025-11-08T00:00:00.000Z" |}.

Definition sampleIndex (docs : list IndexedDocument) : SearchEngine.Documents :=
  SearchEngine.addDocuments [] docs.

(** A sample document of another repository. *)
Definition sampleDocIn (owner repo name text : string) : IndexedDocument :=
  {| id := owner ++ "/" ++ repo ++ "/main/" ++ name;
     repoOwner := owner; repoName := repo;
     branch := "main"; filePath := name; content := text;
     metadata := {| fileType := "md"; lastModified := "2025-11-08T00:00:00.000Z";
                    size := JS.len text; hash := "" |};
     indexed := "2025-11-08T00:00:00.000Z" |}.

(** An index over two repositories. *)
Definition twoRepos : SearchEngine.Documents :=
  sampleIndex [ sampleDoc "a.md" "x"; sampleDocIn "p" "q" "c.md" "z";
                sampleDoc "b.md" "y" ].

(** A text of [n] copies of [piece]. *)
Fixpoint copies (n : nat) (piece : string) : string :=
  match n with
  | O => EmptyString
  | S n' => piece ++ copies n' piece
  end.

(** A file of a repository tree. *)
Definition sampleBlob (p : string) : TreeItem :=
  {| path := Some p; type := Some "blob"; sha := Some "0a1b2c"; itemSize := Some 12%Z |}.

(** A document of 250 letters "a", and the result that a search for this
    letter gives. *)
Definition longDoc : IndexedDocument := sampleDoc "long.md" (copies 250 "a").

Definition longDocResult : SearchResult :=
  {| document := longDoc; score := 1%Q;
     snippet := Spec.ellipsis (copies 200 "a") |}.

(** A stand-in world: the digest is replaced by the length of the text,
    every string counts as a date, all writes succeed. *)
Definition sampleEnv : Env :=
  {| sha256hex := fun text => Sys.showNat (String.length text);
     regExp := fun _ => None;
     isDatetime := fun _ => true;
     isoTime := fun n => "2025-11-08T00:00:00." ++ Sys.showNat n ++ "Z";
     extname := fun _ => ".md";
     dirname := fun p => p;
     pathJoin := String.concat "/";
     baseDir := "/home/u/.claude-kb";
     mkdirOk := fun _ => true;
     writeFileOk := fun _ => true;
     ledgerAfterFailedWrite := fun _ => None;
     getTree := fun _ _ _ => Throw "Not Found";
     getBlob := fun _ _ _ => Throw "Not Found";
     listForUser := Throw "Bad credentials";
     getClaudeContent := fun _ _ => Throw "Not Found" |}.

(** The same world with the digest replaced by the text itself, which
    shows what is digested. *)
Definition plainEnv : Env :=
  {| sha256hex := fun text => text;
     regExp := regExp sampleEnv;
     isDatetime := isDatetime sampleEnv;
     isoTime := isoTime sampleEnv;
     extname := extname sampleEnv;
     dirname := dirname sampleEnv;
     pathJoin := pathJoin sampleEnv;
     baseDir := baseDir sampleEnv;
     mkdirOk := mkdirOk sampleEnv;
     writeFileOk := writeFileOk sampleEnv;
     ledgerAfterFailedWrite := ledgerAfterFailedWrite sampleEnv;
     getTree := getTree sampleEnv;
     getBlob := getBlob sampleEnv;
     listForUser := listForUser sampleEnv;
     getClaudeContent := getClaudeContent sampleEnv |}.

(** The entry that [index.ts] builds for the tool [add_blocklist_entry]
    with a server name and no pattern. *)
Definition sampleEntry : Json.Object :=
  [ ("timestamp", Json.Str "2025-11-08T10:00:00.000Z");
    ("type", Json.Str "server");
    ("serverName", Json.Str "@malicious/mcp-server");
    ("pattern", Json.Undefined);
    ("reason", Json.Str "Security vulnerability");
    ("allowOverride", Json.Bool false);
    ("source", Json.Str "user") ].

Definition emptyLedger : Ledger.BlocklistJson :=
  {| Ledger.jsonVersion := Json.Str "1.0.0";
     Ledger.jsonLastUpdated := Json.Str "2025-11-08T00:00:00.000Z";
     Ledger.jsonEntries := [] |}.

(** The world [w] with another ledger file. *)
Definition withLedger (w : World) (ledger : option Ledger.BlocklistJson) : World :=
  {| console := console w; clock := clock w; configFile := configFile w;
     blocklistFile := ledger; repoFiles := repoFiles w;
     searchEngine := searchEngine w |}.

Definition worldWith (ledger : option Ledger.BlocklistJson)
  (config : option Config.KnowledgeBaseConfig) : World :=
  {| console := []; clock := 0; configFile := config;
     blocklistFile := ledger; repoFiles := []; searchEngine := [] |}.

(** A ledger with one entry whose hash was edited in the file. *)
Definition tamperedLedger : Ledger.BlocklistJson :=
  {| Ledger.jsonVersion := Json.Str "1.0.0";
     Ledger.jsonLastUpdated := Json.Str "2025-11-08T00:00:00.000Z";
     Ledger.jsonEntries :=
       [ Json.persisted (Json.set sampleEntry "hash" (Json.Str "sha256:edited")) ] |}.

(** The ledger of one entry and the empty ledger, once loaded. *)
Definition tamperedLoaded : Ledger.Blocklist :=
  {| Ledger.version := "1.0.0";
     Ledger.lastUpdated := "2025-11-08T00:00:00.000Z";
     Ledger.entries :=
       [ [ ("timestamp", Json.Str "2025-11-08T10:00:00.000Z");
           ("type", Json.Str "server");
           ("serverName", Json.Str "@malicious/mcp-server");
           ("reason", Json.Str "Security vulnerability");
           ("hash", Json.Str "sha256:edited");
           ("allowOverride", Json.Bool false);
           ("source", Json.Str "user") ] ] |}.

Definition emptyLoaded : Ledger.Blocklist :=
  {| Ledger.version := "1.0.0";
     Ledger.lastUpdated := "2025-11-08T00:00:00.000Z";
     Ledger.entries := [] |}.

(** Entries as the schema returns them. *)
Definition patternEntry (timestamp pattern reason storedHash : string)
  : Json.Object :=
  [ ("timestamp", Json.Str timestamp); ("type", Json.Str "file_pattern");
    ("pattern", Json.Str pattern); ("reason", Json.Str reason);
    ("hash", Json.Str storedHash); ("allowOverride", Json.Bool false);
    ("source", Json.Str "system") ].

Definition serverEntry (timestamp name reason storedHash : string)
  : Json.Object :=
  [ ("timestamp", Json.Str timestamp); ("type", Json.Str "server");
    ("serverName", Json.Str name); ("reason", Json.Str reason);
    ("hash", Json.Str storedHash); ("allowOverride", Json.Bool false);
    ("source", Json.Str "user") ].

(** A ledger of four entries, the oldest first: a pattern, a server,
    and another server blocked twice, for two reasons. *)
Definition mixedEntries : list Json.Object :=
  [ patternEntry "2025-11-01T09:00:00.000Z" "*.md" "Generated files" "sha256:01";
    serverEntry "2025-11-02T09:00:00.000Z" "other-server" "Deprecated" "sha256:02";
    serverEntry "2025-11-03T09:00:00.000Z" "@malicious/mcp-server"
      "Security vulnerability" "sha256:03";
    serverEntry "2025-11-04T09:00:00.000Z" "@malicious/mcp-server"
      "Reported again" "sha256:04" ].

Definition mixedLedger : Ledger.BlocklistJson :=
  {| Ledger.jsonVersion := Json.Str "1.0.0";
     Ledger.jsonLastUpdated := Json.Str "2025-11-08T00:00:00.000Z";
     Ledger.jsonEntries := mixedEntries |}.

Definition mixedLoaded : Ledger.Blocklist :=
  {| Ledger.version := "1.0.0";
     Ledger.lastUpdated := "2025-11-08T00:00:00.000Z";
     Ledger.entries := mixedEntries |}.

(** Arguments of the tool [add_blocklist_entry] that block a server. *)
Definition blockServer (name reason : string) : Json.Object :=
  [ ("type", Json.Str "server"); ("serverName", Json.Str name);
    ("reason", Json.Str reason) ].

(** A hosting service that lists one repository only, [servers], and
    fails to deliver one of its blobs. *)
Definition flakyEnv : Env :=
  {| sha256hex := sha256hex sampleEnv;
     regExp := regExp sampleEnv;
     isDatetime := isDatetime sampleEnv;
     isoTime := isoTime sampleEnv;
     extname := extname sampleEnv;
     dirname := dirname sampleEnv;
     pathJoin := pathJoin sampleEnv;
     baseDir := baseDir sampleEnv;
     mkdirOk := fun _ => true;
     writeFileOk := fun _ => true;
     ledgerAfterFailedWrite := fun _ => None;
     getTree := fun _ repo _ =>
       if String.eqb repo "servers"
       then Ok [ {| path := Some "docs/a.md"; type := Some "blob";
                    sha := Some "bad"; itemSize := Some 10%Z |};
                 {| path := Some "docs/b.md"; type := Some "blob";
                    sha := Some "b0b"; itemSize := Some 20%Z |};
                 {| path := Some "docs"; type := Some "tree";
                    sha := Some "d0c"; itemSize := None |} ]
       else Throw "Not Found";
     getBlob := fun _ _ fileSha =>
       if String.eqb fileSha "bad" then Throw "socket hang up"
       else Ok ("text of " ++ fileSha);
     listForUser := Throw "Bad credentials";
     getClaudeContent := fun _ _ => Throw "Not Found" |}.

Definition officialOnly : Config.KnowledgeBaseConfig :=
  {| Config.repositories := [];
     Config.sync :=
       {| Config.enabled := true; Config.intervalMinutes := 30%Z;
          Config.autoDiscoverUserRepos := true;
          Config.includeOfficialMCPRepos := true;
          Config.includeCommunityRepos := false |} |}.

(** A world whose index holds documents of two repositories. *)
Definition indexedWorld : World :=
  {| console := []; clock := 0; configFile := Some officialOnly;
     blocklistFile := None; repoFiles := []; searchEngine := twoRepos |}.

(** * Properties *)

(** ** Strings *)

Section StringFacts.

(** On U+0000..U+00FF lower-casing goes code unit by code unit, so it
    commutes with cutting a piece out of a string. *)
Lemma toLowerCase_substring (a n : nat) (s : string) :
  JS.toLowerCase (String.substring a n s) =
  String.substring a n (JS.toLowerCase s).
Proof.
  revert a n. induction s as [|c s IH]; intros [|a] [|n]; simpl; try reflexivity.
  - f_equal. apply IH.
  - apply IH.
  - apply IH.
Qed.

Lemma append_length (a b : string) :
  String.length (a ++ b) = String.length a + String.length b.
Proof. induction a as [|c a IH]; simpl; congruence. Qed.

Lemma append_assoc (a b c : string) : (a ++ b) ++ c = a ++ (b ++ c).
Proof. induction a as [|x a IH]; simpl; congruence. Qed.

Lemma append_empty_r (a : string) : a ++ "" = a.
Proof. induction a as [|x a IH]; simpl; congruence. Qed.

(** [prefix] decides "begins with". *)
Lemma prefix_iff (q s : string) :
  String.prefix q s = true <-> exists t, s = q ++ t.
Proof.
  revert s; induction q as [|a q IH]; intros s.
  - destruct s; simpl; split; eauto.
  - destruct s as [|b s]; simpl.
    + split; [discriminate | intros [t H]; discriminate].
    + destruct (ascii_dec a b) as [->|Hab].
      * split.
        -- intros H. apply IH in H as [t ->]. now exists t.
        -- intros [t H]. apply IH. exists t. simpl in H. congruence.
      * split; [discriminate | intros [t H]; simpl in H; congruence].
Qed.

Lemma length_zero_empty (s : string) : String.length s = 0%nat -> s = "".
Proof. destruct s; [reflexivity | discriminate]. Qed.

Lemma prefix_empty (s : string) : String.prefix "" s = true.
Proof. destruct s; reflexivity. Qed.

Lemma index0_empty (s : string) : String.index 0 "" s = Some 0%nat.
Proof. destruct s; reflexivity. Qed.

(** The first occurrence found by [index] lies inside the string. *)
Lemma index0_bound (q s : string) (i : nat) :
  String.index 0 q s = Some i -> (i + String.length q <= String.length s)%nat.
Proof.
  revert i; induction s as [|b s IH]; intros i.
  - simpl. destruct q; [intros [= <-]; simpl; lia | discriminate].
  - cbn [String.index].
    destruct (String.prefix q (String b s)) eqn:Hp.
    + intros [= <-]. apply prefix_iff in Hp as [t Ht].
      rewrite Ht, append_length. lia.
    + destruct (String.index 0 q s) as [j|]; [|discriminate].
      intros [= <-]. specialize (IH j eq_refl). simpl. lia.
Qed.

(** [index] finds an occurrence exactly when there is one. *)
Lemma index0_some_iff (q s : string) :
  (exists i, String.index 0 q s = Some i) <-> exists a b, s = a ++ q ++ b.
Proof.
  split.
  - intros [i Hi]. revert i Hi. induction s as [|c s IH]; intros i.
    + simpl. destruct q; [|discriminate]. intros _. exists "", "". reflexivity.
    + cbn [String.index].
      destruct (String.prefix q (String c s)) eqn:Hp.
      * intros _. apply prefix_iff in Hp as [t Ht]. exists "", t. exact Ht.
      * destruct (String.index 0 q s) as [j|] eqn:Hj; [|discriminate].
        intros _. destruct (IH j eq_refl) as (a & b & ->).
        exists (String c a), b. reflexivity.
  - intros (a & b & ->). induction a as [|c a IH].
    + simpl. exists 0%nat.
      assert (Hp : String.prefix q (q ++ b) = true)
        by (apply prefix_iff; eauto).
      destruct (q ++ b) eqn:E.
      * destruct q; [reflexivity | discriminate].
      * cbn [String.index]. rewrite Hp. reflexivity.
    + destruct IH as [i Hi]. cbn [append String.index].
      destruct (String.prefix q (String c (a ++ q ++ b))); eauto.
      rewrite Hi. eauto.
Qed.

Lemma includes_iff (s q : string) :
  JS.includes s q = true <-> exists a b, s = a ++ q ++ b.
Proof.
  rewrite <- index0_some_iff. unfold JS.includes.
  destruct (String.index 0 q s); split; eauto; try discriminate.
  intros [i H]; discriminate.
Qed.

End StringFacts.

(** ** Numbers: the integer that [slice] makes of a number *)

Section NumberFacts.

(** Cutting the fraction off rounds down a number that is not negative
    and rounds up a negative one. *)
Lemma toIntegerOrInfinity_nonneg (x : Q) :
  (0 <= x)%Q -> JS.toIntegerOrInfinity x = Qfloor x.
Proof.
  destruct x as [n d]. unfold Qle, JS.toIntegerOrInfinity, Qfloor. simpl.
  intros H. apply Z.quot_div_nonneg; lia.
Qed.

Lemma toIntegerOrInfinity_neg (x : Q) :
  (x < 0)%Q -> JS.toIntegerOrInfinity x = Qceiling x.
Proof.
  destruct x as [n d].
  unfold Qlt, JS.toIntegerOrInfinity, Qceiling, Qfloor, Qopp. simpl.
  intros H. rewrite <- (Z.opp_involutive n) at 1.
  rewrite Z.quot_opp_l by lia. f_equal. apply Z.quot_div_nonneg; lia.
Qed.

Lemma toIntegerOrInfinity_above (n : Z) (x : Q) :
  (0 <= n)%Z -> (inject_Z n <= x)%Q -> (n <= JS.toIntegerOrInfinity x)%Z.
Proof.
  intros Hn Hx. rewrite toIntegerOrInfinity_nonneg.
  - rewrite <- (Qfloor_Z n). now apply Qfloor_resp_le.
  - apply Qle_trans with (inject_Z n); [|exact Hx].
    change 0%Q with (inject_Z 0). rewrite <- Zle_Qle. exact Hn.
Qed.

(** A number strictly between -1 and 1 becomes 0. *)
Lemma toIntegerOrInfinity_small (x : Q) :
  (-1 < x)%Q -> (x < 1)%Q -> JS.toIntegerOrInfinity x = 0%Z.
Proof.
  destruct x as [n d]. unfold Qlt, JS.toIntegerOrInfinity. simpl.
  intros H1 H2. destruct (Z_lt_le_dec n 0) as [Hn|Hn].
  - rewrite <- (Z.opp_involutive n), Z.quot_opp_l by lia.
    rewrite Z.quot_small by lia. reflexivity.
  - apply Z.quot_small. lia.
Qed.

End NumberFacts.

(** ** Arrays: [slice] and [sort] *)

Section ArrayFacts.

Context {A : Type}.

(** A slice from index 0 is a prefix. *)
Lemma arraySlice_firstn (a : list A) (n : Z) :
  JS.arraySlice a 0 n =
  firstn (Z.to_nat (JS.clampIndex (Z.of_nat (length a)) n)) a.
Proof.
  unfold JS.arraySlice.
  assert (H0 : JS.clampIndex (Z.of_nat (length a)) 0 = 0%Z).
  { unfold JS.clampIndex. simpl. lia. }
  rewrite H0. simpl skipn. f_equal.
  unfold JS.clampIndex. destruct (n <? 0)%Z; lia.
Qed.

Lemma arraySlice_prefix (a : list A) (n : Z) :
  exists rest, a = (JS.arraySlice a 0 n ++ rest)%list.
Proof.
  rewrite arraySlice_firstn. eexists. symmetry. apply firstn_skipn.
Qed.

Lemma arraySlice_In (a : list A) (n : Z) (x : A) :
  In x (JS.arraySlice a 0 n) -> In x a.
Proof.
  destruct (arraySlice_prefix a n) as [rest H]. intros Hx.
  rewrite H. apply in_or_app. now left.
Qed.

Lemma arraySlice_length (a : list A) (n : Z) :
  (0 <= n)%Z ->
  length (JS.arraySlice a 0 n) = Nat.min (Z.to_nat n) (length a).
Proof.
  intros Hn. rewrite arraySlice_firstn, length_firstn.
  unfold JS.clampIndex. destruct (n <? 0)%Z eqn:E; lia.
Qed.

Lemma arraySlice_all (a : list A) (n : Z) :
  (Z.of_nat (length a) <= n)%Z -> JS.arraySlice a 0 n = a.
Proof.
  intros Hn. rewrite arraySlice_firstn. apply firstn_all2.
  unfold JS.clampIndex. destruct (n <? 0)%Z eqn:E; lia.
Qed.

(** With an end that is not negative the slice is that many elements
    from the front; with a negative end as many elements are left out
    at the back. *)
Lemma arraySlice_front (a : list A) (n : Z) :
  (0 <= n)%Z -> JS.arraySlice a 0 n = firstn (Z.to_nat n) a.
Proof.
  intros Hn. rewrite arraySlice_firstn. unfold JS.clampIndex.
  destruct (Z.ltb_spec n 0); [lia|].
  destruct (Z_le_gt_dec n (Z.of_nat (length a))).
  - f_equal. lia.
  - rewrite !firstn_all2 by lia. reflexivity.
Qed.

Lemma arraySlice_back (a : list A) (n : Z) :
  (n < 0)%Z ->
  JS.arraySlice a 0 n = firstn (length a - Z.to_nat (- n)) a.
Proof.
  intros Hn. rewrite arraySlice_firstn. unfold JS.clampIndex.
  destruct (Z.ltb_spec n 0); [|lia]. f_equal. lia.
Qed.

Variable cmp : A -> A -> Q.

Lemma sortInsert_perm_gen (x : A) (l : list A) :
  Permutation (JS.sortInsert cmp x l) (x :: l).
Proof.
  induction l as [|y l IH]; simpl; [reflexivity|].
  destruct (Qlt_le_dec 0%Q (cmp x y)); [|reflexivity].
  rewrite IH. apply perm_swap.
Qed.

Lemma sort_perm_gen (l : list A) : Permutation (JS.sort cmp l) l.
Proof.
  induction l as [|x l IH]; simpl; [reflexivity|].
  rewrite sortInsert_perm_gen. now constructor.
Qed.

(** Sortedness, for a comparator that is consistent with an order. *)
Variable le : A -> A -> Prop.
Hypothesis le_trans : forall x y z, le x y -> le y z -> le x z.
Hypothesis cmp_after : forall x y, (0 < cmp x y)%Q -> le y x.
Hypothesis cmp_before : forall x y, (cmp x y <= 0)%Q -> le x y.

Lemma sortInsert_sorted_gen (x : A) (l : list A) :
  StronglySorted le l -> StronglySorted le (JS.sortInsert cmp x l).
Proof.
  induction 1 as [|y l Hs IH Hy]; simpl.
  - repeat constructor.
  - destruct (Qlt_le_dec 0%Q (cmp x y)) as [Hlt|Hle].
    + constructor; [exact IH|].
      rewrite Forall_forall in *. intros z Hz.
      apply (Permutation_in _ (sortInsert_perm_gen x l)) in Hz.
      destruct Hz as [<-|Hz]; [now apply cmp_after | now apply Hy].
    + constructor; [now constructor|].
      constructor; [now apply cmp_before|].
      rewrite Forall_forall in *. intros z Hz.
      eapply le_trans; [apply cmp_before, Hle | apply Hy, Hz].
Qed.

Lemma sort_sorted_gen (l : list A) : StronglySorted le (JS.sort cmp l).
Proof.
  induction l as [|x l IH]; simpl; [constructor|].
  now apply sortInsert_sorted_gen.
Qed.

(** A sorted list is determined by its elements when the order is
    antisymmetric. *)
Lemma sorted_perm_unique (l1 l2 : list A) :
  (forall x y, le x y -> le y x -> x = y) ->
  StronglySorted le l1 -> StronglySorted le l2 -> Permutation l1 l2 ->
  l1 = l2.
Proof.
  intros Hanti H1. revert l2.
  induction H1 as [|x l1 Hs1 IH Hx]; intros l2 H2 Hp.
  - apply Permutation_nil in Hp. now subst.
  - destruct H2 as [|y l2 Hs2 Hy].
    + apply Permutation_sym, Permutation_nil in Hp. discriminate.
    + assert (Exy : x = y).
      { rewrite Forall_forall in Hx, Hy.
        assert (Hxin : In x (y :: l2))
          by (apply (Permutation_in _ Hp); now left).
        assert (Hyin : In y (x :: l1))
          by (apply (Permutation_in _ (Permutation_sym Hp)); now left).
        destruct Hxin as [->|Hxin]; [reflexivity|].
        destruct Hyin as [->|Hyin]; [reflexivity|].
        apply Hanti; [now apply Hx | now apply Hy]. }
      subst y. f_equal. apply IH; [exact Hs2|].
      now apply Permutation_cons_inv in Hp.
Qed.

End ArrayFacts.

Section SortByKey.

Context {A : Type}.
Variable key : A -> Q.

(** The comparator [(a, b) => key b - key a]. *)
Let cmp (a b : A) : Q := (key b - key a)%Q.

Let desc (a b : A) : Prop := (key b <= key a)%Q.

Lemma sort_perm (l : list A) : Permutation (JS.sort cmp l) l.
Proof. apply sort_perm_gen. Qed.

Lemma sort_sorted (l : list A) : StronglySorted desc (JS.sort cmp l).
Proof.
  apply sort_sorted_gen; unfold desc, cmp; intros; lra.
Qed.

(** Stability: the elements of one key keep their order. *)
Lemma sortInsert_filter (k : Q) (x : A) (l : list A) :
  filter (fun a => Qeq_bool (key a) k) (JS.sortInsert cmp x l) =
  filter (fun a => Qeq_bool (key a) k) (x :: l).
Proof.
  induction l as [|y l IH]; [reflexivity|].
  cbn [JS.sortInsert]. destruct (Qlt_le_dec 0%Q (cmp x y)) as [Hlt|Hle]; [|reflexivity].
  cbn [filter] in *. rewrite IH.
  destruct (Qeq_bool (key x) k) eqn:Ex; [|reflexivity].
  destruct (Qeq_bool (key y) k) eqn:Ey; [|reflexivity].
  exfalso. apply Qeq_bool_iff in Ex, Ey. unfold cmp in Hlt. lra.
Qed.

Lemma sort_filter (k : Q) (l : list A) :
  filter (fun a => Qeq_bool (key a) k) (JS.sort cmp l) =
  filter (fun a => Qeq_bool (key a) k) l.
Proof.
  induction l as [|x l IH]; [reflexivity|].
  cbn [JS.sort]. rewrite sortInsert_filter. cbn [filter]. now rewrite IH.
Qed.

(** Two sorted lists in which the elements of each key are the same, in
    the same order, are one list. *)
Lemma sorted_classes_unique (l1 l2 : list A) :
  StronglySorted desc l1 -> StronglySorted desc l2 ->
  (forall k, filter (fun a => Qeq_bool (key a) k) l1 =
             filter (fun a => Qeq_bool (key a) k) l2) ->
  l1 = l2.
Proof.
  intros H1. revert l2. induction H1 as [|x l1 Hs1 IH Hx]; intros l2 H2 Hc.
  - destruct l2 as [|y l2]; [reflexivity|].
    specialize (Hc (key y)). cbn [filter] in Hc.
    rewrite (proj2 (Qeq_bool_iff _ _) (Qeq_refl (key y))) in Hc. discriminate.
  - destruct H2 as [|y l2 Hs2 Hy].
    + specialize (Hc (key x)). cbn [filter] in Hc.
      rewrite (proj2 (Qeq_bool_iff _ _) (Qeq_refl (key x))) in Hc. discriminate.
    + rewrite Forall_forall in Hx, Hy.
      assert (Hxy : (key x == key y)%Q).
      { assert (Hxin : In x (y :: l2)).
        { assert (In x (filter (fun a => Qeq_bool (key a) (key x)) (y :: l2))).
          { rewrite <- Hc. cbn [filter].
            rewrite (proj2 (Qeq_bool_iff _ _) (Qeq_refl (key x))). now left. }
          eapply proj1, filter_In; eassumption. }
        assert (Hyin : In y (x :: l1)).
        { assert (In y (filter (fun a => Qeq_bool (key a) (key y)) (x :: l1))).
          { rewrite Hc. cbn [filter].
            rewrite (proj2 (Qeq_bool_iff _ _) (Qeq_refl (key y))). now left. }
          eapply proj1, filter_In; eassumption. }
        destruct Hxin as [->|Hxin]; [reflexivity|].
        destruct Hyin as [->|Hyin]; [reflexivity|].
        apply Qle_antisym; [apply (Hy x Hxin) | apply (Hx y Hyin)]. }
      assert (Hsame : forall k, Qeq_bool (key x) k = Qeq_bool (key y) k).
      { intros k. destruct (Qeq_bool (key x) k) eqn:Ex, (Qeq_bool (key y) k) eqn:Ey;
          try reflexivity; exfalso.
        - apply Qeq_bool_iff in Ex. apply Qeq_bool_neq in Ey. apply Ey.
          now rewrite <- Hxy.
        - apply Qeq_bool_iff in Ey. apply Qeq_bool_neq in Ex. apply Ex.
          now rewrite Hxy. }
      assert (Hhead : x = y).
      { specialize (Hc (key x)). cbn [filter] in Hc. rewrite <- Hsame in Hc.
        rewrite (proj2 (Qeq_bool_iff _ _) (Qeq_refl (key x))) in Hc. congruence. }
      subst y. f_equal. apply IH; [exact Hs2|].
      intros k. specialize (Hc k). cbn [filter] in Hc.
      destruct (Qeq_bool (key x) k); congruence.
Qed.

(** Hence [sort] is the only stable sort: a sorted arrangement that
    keeps the elements of each key in their order is its result. *)
Lemma stable_sort_unique (l l' : list A) :
  StronglySorted desc l' ->
  (forall k, filter (fun a => Qeq_bool (key a) k) l' =
             filter (fun a => Qeq_bool (key a) k) l) ->
  l' = JS.sort cmp l.
Proof.
  intros Hs Hc. apply sorted_classes_unique; [exact Hs | apply sort_sorted|].
  intros k. now rewrite sort_filter.
Qed.

Lemma StronglySorted_firstn (R : A -> A -> Prop) (n : nat) (l : list A) :
  StronglySorted R l -> StronglySorted R (firstn n l).
Proof.
  intros H. revert n. induction H as [|x l Hs IH Hx]; intros [|n]; simpl;
    try constructor.
  - apply IH.
  - rewrite Forall_forall in *. intros y Hy. apply Hx.
    rewrite <- (firstn_skipn n l). apply in_or_app. now left.
Qed.

End SortByKey.

(** ** [split] and the count of occurrences *)

Section SplitFacts.

Variable q : string.
Hypothesis q_nonempty : q <> "".

Lemma q_length_pos : (1 <= String.length q)%nat.
Proof.
  destruct (String.length q) eqn:E; [|lia].
  now apply length_zero_empty in E.
Qed.

Lemma dropString_length (n : nat) (s : string) :
  String.length (Spec.dropString n s) = (String.length s - n)%nat.
Proof.
  revert s; induction n as [|n IH]; intros [|c s]; simpl; auto.
Qed.

(** Passing over the rest of a separator. *)
Lemma splitScan_skip (k : nat) (cur s : string) :
  (k <= String.length s)%nat ->
  JS.splitScan q k cur s = JS.splitScan q 0 cur (Spec.dropString k s).
Proof.
  revert s; induction k as [|k IH]; intros s Hk; [reflexivity|].
  destruct s as [|c s]; simpl in *; [lia|]. apply IH. lia.
Qed.

(** No occurrence, one piece. *)
Lemma splitScan_none (cur s : string) :
  String.index 0 q s = None -> JS.splitScan q 0 cur s = [cur ++ s].
Proof.
  revert cur; induction s as [|c s IH]; intros cur.
  - intros _. simpl. now rewrite append_empty_r.
  - cbn [String.index JS.splitScan].
    destruct (String.prefix q (String c s)); [discriminate|].
    destruct (String.index 0 q s); [discriminate|]. intros _.
    rewrite IH by reflexivity. now rewrite append_assoc.
Qed.

(** An occurrence at [j], the first one: the piece before it is cut
    off and the scan resumes behind the occurrence. *)
Lemma splitScan_some (cur s : string) (j : nat) :
  String.index 0 q s = Some j ->
  JS.splitScan q 0 cur s =
  (cur ++ String.substring 0 j s)
    :: JS.splitScan q 0 "" (Spec.dropString (j + String.length q) s).
Proof.
  revert cur j; induction s as [|c s IH]; intros cur j.
  - simpl. pose proof q_length_pos.
    destruct q; [simpl in *; lia | discriminate].
  - cbn [String.index JS.splitScan].
    destruct (String.prefix q (String c s)) eqn:Hp.
    + intros [= <-]. simpl String.substring. rewrite append_empty_r. f_equal.
      apply prefix_iff in Hp as [t Ht].
      apply (f_equal String.length) in Ht. rewrite append_length in Ht.
      simpl in Ht. pose proof q_length_pos.
      rewrite splitScan_skip by lia.
      destruct (String.length q); [lia|]. simpl. now rewrite Nat.sub_0_r.
    + destruct (String.index 0 q s) as [j'|]; [|discriminate].
      intros [= <-]. rewrite (IH _ j') by reflexivity.
      simpl. now rewrite append_assoc.
Qed.

Lemma splitScan_count (fuel : nat) (cur s : string) :
  (String.length s <= fuel)%nat ->
  length (JS.splitScan q 0 cur s) = S (Spec.countFrom fuel q s).
Proof.
  revert cur s; induction fuel as [|fuel IH]; intros cur s Hs.
  - destruct s; simpl in *; [reflexivity | lia].
  - cbn [Spec.countFrom]. destruct (String.index 0 q s) as [j|] eqn:Hj.
    + rewrite (splitScan_some _ _ _ Hj). simpl. f_equal. apply IH.
      rewrite dropString_length. pose proof q_length_pos.
      apply index0_bound in Hj. lia.
    + now rewrite (splitScan_none _ _ Hj).
Qed.








(** [split] cuts at the occurrences counted by the specification. *)
Lemma split_length (s : string) :
  length (JS.split s q) = S (Spec.occurrenceCount q s).
Proof.
  unfold Spec.occurrenceCount. rewrite <- (splitScan_count _ "" s (le_n _)).
  unfold JS.split. pose proof q_length_pos.
  destruct q; [simpl in *; lia | reflexivity].
Qed.

End SplitFacts.

Lemma split_empty_length (s : string) :
  length (JS.split s "") = String.length s.
Proof.
  unfold JS.split. rewrite length_map.
  induction s; simpl; congruence.
Qed.

(** ** [SearchEngine.search] *)

Section SearchFacts.

Import SearchEngine.

(** The iteration order of the index is the order of first insertion:
    [set] leaves the keys in place and puts a new key last. *)
Lemma mapSet_keys (k : string) (v : IndexedDocument) (m : Documents) :
  map fst (mapSet k v m) =
  if existsb (String.eqb k) (map fst m) then map fst m
  else (map fst m ++ [k])%list.
Proof.
  induction m as [|[k' v'] m IH]; [reflexivity|].
  cbn [mapSet map fst existsb]. rewrite (String.eqb_sym k k').
  destruct (String.eqb_spec k' k) as [->|Hne]; [reflexivity|].
  cbn [map fst orb]. rewrite IH.
  destruct (existsb (String.eqb k) (map fst m)); reflexivity.
Qed.

Lemma collect_In (ql : string) (docs : list IndexedDocument) (r : SearchResult) :
  In r (collect ql docs) <->
  exists d, In d docs /\ searchDocument ql d = Some r.
Proof.
  induction docs as [|d docs IH]; simpl.
  - split; [contradiction | intros (d & [] & _)].
  - destruct (searchDocument ql d) as [r'|] eqn:E; simpl; rewrite IH; split.
    + intros [<-|(d' & Hd & Hr)]; eauto.
    + intros (d' & [<-|Hd] & Hr); [left; congruence | eauto].
    + intros (d' & Hd & Hr); eauto.
    + intros (d' & [<-|Hd] & Hr); [congruence | eauto].
Qed.

(** The results of the loop are those of the documents that contain the
    query, in the order of iteration. *)
Lemma collect_documents (ql : string) (docs : list IndexedDocument) :
  map document (collect ql docs) =
  filter (fun d => JS.includes (JS.toLowerCase (content d)) ql) docs.
Proof.
  induction docs as [|d docs IH]; [reflexivity|].
  cbn [collect filter]. unfold searchDocument at 1.
  destruct (JS.includes (JS.toLowerCase (content d)) ql); simpl; congruence.
Qed.

Lemma search_In (this : Documents) (query : string) (maxResults : Q)
  (r : SearchResult) :
  In r (search this query maxResults) ->
  exists d, In d (values this) /\
            searchDocument (JS.toLowerCase query) d = Some r.
Proof.
  unfold search. intros H. apply arraySlice_In in H.
  apply (Permutation_in _ (sort_perm score _)) in H.
  now apply collect_In.
Qed.

Lemma search_all (this : Documents) (query : string) (maxResults : Q) :
  (inject_Z (Z.of_nat (length this)) <= maxResults)%Q ->
  search this query maxResults =
  JS.sort byScore (collect (JS.toLowerCase query) (values this)).
Proof.
  intros H. apply toIntegerOrInfinity_above in H; [|lia].
  unfold search. apply arraySlice_all.
  rewrite (Permutation_length (sort_perm score _)).
  assert (Hc : forall ql docs, (length (collect ql docs) <= length docs)%nat).
  { intros ql docs. induction docs as [|d docs IH]; simpl; [lia|].
    destruct (searchDocument ql d); simpl; lia. }
  specialize (Hc (JS.toLowerCase query) (values this)).
  unfold values in *. rewrite length_map in Hc. lia.
Qed.

Lemma substring_none (n : nat) (s : string) : String.substring n 0 s = "".
Proof. revert n; induction s as [|c s IH]; intros [|n]; simpl; auto. Qed.

(** [slice] between the two bounds computed by [search] is the window
    of the specification: the clamping of [slice] changes nothing. The
    index [i] may lie behind the end of [c], as an index found in a
    longer lower-cased copy can: both sides are empty then. *)
Lemma slice_window (c : string) (i before after : Z) :
  (0 <= i)%Z -> (0 <= before)%Z -> (0 <= after)%Z ->
  JS.slice c (Z.max 0 (i - before)) (Z.min (JS.len c) (i + after)) =
  Spec.window c (i - before) (i + after).
Proof.
  intros Hi Hb Ha. unfold Spec.window, JS.slice, JS.clampIndex.
  assert (Hc : (0 <= JS.len c)%Z) by (unfold JS.len; lia).
  repeat match goal with
         | |- context [(?a <? ?b)%Z] => destruct (Z.ltb_spec a b); try lia
         end.
  destruct (Z_le_gt_dec (i - before) (JS.len c)) as [Hle|Hgt].
  - f_equal; lia.
  - match goal with
    | |- String.substring _ ?n c = String.substring _ ?m c =>
        replace n with 0%nat by lia; replace m with 0%nat by lia
    end.
    now rewrite !substring_none.
Qed.

(** What [searchDocument] computes: the window [first - 100, first + 200)
    of the content. *)
Lemma searchDocument_Some (ql : string) (d : IndexedDocument) (r : SearchResult) :
  searchDocument ql d = Some r ->
  exists i : nat,
    String.index 0 ql (JS.toLowerCase (content d)) = Some i /\
    document r = d /\
    score r =
      Qmin (inject_Z
              (Z.of_nat (length (JS.split (JS.toLowerCase (content d)) ql)) - 1)
            / 10)%Q 1%Q /\
    snippet r =
      Spec.ellipsis
        (Spec.window (content d) (Z.of_nat i - 100) (Z.of_nat i + 200)).
Proof.
  unfold searchDocument, JS.includes, JS.indexOf.
  destruct (String.index 0 ql (JS.toLowerCase (content d))) as [i|] eqn:Hi;
    [|discriminate].
  intros [= <-]. exists i. repeat split. cbn [snippet].
  rewrite slice_window; [reflexivity | lia | lia | lia].
Qed.

Lemma searchDocument_None (ql : string) (d : IndexedDocument) :
  searchDocument ql d = None <->
  JS.includes (JS.toLowerCase (content d)) ql = false.
Proof.
  unfold searchDocument.
  destruct (JS.includes (JS.toLowerCase (content d)) ql); split;
    intros H; try discriminate; reflexivity.
Qed.


Lemma substring_0_min (n : nat) (s : string) :
  String.substring 0 (Nat.min (String.length s) n) s = String.substring 0 n s.
Proof.
  revert n; induction s as [|c s IH]; intros [|n]; simpl; try reflexivity.
  now rewrite IH.
Qed.

(** Under the empty query every document is found, at offset 0. *)
Lemma searchDocument_empty (d : IndexedDocument) :
  searchDocument "" d = Some (Spec.emptyQueryResult d).
Proof.
  unfold searchDocument, JS.includes, JS.indexOf.
  rewrite index0_empty. unfold Spec.emptyQueryResult, Spec.ellipsis.
  rewrite split_empty_length. fold (JS.len (JS.toLowerCase (content d))).
  change (Z.of_nat 0) with 0%Z.
  rewrite (slice_window (content d) 0 100 200) by lia.
  assert (Hw : Spec.window (content d) (0 - 100) (0 + 200) =
               String.substring 0 200 (content d)).
  { rewrite <- substring_0_min. unfold Spec.window, JS.len.
    f_equal; lia. }
  now rewrite Hw.
Qed.

Lemma collect_empty (docs : list IndexedDocument) :
  collect "" docs = map Spec.emptyQueryResult docs.
Proof.
  induction docs as [|d docs IH]; [reflexivity|].
  cbn [collect map]. now rewrite searchDocument_empty, IH.
Qed.

End SearchFacts.

Lemma relevance_range (n : nat) : (0 <= Spec.relevance n <= 1)%Q.
Proof.
  unfold Spec.relevance. split.
  - apply Q.min_glb; [|lra].
    assert (H : (0 <= inject_Z (Z.of_nat n))%Q).
    { change 0%Q with (inject_Z 0). rewrite <- Zle_Qle. lia. }
    unfold Qdiv. apply Qmult_le_0_compat; [exact H | apply Qinv_le_0_compat; lra].
  - apply Q.le_min_r.
Qed.


(** For a non-empty query the score is the relevance of the
    specification, computed from the count of occurrences. *)
Lemma searchDocument_score (ql : string) (d : IndexedDocument) (r : SearchResult) :
  ql <> "" ->
  SearchEngine.searchDocument ql d = Some r ->
  score r = Spec.relevance (Spec.occurrenceCount ql (JS.toLowerCase (content d))).
Proof.
  intros Hq Hr. apply searchDocument_Some in Hr as (i & _ & _ & Hs & _).
  rewrite Hs, (split_length ql Hq). unfold Spec.relevance.
  do 3 f_equal. lia.
Qed.

(** The score leaves [0, 1] only when query and content are both
    empty. *)
Lemma search_score_range (this : SearchEngine.Documents) (query : string)
  (maxResults : Q) (r : SearchResult) :
  In r (SearchEngine.search this query maxResults) ->
  query <> "" \/ content (document r) <> "" ->
  (0 <= score r <= 1)%Q.
Proof.
  intros Hr Hne. apply search_In in Hr as (d & _ & Hd).
  destruct query as [|c query].
  - destruct Hne as [Hne|Hne]; [contradiction|].
    simpl in Hd. rewrite searchDocument_empty in Hd.
    assert (Er : r = Spec.emptyQueryResult d) by congruence. subst r.
    simpl in *. destruct (content d) as [|a t] eqn:E; [contradiction|].
    unfold JS.len. simpl String.length.
    replace (Z.of_nat (S (String.length (JS.toLowerCase t))) - 1)%Z
      with (Z.of_nat (String.length (JS.toLowerCase t))) by lia.
    apply relevance_range.
  - assert (Hq : JS.toLowerCase (String c query) <> "") by (simpl; discriminate).
    rewrite (searchDocument_score _ d r Hq Hd). apply relevance_range.
Qed.

Lemma StronglySorted_app_inv {A : Type} (R : A -> A -> Prop) (l1 l2 : list A) :
  StronglySorted R (l1 ++ l2) -> forall a b, In a l1 -> In b l2 -> R a b.
Proof.
  induction l1 as [|x l1 IH]; simpl; intros H a b Ha Hb; [contradiction|].
  inversion H as [|? ? Hs Hx]; subst. destruct Ha as [<-|Ha].
  - rewrite Forall_forall in Hx. apply Hx, in_or_app. now right.
  - now apply IH.
Qed.

(** Four documents: "b.md" holds the query twice, "a.md" and "c.md"
    once, "d.md" not at all. With [maxResults] 2.5 the search keeps two
    results: the best one, and of the two that tie the one indexed
    first. *)
Example search_two_and_a_half :
  map (fun r => filePath (document r))
    (SearchEngine.search
       (sampleIndex [ sampleDoc "a.md" "foo"; sampleDoc "b.md" "foo Foo";
                      sampleDoc "c.md" "FOO"; sampleDoc "d.md" "bar" ])
       "Foo" (5 # 2))
  = ["b.md"; "a.md"].
Proof. vm_compute. reflexivity. Qed.

(** C7. The sequence returned by [search] is sorted by score, non
    increasing; among results of one score the order is the one of the
    index's iteration, in which the loop found them; and the sequence is
    cut out of the full sorted sequence, so that truncation comes after
    sorting: with [maxResults] not negative it is the first
    [floor maxResults] results of the sorted sequence, all of them when
    there are fewer, and no result left out scores higher than a result
    kept; a [maxResults] of -1 or less leaves results out at the end
    instead, as many as its integer part says, and one between -1 and 1
    leaves no result at all. *)
Theorem C7_search_sorted_stable_then_truncated
  (this : SearchEngine.Documents) (query : string) (maxResults : Q) :
  let found :=
    SearchEngine.collect (JS.toLowerCase query) (SearchEngine.values this) in
  let out := SearchEngine.search this query maxResults in
  let sameScore (k : Q) := fun r : SearchResult => Qeq_bool (score r) k in
  StronglySorted (fun a b => (score b <= score a)%Q) out
  /\ map document found =
     filter (fun d => JS.includes (JS.toLowerCase (content d)) (JS.toLowerCase query))
       (SearchEngine.values this)
  /\ (forall k, exists rest,
        filter (sameScore k) found = (filter (sameScore k) out ++ rest)%list)
  /\ (exists sorted,
        Permutation sorted found
        /\ StronglySorted (fun a b => (score b <= score a)%Q) sorted
        /\ (forall k, filter (sameScore k) sorted = filter (sameScore k) found)
        /\ out = JS.arraySlice sorted 0 (JS.toIntegerOrInfinity maxResults)
        /\ ((0 <= maxResults)%Q ->
            out = firstn (Z.to_nat (Qfloor maxResults)) sorted
            /\ length out = Nat.min (Z.to_nat (Qfloor maxResults)) (length found))
        /\ ((maxResults <= -1)%Q ->
            out = firstn (length found - Z.to_nat (- Qceiling maxResults)) sorted)
        /\ ((-1 < maxResults)%Q -> (maxResults < 1)%Q -> out = [])
        /\ (exists dropped,
              sorted = (out ++ dropped)%list
              /\ forall kept r,
                   In kept out -> In r dropped -> (score r <= score kept)%Q))
  /\ map (fun r => filePath (document r))
       (SearchEngine.search
          (sampleIndex [ sampleDoc "a.md" "foo"; sampleDoc "b.md" "foo Foo";
                         sampleDoc "c.md" "FOO"; sampleDoc "d.md" "bar" ])
          "Foo" (5 # 2))
     = ["b.md"; "a.md"].
Proof.
  intros found out sameScore.
  pose (sorted := JS.sort SearchEngine.byScore found).
  assert (Hout : out = JS.arraySlice sorted 0 (JS.toIntegerOrInfinity maxResults))
    by reflexivity.
  assert (Hperm : Permutation sorted found) by apply (sort_perm score).
  assert (Hsorted : StronglySorted (fun a b => (score b <= score a)%Q) sorted)
    by apply (sort_sorted score).
  assert (Hstable : forall k, filter (sameScore k) sorted = filter (sameScore k) found)
    by (intros k; apply (sort_filter score)).
  destruct (arraySlice_prefix sorted (JS.toIntegerOrInfinity maxResults))
    as [dropped Hdropped].
  rewrite <- Hout in Hdropped.
  split; [|split; [|split; [|split]]].
  - rewrite Hout, arraySlice_firstn. now apply StronglySorted_firstn.
  - apply collect_documents.
  - intros k. exists (filter (sameScore k) dropped).
    rewrite <- Hstable, Hdropped at 1. now rewrite filter_app.
  - exists sorted.
    split; [exact Hperm|]. split; [exact Hsorted|]. split; [exact Hstable|].
    split; [exact Hout|]. split; [|split; [|split]].
    + intros Hpos. rewrite Hout, toIntegerOrInfinity_nonneg by exact Hpos.
      assert (H0 : (0 <= Qfloor maxResults)%Z).
      { rewrite <- (Qfloor_Z 0). now apply Qfloor_resp_le. }
      rewrite arraySlice_front by exact H0. split; [reflexivity|].
      now rewrite length_firstn, (Permutation_length Hperm).
    + intros Hneg.
      assert (Hlt : (maxResults < 0)%Q) by lra.
      rewrite Hout, toIntegerOrInfinity_neg by exact Hlt.
      assert (H0 : (Qceiling maxResults <= -1)%Z).
      { rewrite <- (Qceiling_Z (-1)). now apply Qceiling_resp_le. }
      rewrite arraySlice_back by lia.
      now rewrite (Permutation_length Hperm).
    + intros H1 H2. rewrite Hout, toIntegerOrInfinity_small by assumption.
      now rewrite arraySlice_front.
    + exists dropped. split; [exact Hdropped|]. intros kept r Hk Hr.
      rewrite Hdropped in Hsorted.
      exact (StronglySorted_app_inv _ _ _ Hsorted kept r Hk Hr).
  - exact search_two_and_a_half.
Qed.

(** C2, as amended. For every document whose lower-cased content
    contains the lower-cased query, the snippet of its result is the
    substring of the original content spanning [first - 100, first + 200),
    clamped to the content bounds and wrapped with ellipsis markers,
    where [first] is the offset at which the lower-cased query first
    occurs in the lower-cased content: the code takes the offset in the
    lower-cased copy and cuts the original with it. The length of the
    query does not enter. Where lower-casing commutes with cutting a
    piece out of the content, as it does on U+0000..U+00FF, [first] is
    the first offset at which the content itself holds the query, case
    put aside. *)
Theorem C2_snippet_window
  (this : SearchEngine.Documents) (query : string) (maxResults : Q) :
  (forall d, In d (SearchEngine.values this) ->
     Spec.containsCI (content d) query ->
     exists r first,
       SearchEngine.searchDocument (JS.toLowerCase query) d = Some r
       /\ String.index 0 (JS.toLowerCase query) (JS.toLowerCase (content d)) = Some first
       /\ snippet r =
          Spec.ellipsis (Spec.window (content d)
                           (Z.of_nat first - 100) (Z.of_nat first + 200)))
  /\ (forall r, In r (SearchEngine.search this query maxResults) ->
        exists first,
          Spec.containsCI (content (document r)) query
          /\ String.index 0 (JS.toLowerCase query)
               (JS.toLowerCase (content (document r))) = Some first
          /\ snippet r =
             Spec.ellipsis (Spec.window (content (document r))
                              (Z.of_nat first - 100) (Z.of_nat first + 200)))
  /\ (forall c first,
        String.index 0 (JS.toLowerCase query) (JS.toLowerCase c) = Some first ->
        (forall a n, JS.toLowerCase (String.substring a n c) =
                     String.substring a n (JS.toLowerCase c)) ->
        let m := String.length (JS.toLowerCase query) in
        JS.toLowerCase (String.substring first m c) = JS.toLowerCase query
        /\ forall i, (i < first)%nat ->
             JS.toLowerCase (String.substring i m c) <> JS.toLowerCase query).
Proof.
  split; [|split].
  - intros d _ Hc. apply includes_iff in Hc.
    destruct (SearchEngine.searchDocument (JS.toLowerCase query) d) as [r|] eqn:Hr.
    + destruct (searchDocument_Some _ _ _ Hr) as (i & Hi & _ & _ & Hs). eauto.
    + apply searchDocument_None in Hr. congruence.
  - intros r Hr. apply search_In in Hr as (d & _ & Hd).
    destruct (searchDocument_Some _ _ _ Hd) as (i & Hi & -> & _ & Hs).
    exists i. repeat split; auto.
    apply index0_some_iff. eauto.
  - intros c first Hi Hcut m. split.
    + rewrite Hcut. exact (index_correct1 _ _ _ _ Hi).
    + intros i Hlt. rewrite Hcut.
      apply (index_correct2 _ _ _ _ Hi); lia.
Qed.

Lemma C2_snippet_window_witness :
  (exists first,
     Spec.containsCI (content longDoc) "A"
     /\ String.index 0 "a" (JS.toLowerCase (content longDoc)) = Some first
     /\ snippet longDocResult =
        Spec.ellipsis (Spec.window (content longDoc)
                         (Z.of_nat first - 100) (Z.of_nat first + 200)))
  /\ (JS.toLowerCase (String.substring 5 6 "Hay, NEEDLE and needle") = "needle"
      /\ forall i, (i < 5)%nat ->
           JS.toLowerCase (String.substring i 6 "Hay, NEEDLE and needle")
           <> "needle").
Proof.
  assert (H : In longDocResult
                (SearchEngine.search (sampleIndex [longDoc]) "A" 10)).
  { vm_compute. left. reflexivity. }
  split.
  - exact (proj1 (proj2 (C2_snippet_window (sampleIndex [longDoc]) "A" 10)) _ H).
  - exact (proj2 (proj2 (C2_snippet_window [] "Needle" 10))
             "Hay, NEEDLE and needle" 5%nat eq_refl
             (fun a n => toLowerCase_substring a n _)).
Defined.

(** C2, as the specification words it, fails: for a content of 250
    letters "a" and the query "a" the first occurrence is at offset 0; the
    claimed snippet spans [0, 201), the snippet returned spans [0, 200). *)
Lemma C2_snippet_counterexample :
  exists r,
    SearchEngine.search (sampleIndex [longDoc]) "a" 10 = [r]
    /\ String.index 0 "a" (JS.toLowerCase (content longDoc)) = Some 0%nat
    /\ snippet r <>
       Spec.ellipsis (Spec.window (content longDoc)
                        (0 - 100) (0 + JS.len "a" + 200))
    /\ snippet r = Spec.ellipsis (copies 200 "a")
    /\ Spec.window (content longDoc) (0 - 100) (0 + JS.len "a" + 200)
       = copies 201 "a".
Proof.
  eexists. split; [vm_compute; reflexivity|].
  split; [reflexivity|]. split; [|split; vm_compute; reflexivity].
  vm_compute. discriminate.
Qed.

(** C3. The score is not always in [0, 1]: for the empty query and a
    document whose content is empty, [split] returns the empty array,
    [matches] is -1 and the score is -1/10. *)
Theorem C3_score_below_zero_on_empty_content :
  exists r,
    SearchEngine.search (sampleIndex [sampleDoc "empty.md" ""]) "" 10 = [r]
    /\ (score r == -1 # 10)%Q
    /\ ~ (0 <= score r <= 1)%Q.
Proof.
  eexists. split; [vm_compute; reflexivity|]. split; [reflexivity|].
  intros [H _]. vm_compute in H. apply H. reflexivity.
Qed.




Section EmptyQueryFacts.

Import SearchEngine.

Lemma collect_empty_index (this : Documents) :
  collect "" (values this) = map (fun kv => Spec.emptyQueryResult (snd kv)) this.
Proof. unfold values. now rewrite collect_empty, map_map. Qed.

(** A document that [getDocument] gives is bound in the map. *)
Lemma getDocument_In (this : Documents) (k : string) (d : IndexedDocument) :
  getDocument this k = Some d -> In (k, d) this.
Proof.
  unfold getDocument. induction this as [|[k' v] this IH]; simpl; [discriminate|].
  destruct (String.eqb_spec k' k) as [->|Hne].
  - intros [= ->]. now left.
  - intros H. right. now apply IH.
Qed.

Lemma mapSet_absent (k : string) (v : IndexedDocument) (m : Documents) :
  ~ In k (map fst m) -> mapSet k v m = (m ++ [(k, v)])%list.
Proof.
  induction m as [|[k' v'] m IH]; simpl; intros H; [reflexivity|].
  destruct (String.eqb_spec k' k) as [->|Hne].
  - exfalso. apply H. now left.
  - f_equal. apply IH. intros Hin. apply H. now right.
Qed.

(** Documents with pairwise distinct new ids are appended in their
    order. *)
Lemma addDocuments_distinct (this : Documents) (docs : list IndexedDocument) :
  NoDup (map id docs) ->
  (forall d, In d docs -> ~ In (id d) (map fst this)) ->
  addDocuments this docs = (this ++ map (fun d => (id d, d)) docs)%list.
Proof.
  revert this. induction docs as [|d docs IH]; intros this Hnd Hnew.
  - simpl. now rewrite app_nil_r.
  - inversion Hnd as [|? ? Hd Hnd']; subst.
    change (addDocuments this (d :: docs))
      with (addDocuments (mapSet (id d) d this) docs).
    rewrite mapSet_absent by (apply Hnew; now left).
    rewrite IH; [now rewrite <- app_assoc | exact Hnd' |].
    intros d' Hd'. rewrite map_app, in_app_iff. simpl.
    intros [H|[H|[]]].
    + apply (Hnew d'); [now right | exact H].
    + apply Hd. rewrite H. now apply in_map.
Qed.

End EmptyQueryFacts.

(** C10. Under the empty query every indexed document is found at
    offset 0: the loop of [search] pushes one result per entry of the
    index, in its order, with the snippet taken from the start of the
    content and with the score that one match less than the lower-cased
    content has code units gives; [search] sorts these results and
    keeps the first [floor maxResults], so with [maxResults] not
    negative it returns that many results or one per document,
    whichever is less, and with [maxResults] not smaller than the
    number of documents it returns a result for every entry of the
    index, for every document that [getDocument] gives, and for every
    document of distinct id that [addDocuments] put into an empty
    index. *)
Theorem C10_empty_query_matches_every_document
  (this : SearchEngine.Documents) (maxResults : Q) :
  let results := map (fun kv => Spec.emptyQueryResult (snd kv)) this in
  SearchEngine.collect (JS.toLowerCase "") (SearchEngine.values this) = results
  /\ SearchEngine.search this "" maxResults =
     JS.arraySlice (JS.sort SearchEngine.byScore results)
       0 (JS.toIntegerOrInfinity maxResults)
  /\ (forall r, In r (SearchEngine.search this "" maxResults) ->
        (exists k, In (k, document r) this)
        /\ String.index 0 "" (JS.toLowerCase (content (document r))) = Some 0%nat
        /\ snippet r =
           Spec.ellipsis (String.substring 0 200 (content (document r)))
        /\ score r =
           Qmin (inject_Z (JS.len (JS.toLowerCase (content (document r))) - 1) / 10)%Q
             1%Q)
  /\ ((0 <= maxResults)%Q ->
      length (SearchEngine.search this "" maxResults) =
      Nat.min (Z.to_nat (Qfloor maxResults)) (length this))
  /\ ((inject_Z (Z.of_nat (length this)) <= maxResults)%Q ->
      Permutation (map document (SearchEngine.search this "" maxResults))
        (map snd this)
      /\ (forall k d, In (k, d) this ->
            In (Spec.emptyQueryResult d) (SearchEngine.search this "" maxResults))
      /\ (forall k d, SearchEngine.getDocument this k = Some d ->
            In (Spec.emptyQueryResult d) (SearchEngine.search this "" maxResults)))
  /\ (forall docs,
        NoDup (map id docs) ->
        (inject_Z (Z.of_nat (length docs)) <= maxResults)%Q ->
        Permutation
          (map document
             (SearchEngine.search (SearchEngine.addDocuments [] docs) "" maxResults))
          docs).
Proof.
  intros results.
  assert (Hc : forall m,
             SearchEngine.collect (JS.toLowerCase "") (SearchEngine.values m) =
             map (fun kv => Spec.emptyQueryResult (snd kv)) m)
    by apply collect_empty_index.
  assert (Hs : forall m n,
             SearchEngine.search m "" n =
             JS.arraySlice
               (JS.sort SearchEngine.byScore
                  (map (fun kv => Spec.emptyQueryResult (snd kv)) m))
               0 (JS.toIntegerOrInfinity n)).
  { intros m n. unfold SearchEngine.search. now rewrite Hc. }
  assert (Hp : forall m : SearchEngine.Documents,
             Permutation
               (JS.sort SearchEngine.byScore
                  (map (fun kv => Spec.emptyQueryResult (snd kv)) m))
               (map (fun kv => Spec.emptyQueryResult (snd kv)) m))
    by (intros m; apply (sort_perm score)).
  assert (Hall : forall m n,
             (inject_Z (Z.of_nat (length m)) <= n)%Q ->
             Permutation (SearchEngine.search m "" n)
               (map (fun kv => Spec.emptyQueryResult (snd kv)) m)).
  { intros m n Hn. rewrite search_all by exact Hn. rewrite Hc. apply Hp. }
  assert (Hdocs : forall m : SearchEngine.Documents,
             map document (map (fun kv => Spec.emptyQueryResult (snd kv)) m) =
             map snd m).
  { intros m. rewrite map_map. reflexivity. }
  assert (Hin : forall k d,
             (inject_Z (Z.of_nat (length this)) <= maxResults)%Q ->
             In (k, d) this ->
             In (Spec.emptyQueryResult d) (SearchEngine.search this "" maxResults)).
  { intros k d Hn Hkd.
    apply (Permutation_in _ (Permutation_sym (Hall this maxResults Hn))).
    apply in_map_iff. exists (k, d). split; [reflexivity | exact Hkd]. }
  split; [apply Hc|]. split; [apply Hs|]. split; [|split; [|split]].
  - intros r Hr. rewrite Hs in Hr. apply arraySlice_In in Hr.
    apply (Permutation_in _ (Hp this)) in Hr.
    apply in_map_iff in Hr as ([k d] & <- & Hkd). cbn [snd document].
    split; [now exists k|]. split; [apply index0_empty|]. split; reflexivity.
  - intros Hn. rewrite Hs, toIntegerOrInfinity_nonneg by exact Hn.
    assert (H0 : (0 <= Qfloor maxResults)%Z).
    { rewrite <- (Qfloor_Z 0). now apply Qfloor_resp_le. }
    rewrite arraySlice_length by exact H0.
    now rewrite (Permutation_length (Hp this)), length_map.
  - intros Hn. split; [|split].
    + rewrite <- Hdocs. apply Permutation_map. now apply Hall.
    + intros k d Hkd. now apply (Hin k).
    + intros k d Hd. apply (Hin k); [exact Hn|]. now apply getDocument_In.
  - intros docs Hnd Hn.
    assert (Ha : SearchEngine.addDocuments [] docs = map (fun d => (id d, d)) docs).
    { now rewrite addDocuments_distinct by (auto; intros d _ []). }
    assert (Hlen : length (SearchEngine.addDocuments [] docs) = length docs)
      by now rewrite Ha, length_map.
    rewrite <- Hlen in Hn.
    rewrite (Permutation_map document (Hall _ _ Hn)), Hdocs, Ha, map_map.
    cbn [snd]. now rewrite map_id.
Qed.

Lemma C10_empty_query_matches_every_document_witness :
  let this := sampleIndex [sampleDoc "a.md" "foo"; sampleDoc "e.md" ""] in
  Permutation (map document (SearchEngine.search this "" 10)) (map snd this)
  /\ (forall k d, In (k, d) this ->
        In (Spec.emptyQueryResult d) (SearchEngine.search this "" 10))
  /\ (forall k d, SearchEngine.getDocument this k = Some d ->
        In (Spec.emptyQueryResult d) (SearchEngine.search this "" 10)).
Proof.
  apply (C10_empty_query_matches_every_document
           (sampleIndex [sampleDoc "a.md" "foo"; sampleDoc "e.md" ""]) 10).
  vm_compute. discriminate.
Defined.

(** The search of the empty string in an index of two documents, one of
    them without content: both are returned, the longer content first. *)
Example search_empty_query :
  map (fun r => (filePath (document r), snippet r))
    (SearchEngine.search
       (sampleIndex [sampleDoc "e.md" ""; sampleDoc "a.md" "Foo"]) "" 10)
  = [("a.md", "...Foo..."); ("e.md", "......")].
Proof. vm_compute. reflexivity. Qed.

(** ** [matchPattern] and the filter of the repository tree *)

Section GlobFacts.

Variable engine : RegExp.Engine.

(** The double star is translated to "one code unit that is no line
    terminator, then code units other than the separator": it matches
    no path with a separator behind its first code unit. *)
Lemma globstar_pattern :
  RegExp.parse ("^" ++ Glob.regexPattern "**" ++ "$") =
  Some [RegExp.One RegExp.AnyChar; RegExp.Star RegExp.NotSlash].
Proof. reflexivity. Qed.

Lemma star_notSlash (s : string) :
  RegExp.matches [RegExp.Star RegExp.NotSlash] s =
  forallb (fun c => negb (Ascii.eqb c "/")) (list_ascii_of_string s).
Proof.
  induction s as [|c s IH]; [reflexivity|].
  cbn [list_ascii_of_string forallb]. rewrite <- IH. reflexivity.
Qed.

Lemma matchPattern_globstar (filePath : string) :
  Glob.matchPattern engine filePath "**" =
  Some match filePath with
       | EmptyString => false
       | String c rest =>
           negb (RegExp.isLineTerminator c)
           && forallb (fun c => negb (Ascii.eqb c "/")) (list_ascii_of_string rest)
       end.
Proof.
  unfold Glob.matchPattern, RegExp.compile. rewrite globstar_pattern. f_equal.
  destruct filePath as [|c rest]; [reflexivity|].
  cbn [RegExp.matches RegExp.classTest].
  f_equal. apply star_notSlash.
Qed.

Variable p : string.

Lemma some_anyMatch (patterns : list string) (b : bool) :
  JS.some (fun pattern => Glob.matchPattern engine p pattern) patterns = Some b ->
  b = Spec.anyMatch engine patterns p.
Proof.
  induction patterns as [|q patterns IH]; simpl.
  - now intros [= <-].
  - destruct (Glob.matchPattern engine p q) as [[|]|]; simpl.
    + now intros [= <-].
    + exact IH.
    + discriminate.
Qed.

Lemma some_total (patterns : list string) :
  (forall q, In q patterns -> Glob.matchPattern engine p q <> None) ->
  JS.some (fun pattern => Glob.matchPattern engine p pattern) patterns =
  Some (Spec.anyMatch engine patterns p).
Proof.
  induction patterns as [|q patterns IH]; intros H; simpl; [reflexivity|].
  destruct (Glob.matchPattern engine p q) as [[|]|] eqn:E; simpl.
  - reflexivity.
  - apply IH. intros q' Hq'. apply H. now right.
  - exfalso. apply (H q); [now left | exact E].
Qed.

End GlobFacts.

(** C1. The first two examples hold: [a/b/c.md] matches [a/**/*.md] and
    does not match [a/*.md]. The third does not: the replacement of the
    single star also rewrites the star of the [.*] that the double star
    had just become, so that a double star ends as [.[^/]*] and does not
    run across separators; [x/node_modules/y/z.ts] does not match
    [**/node_modules/**]. *)
Theorem C1_globstar_does_not_cross_separators (engine : RegExp.Engine) :
  Glob.matchPattern engine "a/b/c.md" "a/**/*.md" = Some true
  /\ Glob.matchPattern engine "a/b/c.md" "a/*.md" = Some false
  /\ Glob.expandGlobstar (Glob.escapeDots "**/node_modules/**")
     = ".*/node_modules/.*"
  /\ Glob.regexPattern "**/node_modules/**" = ".[^/]*/node_modules/.[^/]*"
  /\ Glob.matchPattern engine "x/node_modules/y/z.ts" "**/node_modules/**"
     = Some false
  /\ Glob.matchPattern engine "a/b/c" "**" = Some false.
Proof. repeat split; reflexivity. Qed.

(** C6. On an entry of the tree that is a file, a blob with a non-empty
    path, the predicate of the filter is "some include pattern matches
    AND NOT some exclude pattern matches": it returns nothing else, and
    it returns this whenever no pattern makes [new RegExp] throw. With no
    include pattern no entry is kept, whatever the exclude patterns are.
    Entries that are not files are never kept. *)
Theorem C6_filter_predicate_is_isEligible (engine : RegExp.Engine)
  (includePatterns excludePatterns : list string) (item : TreeItem) (p : string) :
  type item = Some "blob" ->
  path item = Some p ->
  p <> "" ->
  (forall b,
     GitHubSync.isMatchingFile engine includePatterns excludePatterns item = Some b ->
     b = Spec.isEligible engine p includePatterns excludePatterns)
  /\ ((forall q, In q (includePatterns ++ excludePatterns)%list ->
         Glob.matchPattern engine p q <> None) ->
      GitHubSync.isMatchingFile engine includePatterns excludePatterns item =
      Some (Spec.isEligible engine p includePatterns excludePatterns))
  /\ (forall anyItem,
        GitHubSync.isMatchingFile engine [] excludePatterns anyItem = Some false)
  /\ Spec.isEligible engine p [] excludePatterns = false
  /\ (forall other,
        type other <> Some "blob" \/ path other = None \/ path other = Some "" ->
        GitHubSync.isMatchingFile engine includePatterns excludePatterns other
        = Some false).
Proof.
  intros Ht Hp Hne.
  assert (Hpath : GitHubSync.truthy (path item) = Some p).
  { rewrite Hp. destruct p; [contradiction | reflexivity]. }
  split; [|split; [|split; [|split]]].
  - intros b. unfold GitHubSync.isMatchingFile, Spec.isEligible.
    rewrite Ht, Hpath.
    destruct (JS.some _ includePatterns) as [[|]|] eqn:Ei; try discriminate.
    + rewrite <- (some_anyMatch engine p _ _ Ei).
      destruct (JS.some _ excludePatterns) as [[|]|] eqn:Ee; try discriminate;
        rewrite <- (some_anyMatch engine p _ _ Ee); now intros [= <-].
    + rewrite <- (some_anyMatch engine p _ _ Ei). now intros [= <-].
  - intros Hok. unfold GitHubSync.isMatchingFile, Spec.isEligible.
    rewrite Ht, Hpath.
    rewrite (some_total engine p includePatterns)
      by (intros q Hq; apply Hok, in_or_app; now left).
    rewrite (some_total engine p excludePatterns)
      by (intros q Hq; apply Hok, in_or_app; now right).
    destruct (Spec.anyMatch engine includePatterns p),
             (Spec.anyMatch engine excludePatterns p); reflexivity.
  - intros anyItem. unfold GitHubSync.isMatchingFile.
    destruct (type anyItem) as [t|]; [|reflexivity].
    destruct (GitHubSync.truthy (path anyItem)); simpl;
      repeat match goal with
             | |- match ?x with _ => _ end = _ => destruct x; try reflexivity
             end.
  - reflexivity.
  - intros other H. unfold GitHubSync.isMatchingFile.
    destruct (type other) as [t|] eqn:Et; [|reflexivity].
    destruct (String.eqb_spec t "blob") as [->|Hnb].
    + destruct H as [H|[H|H]]; [congruence | |]; now rewrite H.
    + repeat match goal with
             | |- match ?x with _ => _ end = _ =>
                 destruct x; try reflexivity; try congruence
             end.
Qed.

Lemma C6_filter_predicate_is_isEligible_witness :
  GitHubSync.isMatchingFile (fun _ => None) ["*.md"; "docs/**"]
    ["**/node_modules/**"] (sampleBlob "docs/x.md")
  = Some (Spec.isEligible (fun _ => None) "docs/x.md"
            ["*.md"; "docs/**"] ["**/node_modules/**"]).
Proof.
  refine (proj1 (proj2 (C6_filter_predicate_is_isEligible (fun _ => None)
           ["*.md"; "docs/**"] ["**/node_modules/**"]
           (sampleBlob "docs/x.md") "docs/x.md" _ _ _)) _).
  - reflexivity.
  - reflexivity.
  - discriminate.
  - intros q [<-|[<-|[<-|[]]]]; vm_compute; discriminate.
Defined.

Example isEligible_sample (engine : RegExp.Engine) :
  Spec.isEligible engine "docs/x.md" ["*.md"; "docs/**"] ["**/node_modules/**"]
  = true
  /\ Spec.isEligible engine "docs/a/x.md" ["*.md"; "docs/**"] ["**/node_modules/**"]
     = false.
Proof. split; reflexivity. Qed.

Example regexPattern_samples :
  Glob.regexPattern "a/*.md" = "a/[^/]*\.md"
  /\ Glob.regexPattern "**" = ".[^/]*"
  /\ Glob.regexPattern "file?.txt" = "file.\.txt".
Proof. repeat split; reflexivity. Qed.

(** The patterns written in [index.ts] and the default patterns stay
    inside the fragment: for them [new RegExp] does not throw. *)
Example builtin_patterns_parse :
  forall pattern,
    In pattern [".claude/**/*.md"; "**/*.mcp.json"; "**/*.md"; "**/package.json";
                "**/node_modules/**"; "**/.git/**"] ->
    RegExp.parse ("^" ++ Glob.regexPattern pattern ++ "$") <> None.
Proof.
  intros pattern H. repeat (destruct H as [<-|H]; [vm_compute; discriminate|]).
  contradiction.
Qed.

Example split_samples :
  JS.split "foo foo foo" "foo" = [""; " "; " "; ""]
  /\ JS.split "aaa" "aa" = [""; "a"]
  /\ JS.split "abc" "" = ["a"; "b"; "c"]
  /\ JS.split "" "" = []
  /\ JS.split "" "a" = [""].
Proof. repeat split; reflexivity. Qed.

(** ** The blocklist ledger *)

Section JsonFacts.

Lemma get_set_same (o : Json.Object) (k : string) (v : Json.Value) :
  Json.get (Json.set o k v) k = v.
Proof.
  induction o as [|[k' v'] o IH]; simpl.
  - now rewrite String.eqb_refl.
  - destruct (String.eqb k' k) eqn:E; simpl.
    + now rewrite String.eqb_refl.
    + now rewrite E.
Qed.

Lemma get_set_other (o : Json.Object) (k k2 : string) (v : Json.Value) :
  k2 <> k -> Json.get (Json.set o k v) k2 = Json.get o k2.
Proof.
  intros Hk. induction o as [|[k' v'] o IH]; simpl.
  - apply String.eqb_neq in Hk. now rewrite String.eqb_sym, Hk.
  - destruct (String.eqb k' k) eqn:E; simpl.
    + apply String.eqb_eq in E. subst k'.
      apply String.eqb_neq in Hk. now rewrite String.eqb_sym, Hk.
    + now rewrite IH.
Qed.

Lemma keys_set_absent (o : Json.Object) (k : string) (v : Json.Value) :
  ~ In k (Json.keys o) -> Json.set o k v = (o ++ [(k, v)])%list.
Proof.
  induction o as [|[k' v'] o IH]; simpl; intros H; [reflexivity|].
  destruct (String.eqb_spec k' k) as [->|Hne].
  - exfalso. apply H. now left.
  - f_equal. apply IH. intros Hin. apply H. now right.
Qed.

(** Writing an object to the file and reading it back keeps every
    property that is not [undefined]. *)
Lemma get_persisted_defined (o : Json.Object) (k : string) :
  Json.get o k <> Json.Undefined ->
  Json.get (Json.persisted o) k = Json.get o k.
Proof.
  induction o as [|[k' v'] o IH]; simpl; [reflexivity|].
  destruct (String.eqb k' k) eqn:E.
  - intros Hv. destruct v'; simpl; rewrite ?E; try reflexivity. contradiction.
  - intros Hv. destruct v'; simpl; rewrite ?E; auto.
Qed.

End JsonFacts.

(** *** The order of [sort()] on strings *)

Section StringOrder.

Lemma strLe_cases (x y : string) : strLe x y <-> x = y \/ String_as_OT.lt x y.
Proof.
  unfold strLe. destruct (String_as_OT.compare_spec x y) as [E|L|G]; split;
    intros H; auto; try congruence.
  - destruct H as [->|H]; exfalso.
    + exact (StrictOrder_Irreflexive _ G).
    + exact (StrictOrder_Irreflexive _ (StrictOrder_Transitive _ _ _ H G)).
Qed.

Lemma strLe_trans (x y z : string) : strLe x y -> strLe y z -> strLe x z.
Proof.
  rewrite !strLe_cases. intros [->|Hxy] [->|Hyz]; auto.
  right. exact (StrictOrder_Transitive _ _ _ Hxy Hyz).
Qed.

Lemma strLe_antisym (x y : string) : strLe x y -> strLe y x -> x = y.
Proof.
  rewrite !strLe_cases. intros [E|Hxy] [E'|Hyx]; auto.
  exfalso. exact (StrictOrder_Irreflexive _ (StrictOrder_Transitive _ _ _ Hxy Hyx)).
Qed.

Lemma defaultCompare_after (x y : string) :
  (0 < JsArray.defaultCompare x y)%Q -> strLe y x.
Proof.
  unfold JsArray.defaultCompare. intros H. apply strLe_cases.
  destruct (String_as_OT.compare_spec x y) as [E|L|G]; auto; lra.
Qed.

Lemma defaultCompare_before (x y : string) :
  (JsArray.defaultCompare x y <= 0)%Q -> strLe x y.
Proof.
  unfold JsArray.defaultCompare, strLe.
  destruct (String_as_OT.compare x y); try discriminate. lra.
Qed.

Lemma sort_strings_sorted (l : list string) :
  StronglySorted strLe (JS.sort JsArray.defaultCompare l).
Proof.
  apply sort_sorted_gen;
    [exact strLe_trans | exact defaultCompare_after | exact defaultCompare_before].
Qed.

(** Sorting forgets the order in which the strings came. *)
Lemma sort_strings_perm (l1 l2 : list string) :
  Permutation l1 l2 ->
  JS.sort JsArray.defaultCompare l1 = JS.sort JsArray.defaultCompare l2.
Proof.
  intros Hp. apply (sorted_perm_unique strLe).
  - exact strLe_antisym.
  - apply sort_strings_sorted.
  - apply sort_strings_sorted.
  - transitivity l1; [apply sort_perm_gen|].
    transitivity l2; [exact Hp | symmetry; apply sort_perm_gen].
Qed.

Lemma Permutation_filter {A : Type} (f : A -> bool) (l1 l2 : list A) :
  Permutation l1 l2 -> Permutation (filter f l1) (filter f l2).
Proof.
  induction 1 as [|x l1 l2 Hp IH|x y l|l1 l2 l3 H12 IH12 H23 IH23]; simpl.
  - constructor.
  - destruct (f x); [now constructor | exact IH].
  - destruct (f x), (f y); try reflexivity. apply perm_swap.
  - now transitivity (filter f l2).
Qed.

Lemma StronglySorted_filter {A : Type} (R : A -> A -> Prop) (f : A -> bool)
  (l : list A) :
  StronglySorted R l -> StronglySorted R (filter f l).
Proof.
  induction 1 as [|x l Hs IH Hx]; simpl; [constructor|].
  destruct (f x); [|exact IH]. constructor; [exact IH|].
  rewrite Forall_forall in *. intros y Hy. apply Hx.
  now apply filter_In in Hy.
Qed.

(** Sorting commutes with leaving elements out. *)
Lemma sort_strings_filter (f : string -> bool) (l : list string) :
  JS.sort JsArray.defaultCompare (filter f l) =
  filter f (JS.sort JsArray.defaultCompare l).
Proof.
  apply (sorted_perm_unique strLe).
  - exact strLe_antisym.
  - apply sort_strings_sorted.
  - apply StronglySorted_filter, sort_strings_sorted.
  - transitivity (filter f l); [apply sort_perm_gen|].
    apply Permutation_filter. symmetry. apply sort_perm_gen.
Qed.

End StringOrder.

(** *** Objects, [JSON.stringify] and [calculateHash] *)

Section HashFacts.

Lemma get_absent (o : Json.Object) (k : string) :
  ~ In k (Json.keys o) -> Json.get o k = Json.Undefined.
Proof.
  induction o as [|[k' v'] o IH]; simpl; intros H; [reflexivity|].
  destruct (String.eqb_spec k' k) as [->|Hne].
  - exfalso. apply H. now left.
  - apply IH. intros Hin. apply H. now right.
Qed.

Lemma get_In (o : Json.Object) (k : string) (v : Json.Value) :
  NoDup (Json.keys o) -> In (k, v) o -> Json.get o k = v.
Proof.
  induction o as [|[k' v'] o IH]; simpl; intros Hnd Hin; [contradiction|].
  inversion Hnd as [|? ? Hk' Hnd']; subst.
  destruct Hin as [[= -> ->]|Hin].
  - now rewrite String.eqb_refl.
  - destruct (String.eqb_spec k' k) as [->|Hne]; [|now apply IH].
    exfalso. apply Hk'. apply in_map_iff. now exists (k, v).
Qed.

(** The value of a property does not depend on the order in which the
    properties were created. *)
Lemma get_perm (o1 o2 : Json.Object) (k : string) :
  NoDup (Json.keys o1) -> Permutation o1 o2 ->
  Json.get o1 k = Json.get o2 k.
Proof.
  intros Hnd Hp.
  assert (Hk : Permutation (Json.keys o1) (Json.keys o2))
    by now apply Permutation_map.
  assert (Hnd2 : NoDup (Json.keys o2))
    by exact (Permutation_NoDup Hk Hnd).
  destruct (in_dec string_dec k (Json.keys o1)) as [Hin|Hout].
  - apply in_map_iff in Hin as ([k' v] & Ek & Hin). simpl in Ek. subst k'.
    rewrite (get_In o1 k v Hnd Hin).
    symmetry. apply get_In; [exact Hnd2|].
    exact (Permutation_in _ Hp Hin).
  - rewrite (get_absent o1 k Hout). symmetry. apply get_absent.
    intros Hin. apply Hout. exact (Permutation_in _ (Permutation_sym Hk) Hin).
Qed.

Example sorted_keys_sample :
  JS.sort JsArray.defaultCompare (Json.keys sampleEntry) =
  ["allowOverride"; "pattern"; "reason"; "serverName"; "source"; "timestamp"; "type"]
  /\ Json.stringify [("b", Json.Str "x"); ("a", Json.Bool true); ("c", Json.Undefined)]
       ["a"; "b"; "c"]
     = "{" ++ Json.quote "a" ++ ":true," ++ Json.quote "b" ++ ":" ++ Json.quote "x" ++ "}".
Proof. split; reflexivity. Qed.

(** The canonical text, and so the hash, is the same for two objects
    with the same properties, whatever their order. *)
Lemma calculateHash_perm (env : Env) (o1 o2 : Json.Object) :
  NoDup (Json.keys o1) -> Permutation o1 o2 ->
  Storage.calculateHash env o1 = Storage.calculateHash env o2.
Proof.
  intros Hnd Hp. unfold Storage.calculateHash, Json.stringify.
  rewrite (sort_strings_perm (Json.keys o1) (Json.keys o2))
    by now apply Permutation_map.
  rewrite (flat_map_ext (Json.member o1) (Json.member o2)); [reflexivity|].
  intros k. unfold Json.member. now rewrite (get_perm o1 o2 k Hnd Hp).
Qed.

Lemma propertyList_nodup (seen l : list string) :
  NoDup l -> (forall k, In k l -> ~ In k seen) ->
  Json.propertyList seen l = l.
Proof.
  intros Hnd. revert seen. induction Hnd as [|k l Hk Hnd IH]; intros seen Hs;
    simpl; [reflexivity|].
  destruct (existsb (String.eqb k) seen) eqn:E.
  - exfalso. apply existsb_exists in E as (k' & Hin & Ek).
    apply String.eqb_eq in Ek. subst k'. apply (Hs k); [now left | exact Hin].
  - f_equal. apply IH. intros k' Hk' [<-|Hin]; [contradiction|].
    apply (Hs k'); [now right | exact Hin].
Qed.

Lemma keys_persisted (o : Json.Object) :
  NoDup (Json.keys o) ->
  Json.keys (Json.persisted o) =
  filter (fun k => isDefined (Json.get o k)) (Json.keys o).
Proof.
  induction o as [|[k v] o IH]; simpl; intros Hnd; [reflexivity|].
  inversion Hnd as [|? ? Hk Hnd']; subst.
  rewrite String.eqb_refl.
  assert (Ht : filter (fun k0 => isDefined (if String.eqb k k0 then v else Json.get o k0))
                 (Json.keys o) =
               filter (fun k0 => isDefined (Json.get o k0)) (Json.keys o)).
  { apply filter_ext_in. intros k0 Hk0.
    destruct (String.eqb_spec k k0) as [->|Hne]; [contradiction | reflexivity]. }
  rewrite Ht, <- IH by exact Hnd'.
  destruct v; reflexivity.
Qed.

(** Properties holding [undefined] do not enter the canonical text: the
    hash of an object is the hash of what is written to the file. *)
Lemma calculateHash_persisted (env : Env) (o : Json.Object) :
  NoDup (Json.keys o) ->
  Storage.calculateHash env (Json.persisted o) = Storage.calculateHash env o.
Proof.
  intros Hnd. unfold Storage.calculateHash, Json.stringify.
  assert (HndS : NoDup (JS.sort JsArray.defaultCompare (Json.keys o)))
    by exact (Permutation_NoDup (Permutation_sym (sort_perm_gen _ _)) Hnd).
  rewrite keys_persisted by exact Hnd.
  rewrite sort_strings_filter.
  rewrite !propertyList_nodup; auto using NoDup_filter.
  assert (E : forall l, NoDup l ->
            flat_map (Json.member (Json.persisted o))
              (filter (fun k => isDefined (Json.get o k)) l) =
            flat_map (Json.member o) l).
  { induction 1 as [|k l Hk Hl IH]; [reflexivity|].
    cbn [filter flat_map].
    destruct (isDefined (Json.get o k)) eqn:E; cbn [flat_map]; rewrite IH.
    - f_equal. unfold Json.member.
      rewrite get_persisted_defined; [reflexivity|].
      destruct (Json.get o k); discriminate.
    - unfold Json.member. destruct (Json.get o k); try discriminate.
      reflexivity. }
  now rewrite E.
Qed.

(** *** The text that is digested *)

Lemma unquote_quoteChar (c : ascii) (s : string) (r : string * string) :
  LedgerSpec.unquoteBody s = Some r ->
  LedgerSpec.unquoteBody (Json.quoteChar c ++ s) = Some (String c (fst r), snd r).
Proof.
  intros H. destruct r as [t rest].
  destruct c as [[] [] [] [] [] [] [] []];
    match goal with
    | |- context [Json.quoteChar ?c] =>
        let q := eval vm_compute in (Json.quoteChar c) in
        change (Json.quoteChar c) with q
    end;
    cbn [append LedgerSpec.unquoteBody];
    repeat match goal with
    | |- context [Ascii.eqb ?a ?b] =>
        let v := eval vm_compute in (Ascii.eqb a b) in
        change (Ascii.eqb a b) with v; cbv iota
    end;
    rewrite H; reflexivity.
Qed.

Lemma unquote_quoteBody (s x : string) :
  LedgerSpec.unquoteBody (Json.quoteBody s ++ Json.dquote ++ x) = Some (s, x).
Proof.
  induction s as [|c s IH].
  - reflexivity.
  - cbn [Json.quoteBody]. rewrite append_assoc.
    now rewrite (unquote_quoteChar c _ _ IH).
Qed.

(** A quoted string ends where its closing quote stands: two quoted
    strings, each followed by a text, give one text only when the
    strings are the same and the texts that follow are. *)
Lemma quote_inj (a b x y : string) :
  Json.quote a ++ x = Json.quote b ++ y -> a = b /\ x = y.
Proof.
  unfold Json.quote. rewrite !append_assoc. cbn [Json.dquote append].
  intros [= H].
  pose proof (unquote_quoteBody a x) as Ha.
  pose proof (unquote_quoteBody b y) as Hb.
  cbn [Json.dquote append] in Ha, Hb.
  rewrite H in Ha. rewrite Ha in Hb. injection Hb as -> ->. auto.
Qed.

Lemma valueText_inj (v v' : Json.Value) (x y : string) :
  v <> Json.Undefined -> v' <> Json.Undefined ->
  LedgerSpec.valueText v ++ x = LedgerSpec.valueText v' ++ y -> v = v' /\ x = y.
Proof.
  intros Hv Hv'.
  destruct v as [| |[|]|s]; [contradiction| | | |];
    (destruct v' as [| |[|]|s']; [contradiction| | | |]);
    cbn [LedgerSpec.valueText]; unfold Json.quote; cbn [Json.dquote append];
    try discriminate; try (intros [= ->]; now split).
  intros H.
  destruct (quote_inj s s' x y) as [-> ->]; [|now split].
  unfold Json.quote. cbn [Json.dquote append]. exact H.
Qed.

(** The members of an object text can be read off the text. *)
Lemma members_inj (e1 e2 : Json.Object) (n1 n2 : list string) :
  (forall k, In k n1 -> Json.get e1 k <> Json.Undefined) ->
  (forall k, In k n2 -> Json.get e2 k <> Json.Undefined) ->
  String.concat "," (map (LedgerSpec.memberText e1) n1) ++ "}" =
  String.concat "," (map (LedgerSpec.memberText e2) n2) ++ "}" ->
  n1 = n2 /\ forall k, In k n1 -> Json.get e1 k = Json.get e2 k.
Proof.
  revert n2. induction n1 as [|k1 r1 IH]; intros n2 H1 H2.
  - destruct n2 as [|k2 r2]; [now split|].
    cbn [map String.concat]. unfold LedgerSpec.memberText at 1, Json.quote.
    destruct r2; cbn [Json.dquote append]; discriminate.
  - destruct n2 as [|k2 r2].
    + cbn [map String.concat]. unfold LedgerSpec.memberText at 1, Json.quote.
      destruct r1; cbn [map Json.dquote append]; discriminate.
    + assert (Hstep : forall e k r,
                String.concat "," (map (LedgerSpec.memberText e) (k :: r)) ++ "}" =
                Json.quote k ++ ":" ++ LedgerSpec.valueText (Json.get e k) ++
                match r with
                | [] => "}"
                | _ => "," ++ String.concat "," (map (LedgerSpec.memberText e) r) ++ "}"
                end).
      { intros e k r. destruct r as [|k' r]; cbn [map String.concat];
          unfold LedgerSpec.memberText at 1; now rewrite !append_assoc. }
      rewrite !Hstep. intros H.
      apply quote_inj in H as [-> H]. cbn [append] in H. injection H as H.
      apply valueText_inj in H as [Hv H];
        [|apply H1; now left | apply H2; now left].
      assert (Hr : r1 = r2 /\ forall k, In k r1 -> Json.get e1 k = Json.get e2 k).
      { destruct r1 as [|a r1], r2 as [|b r2].
        - split; [reflexivity | intros k []].
        - cbn [append] in H. discriminate.
        - cbn [append] in H. discriminate.
        - cbn [append] in H. injection H as H.
          apply IH; [| |exact H].
          + intros k Hk. apply H1. now right.
          + intros k Hk. apply H2. now right. }
      destruct Hr as [-> Hr]. split; [reflexivity|].
      intros k [<-|Hk]; [exact Hv | now apply Hr].
Qed.

(** The canonical text tells every field: two objects with one text
    have the same value, or none, under every name. *)
Lemma canonicalText_inj (e1 e2 : Json.Object) (n1 n2 : list string) :
  LedgerSpec.fieldNames e1 n1 -> LedgerSpec.fieldNames e2 n2 ->
  LedgerSpec.canonicalText e1 n1 = LedgerSpec.canonicalText e2 n2 ->
  forall k, Json.get e1 k = Json.get e2 k.
Proof.
  intros [_ H1] [_ H2] H. unfold LedgerSpec.canonicalText in H.
  cbn [append] in H. injection H as H.
  apply members_inj in H as [-> H]; [| intros k; apply H1 | intros k; apply H2].
  intros k. destruct (in_dec string_dec k n2) as [Hin|Hout]; [now apply H|].
  assert (E1 : Json.get e1 k = Json.Undefined).
  { destruct (Json.get e1 k) eqn:E; try reflexivity;
      exfalso; apply Hout, H1; rewrite E; discriminate. }
  assert (E2 : Json.get e2 k = Json.Undefined).
  { destruct (Json.get e2 k) eqn:E; try reflexivity;
      exfalso; apply Hout, H2; rewrite E; discriminate. }
  congruence.
Qed.

Lemma strict_sorted (l : list string) :
  StronglySorted strLe l -> NoDup l -> StronglySorted String_as_OT.lt l.
Proof.
  induction 1 as [|x l Hs IH Hx]; intros Hnd; [constructor|].
  inversion Hnd as [|? ? Hin Hnd']; subst.
  constructor; [now apply IH|].
  rewrite Forall_forall in *. intros y Hy.
  destruct (proj1 (strLe_cases x y) (Hx y Hy)) as [->|Hlt];
    [contradiction | exact Hlt].
Qed.

Lemma strict_sorted_NoDup (l : list string) :
  StronglySorted String_as_OT.lt l -> NoDup l.
Proof.
  induction 1 as [|x l Hs IH Hx]; constructor; [|exact IH].
  rewrite Forall_forall in Hx. intros Hin.
  exact (StrictOrder_Irreflexive _ (Hx x Hin)).
Qed.

(** There is one way only to list given names in increasing order. *)
Lemma strict_sorted_unique (l1 l2 : list string) :
  StronglySorted String_as_OT.lt l1 -> StronglySorted String_as_OT.lt l2 ->
  (forall k, In k l1 <-> In k l2) -> l1 = l2.
Proof.
  intros H1 H2 Hin.
  assert (Hle : forall l, StronglySorted String_as_OT.lt l -> StronglySorted strLe l).
  { induction 1 as [|x l Hs IH Hx]; constructor; [exact IH|].
    eapply Forall_impl; [|exact Hx]. intros y Hy. apply strLe_cases. now right. }
  apply (sorted_perm_unique strLe); auto using strLe_antisym.
  apply NoDup_Permutation; auto using strict_sorted_NoDup.
Qed.

Lemma flat_map_member (e : Json.Object) (l : list string) :
  flat_map (Json.member e) l =
  map (LedgerSpec.memberText e) (filter (fun k => isDefined (Json.get e k)) l).
Proof.
  induction l as [|k l IH]; [reflexivity|].
  cbn [flat_map filter]. rewrite IH. unfold Json.member.
  destruct (Json.get e k) as [| |[|]|s] eqn:E;
    cbn [isDefined Json.stringifyValue map app];
    try (change (LedgerSpec.memberText e k)
           with (Json.quote k ++ ":" ++ LedgerSpec.valueText (Json.get e k));
         rewrite E); reflexivity.
Qed.

Lemma get_defined_key (e : Json.Object) (k : string) :
  Json.get e k <> Json.Undefined -> In k (Json.keys e).
Proof.
  intros H. destruct (in_dec string_dec k (Json.keys e)) as [Hin|Hout];
    [exact Hin|].
  exfalso. apply H. now apply get_absent.
Qed.

(** The text that [calculateHash] digests: the fields that hold a
    value, under their names in increasing order. *)
Lemma calculateHash_canonical (env : Env) (e : Json.Object) :
  NoDup (Json.keys e) ->
  exists names,
    LedgerSpec.fieldNames e names
    /\ Storage.calculateHash env e =
       "sha256:" ++ sha256hex env (LedgerSpec.canonicalText e names).
Proof.
  intros Hnd.
  set (sorted := JS.sort JsArray.defaultCompare (Json.keys e)).
  assert (Hp : Permutation sorted (Json.keys e)) by apply sort_perm_gen.
  assert (HndS : NoDup sorted)
    by exact (Permutation_NoDup (Permutation_sym Hp) Hnd).
  exists (filter (fun k => isDefined (Json.get e k)) sorted).
  split; [split|].
  - apply StronglySorted_filter, strict_sorted;
      [apply sort_strings_sorted | exact HndS].
  - intros k. rewrite filter_In. split.
    + intros [_ H]. destruct (Json.get e k); [discriminate| | |]; discriminate.
    + intros H. split.
      * apply (Permutation_in _ (Permutation_sym Hp)). now apply get_defined_key.
      * destruct (Json.get e k); [contradiction| | |]; reflexivity.
  - unfold Storage.calculateHash, Json.stringify, LedgerSpec.canonicalText.
    fold sorted. rewrite propertyList_nodup by (auto; intros k _ []).
    now rewrite flat_map_member.
Qed.

(** The hash is a function of the fields: the order in which the
    properties were created, and properties that hold [undefined], do
    not enter. *)
Lemma calculateHash_fields (env : Env) (e1 e2 : Json.Object) :
  NoDup (Json.keys e1) -> NoDup (Json.keys e2) ->
  (forall k, Json.get e1 k = Json.get e2 k) ->
  Storage.calculateHash env e1 = Storage.calculateHash env e2.
Proof.
  intros H1 H2 Hget.
  destruct (calculateHash_canonical env e1 H1) as (n1 & [Hs1 Hm1] & ->).
  destruct (calculateHash_canonical env e2 H2) as (n2 & [Hs2 Hm2] & ->).
  assert (E : n1 = n2).
  { apply strict_sorted_unique; auto. intros k. now rewrite Hm1, Hm2, Hget. }
  subst n2. unfold LedgerSpec.canonicalText. do 5 f_equal.
  apply map_ext. intros k. unfold LedgerSpec.memberText. now rewrite Hget.
Qed.

(** What is digested for the sample entry: six fields, the pattern that
    is [undefined] left out, the names in increasing order. *)
Example calculateHash_sample :
  Storage.calculateHash plainEnv sampleEntry =
  "sha256:{" ++ Json.quote "allowOverride" ++ ":false,"
    ++ Json.quote "reason" ++ ":" ++ Json.quote "Security vulnerability" ++ ","
    ++ Json.quote "serverName" ++ ":" ++ Json.quote "@malicious/mcp-server" ++ ","
    ++ Json.quote "source" ++ ":" ++ Json.quote "user" ++ ","
    ++ Json.quote "timestamp" ++ ":" ++ Json.quote "2025-11-08T10:00:00.000Z" ++ ","
    ++ Json.quote "type" ++ ":" ++ Json.quote "server" ++ "}".
Proof. vm_compute. reflexivity. Qed.

End HashFacts.

(** *** [BlocklistEntrySchema] *)

Section SchemaFacts.

Variable env : Env.

Lemma requiredString_Some ok o k kv :
  Schema.requiredString ok o k = Some kv ->
  exists s, Json.get o k = Json.Str s /\ ok s = true /\ kv = [(k, Json.Str s)].
Proof.
  unfold Schema.requiredString. destruct (Json.get o k) as [| | |s]; try discriminate.
  destruct (ok s) eqn:E; [|discriminate]. intros [= <-]. eauto.
Qed.

Lemma optionalString_Some o k kv :
  Schema.optionalString o k = Some kv ->
  (Json.get o k = Json.Undefined /\ kv = [])
  \/ exists s, Json.get o k = Json.Str s /\ kv = [(k, Json.Str s)].
Proof.
  unfold Schema.optionalString. destruct (Json.get o k) as [| | |s]; try discriminate;
    intros [= <-]; eauto.
Qed.

Lemma booleanDefault_Some d o k kv :
  Schema.booleanDefault d o k = Some kv ->
  exists b, kv = [(k, Json.Bool b)]
            /\ (Json.get o k = Json.Undefined \/ Json.get o k = Json.Bool b).
Proof.
  unfold Schema.booleanDefault. destruct (Json.get o k) as [| |b|]; try discriminate;
    intros [= <-]; eauto.
Qed.

Lemma enumDefault_Some values d o k kv :
  Schema.oneOf values d = true ->
  Schema.enumDefault values d o k = Some kv ->
  exists s, kv = [(k, Json.Str s)] /\ Schema.oneOf values s = true
            /\ (Json.get o k = Json.Undefined \/ Json.get o k = Json.Str s).
Proof.
  unfold Schema.enumDefault. intros Hd.
  destruct (Json.get o k) as [| | |s]; try discriminate.
  - intros [= <-]. eauto.
  - destruct (existsb (String.eqb s) values) eqn:E; [|discriminate].
    intros [= <-]. eauto.
Qed.

(** The shape of a parsed entry. *)
Lemma entrySchema_inv (o n : Json.Object) :
  Schema.BlocklistEntrySchema env o = Some n ->
  exists timestamp type kvServer kvVersion kvPattern reason hash allowOverride source,
    n = ([("timestamp", Json.Str timestamp); ("type", Json.Str type)]
           ++ kvServer ++ kvVersion ++ kvPattern
           ++ [("reason", Json.Str reason); ("hash", Json.Str hash);
               ("allowOverride", Json.Bool allowOverride);
               ("source", Json.Str source)])%list
    /\ isDatetime env timestamp = true
    /\ Schema.oneOf ["server"; "file_pattern"] type = true
    /\ Schema.oneOf ["user"; "system"; "community"] source = true
    /\ Json.get o "hash" = Json.Str hash
    /\ Schema.optionalString o "serverName" = Some kvServer
    /\ Schema.optionalString o "version" = Some kvVersion
    /\ Schema.optionalString o "pattern" = Some kvPattern.
Proof.
  unfold Schema.BlocklistEntrySchema. cbn [Schema.object].
  destruct (Schema.requiredString (isDatetime env) o "timestamp") as [kv1|] eqn:E1;
    [|discriminate].
  destruct (Schema.requiredString _ o "type") as [kv2|] eqn:E2; [|discriminate].
  destruct (Schema.optionalString o "serverName") as [kv3|] eqn:E3; [|discriminate].
  destruct (Schema.optionalString o "version") as [kv4|] eqn:E4; [|discriminate].
  destruct (Schema.optionalString o "pattern") as [kv5|] eqn:E5; [|discriminate].
  destruct (Schema.requiredString _ o "reason") as [kv6|] eqn:E6; [|discriminate].
  destruct (Schema.requiredString _ o "hash") as [kv7|] eqn:E7; [|discriminate].
  destruct (Schema.booleanDefault false o "allowOverride") as [kv8|] eqn:E8;
    [|discriminate].
  destruct (Schema.enumDefault _ "user" o "source") as [kv9|] eqn:E9; [|discriminate].
  intros [= <-].
  apply requiredString_Some in E1 as (s1 & _ & Ok1 & ->).
  apply requiredString_Some in E2 as (s2 & _ & Ok2 & ->).
  apply requiredString_Some in E6 as (s6 & _ & _ & ->).
  apply requiredString_Some in E7 as (s7 & G7 & _ & ->).
  apply booleanDefault_Some in E8 as (b8 & -> & _).
  apply enumDefault_Some in E9 as (s9 & -> & Ok9 & _); [|reflexivity].
  exists s1, s2, kv3, kv4, kv5, s6, s7, b8, s9.
  simpl. repeat split; auto.
Qed.

Ltac optional_cases H :=
  apply optionalString_Some in H as [[_ ->]|(? & _ & ->)].

(** A parsed entry is written to the file as it is and parses to
    itself. *)
Lemma entrySchema_idempotent (o n : Json.Object) :
  Schema.BlocklistEntrySchema env o = Some n ->
  Json.persisted n = n /\ Schema.BlocklistEntrySchema env n = Some n.
Proof.
  intros H. apply entrySchema_inv in H
    as (s1 & s2 & kv3 & kv4 & kv5 & s6 & s7 & b8 & s9
        & -> & Ok1 & Ok2 & Ok9 & _ & E3 & E4 & E5).
  unfold Schema.oneOf in *.
  optional_cases E3; optional_cases E4; optional_cases E5;
    (split; [reflexivity|]);
    unfold Schema.BlocklistEntrySchema, Schema.requiredString,
      Schema.optionalString, Schema.booleanDefault, Schema.enumDefault,
      Schema.oneOf, Schema.anyString;
    cbn [Json.get app String.eqb Ascii.eqb Bool.eqb];
    rewrite Ok1, Ok2, Ok9; reflexivity.
Qed.

Lemma field_set_hash (o : Json.Object) (h k : string) :
  k <> "hash" ->
  (forall ok, Schema.requiredString ok (Json.set o "hash" (Json.Str h)) k =
              Schema.requiredString ok o k)
  /\ Schema.optionalString (Json.set o "hash" (Json.Str h)) k =
     Schema.optionalString o k
  /\ (forall d, Schema.booleanDefault d (Json.set o "hash" (Json.Str h)) k =
                Schema.booleanDefault d o k)
  /\ (forall vs d, Schema.enumDefault vs d (Json.set o "hash" (Json.Str h)) k =
                   Schema.enumDefault vs d o k).
Proof.
  intros Hk.
  unfold Schema.requiredString, Schema.optionalString, Schema.booleanDefault,
    Schema.enumDefault.
  now rewrite (get_set_other o "hash" k (Json.Str h) Hk).
Qed.

(** The stored hash is kept by the parse, and no other is put in its
    place: whatever string stands there, the entry parses, to the same
    entry but for this string. *)
Lemma entrySchema_any_hash (o n : Json.Object) (h : string) :
  Schema.BlocklistEntrySchema env o = Some n ->
  Json.get n "hash" = Json.get o "hash"
  /\ Schema.BlocklistEntrySchema env (Json.set o "hash" (Json.Str h)) =
     Some (Json.set n "hash" (Json.Str h)).
Proof.
  intros H. pose proof H as H'. apply entrySchema_inv in H'
    as (s1 & s2 & kv3 & kv4 & kv5 & s6 & s7 & b8 & s9
        & En & Ok1 & Ok2 & Ok9 & G7 & E3 & E4 & E5).
  split.
  - rewrite G7, En.
    optional_cases E3; optional_cases E4; optional_cases E5; reflexivity.
  - revert H. unfold Schema.BlocklistEntrySchema.
    destruct (field_set_hash o h "timestamp") as (-> & _); [discriminate|].
    destruct (field_set_hash o h "type") as (-> & _); [discriminate|].
    destruct (field_set_hash o h "serverName") as (_ & -> & _); [discriminate|].
    destruct (field_set_hash o h "version") as (_ & -> & _); [discriminate|].
    destruct (field_set_hash o h "pattern") as (_ & -> & _); [discriminate|].
    destruct (field_set_hash o h "reason") as (-> & _); [discriminate|].
    destruct (field_set_hash o h "allowOverride") as (_ & _ & -> & _); [discriminate|].
    destruct (field_set_hash o h "source") as (_ & _ & _ & ->); [discriminate|].
    unfold Schema.requiredString at 4 8. rewrite get_set_same, G7.
    cbn [Schema.anyString Schema.object].
    rewrite E3, E4, E5.
    destruct (Schema.requiredString (isDatetime env) o "timestamp") as [kv1|] eqn:E1;
      [|discriminate].
    destruct (Schema.requiredString _ o "type") as [kv2|] eqn:E2; [|discriminate].
    destruct (Schema.requiredString _ o "reason") as [kv6|] eqn:E6; [|discriminate].
    destruct (Schema.booleanDefault false o "allowOverride") as [kv8|] eqn:E8;
      [|discriminate].
    destruct (Schema.enumDefault _ "user" o "source") as [kv9|] eqn:E9; [|discriminate].
    intros [= <-].
    apply requiredString_Some in E1 as (? & _ & _ & ->).
    apply requiredString_Some in E2 as (? & _ & _ & ->).
    apply requiredString_Some in E6 as (? & _ & _ & ->).
    apply booleanDefault_Some in E8 as (? & -> & _).
    apply enumDefault_Some in E9 as (? & -> & _ & _); [|reflexivity].
    optional_cases E3; optional_cases E4; optional_cases E5; reflexivity.
Qed.

Lemma array_app {A B : Type} (f : A -> option B) (l1 l2 : list A) :
  Schema.array f (l1 ++ l2)%list =
  match Schema.array f l1, Schema.array f l2 with
  | Some r1, Some r2 => Some (r1 ++ r2)%list
  | _, _ => None
  end.
Proof.
  induction l1 as [|x l1 IH]; simpl.
  - destruct (Schema.array f l2); reflexivity.
  - destruct (f x); [|reflexivity]. rewrite IH.
    destruct (Schema.array f l1), (Schema.array f l2); reflexivity.
Qed.

(** Entries that came out of a parse go through the file and the next
    parse unchanged. *)
Lemma array_idempotent (raw parsed : list Json.Object) :
  Schema.array (Schema.BlocklistEntrySchema env) raw = Some parsed ->
  Schema.array (Schema.BlocklistEntrySchema env) (map Json.persisted parsed) =
  Some parsed.
Proof.
  revert parsed. induction raw as [|o raw IH]; simpl; intros parsed.
  - now intros [= <-].
  - destruct (Schema.BlocklistEntrySchema env o) as [n|] eqn:E; [|discriminate].
    destruct (Schema.array _ raw) as [r|]; [|discriminate].
    intros [= <-]. simpl.
    destruct (entrySchema_idempotent o n E) as [-> ->].
    now rewrite (IH r eq_refl).
Qed.

End SchemaFacts.

(** *** [loadBlocklist] and [addBlocklistEntry] *)

Section LedgerFacts.

Variable env : Env.

Lemma loadBlocklist_run (w : World) :
  Storage.loadBlocklist env w =
  (match blocklistFile w with
   | None => Throw "blocklist.json: cannot read or parse"
   | Some j =>
       match Schema.BlocklistSchema env j with
       | Some b => Ok b
       | None => Throw "ZodError"
       end
   end, w).
Proof.
  unfold Storage.loadBlocklist, Eff.bind, Eff.get, Eff.ret, Eff.throw.
  destruct (blocklistFile w) as [j|]; [|reflexivity].
  destruct (Schema.BlocklistSchema env j); reflexivity.
Qed.

Lemma addBlocklistEntry_run (w : World) (j : Ledger.BlocklistJson)
  (b : Ledger.Blocklist) (entry : Json.Object) :
  blocklistFile w = Some j ->
  Schema.BlocklistSchema env j = Some b ->
  writeFileOk env (Storage.getBlocklistPath env) = true ->
  Storage.addBlocklistEntry env entry w = (Ok tt, appended env w b entry).
Proof.
  intros Hj Hb Hw. unfold Storage.addBlocklistEntry, Eff.bind.
  rewrite loadBlocklist_run, Hj, Hb.
  unfold Sys.dateNow, Storage.saveBlocklist. rewrite Hw. reflexivity.
Qed.

(** The ledger written by an append loads again, provided the new entry
    passes the schema and the clock gives dates. *)
Lemma appended_loads (w : World) (j : Ledger.BlocklistJson)
  (b : Ledger.Blocklist) (entry n : Json.Object) :
  Schema.BlocklistSchema env j = Some b ->
  isDatetime env (isoTime env (clock w)) = true ->
  Schema.BlocklistEntrySchema env
    (Json.persisted
       (Json.set entry "hash" (Json.Str (Storage.calculateHash env entry)))) = Some n ->
  exists j1,
    blocklistFile (appended env w b entry) = Some j1
    /\ Schema.BlocklistSchema env j1 =
       Some {| Ledger.version := Ledger.version b;
               Ledger.lastUpdated := isoTime env (clock w);
               Ledger.entries := (Ledger.entries b ++ [n])%list |}.
Proof.
  intros Hb Ht Hn. eexists. split; [reflexivity|].
  unfold Schema.BlocklistSchema, Ledger.toJson.
  cbn [Ledger.jsonVersion Ledger.jsonLastUpdated Ledger.jsonEntries
       Ledger.version Ledger.lastUpdated Ledger.entries].
  rewrite Ht, map_app, array_app. cbn [map Schema.array]. rewrite Hn.
  unfold Schema.BlocklistSchema in Hb.
  destruct (Ledger.jsonVersion j) as [| | |v]; try discriminate;
    destruct (Ledger.jsonLastUpdated j) as [| | |t]; try discriminate;
    destruct (isDatetime env t); try discriminate;
    destruct (Schema.array _ (Ledger.jsonEntries j)) as [es|] eqn:Ea;
    try discriminate; injection Hb as <-;
    cbn [Ledger.version Ledger.entries];
    now rewrite (array_idempotent env _ _ Ea).
Qed.

End LedgerFacts.

Section LedgerTheorems.

Variable env : Env.

Lemma keys_persisted_incl (o : Json.Object) (k : string) :
  In k (Json.keys (Json.persisted o)) -> In k (Json.keys o).
Proof.
  unfold Json.keys, Json.persisted. rewrite !in_map_iff.
  intros (kv & E & H). apply filter_In in H as [H _]. eauto.
Qed.

Lemma withoutHash_absent (o : Json.Object) :
  ~ In "hash" (Json.keys o) -> LedgerSpec.withoutHash o = o.
Proof.
  induction o as [|[k v] o IH]; simpl; intros H; [reflexivity|].
  destruct (String.eqb_spec k "hash") as [->|Hne]; simpl.
  - exfalso. apply H. now left.
  - f_equal. apply IH. intros Hin. apply H. now right.
Qed.

Lemma withoutHash_full (entry : Json.Object) (v : Json.Value) :
  ~ In "hash" (Json.keys entry) ->
  LedgerSpec.withoutHash (Json.persisted (Json.set entry "hash" v)) =
  Json.persisted entry.
Proof.
  intros H. rewrite keys_set_absent by exact H.
  unfold Json.persisted, LedgerSpec.withoutHash.
  rewrite !filter_app. 
  fold (Json.persisted entry). fold (LedgerSpec.withoutHash (Json.persisted entry)).
  rewrite withoutHash_absent
    by (intros Hin; apply H; now apply keys_persisted_incl).
  simpl. destruct v; simpl; now rewrite app_nil_r.
Qed.

Lemma array_Forall2 {A B : Type} (f : A -> option B) (l : list A) (r : list B) :
  Schema.array f l = Some r -> Forall2 (fun x y => f x = Some y) l r.
Proof.
  revert r. induction l as [|x l IH]; simpl; intros r.
  - intros [= <-]. constructor.
  - destruct (f x) as [y|] eqn:E; [|discriminate].
    destruct (Schema.array f l) as [r'|]; [|discriminate].
    intros [= <-]. constructor; auto.
Qed.

Lemma array_any_hash (h : Json.Object -> string) (raw parsed : list Json.Object) :
  Schema.array (Schema.BlocklistEntrySchema env) raw = Some parsed ->
  exists parsed',
    Schema.array (Schema.BlocklistEntrySchema env)
      (map (fun e => Json.set e "hash" (Json.Str (h e))) raw) = Some parsed'
    /\ Forall2 (fun loaded loaded' =>
                  exists stored, In stored raw /\
                    loaded' = Json.set loaded "hash" (Json.Str (h stored)))
         parsed parsed'.
Proof.
  revert parsed. induction raw as [|o raw IH]; simpl; intros parsed.
  - intros [= <-]. exists []. split; [reflexivity | constructor].
  - destruct (Schema.BlocklistEntrySchema env o) as [n|] eqn:E; [|discriminate].
    destruct (Schema.array _ raw) as [r|]; [|discriminate].
    intros [= <-]. destruct (IH r eq_refl) as (r' & Hr' & Hf).
    rewrite (proj2 (entrySchema_any_hash env o n (h o) E)), Hr'.
    eexists. split; [reflexivity|]. constructor.
    + exists o. split; [now left | reflexivity].
    + eapply Forall2_impl; [|exact Hf]. intros a c (st & Hin & ->). eauto.
Qed.

(** C4, as amended. Loading the ledger reads the file and checks it
    against the schema; it recomputes no hash. It writes nothing to the
    console and changes nothing; it returns each entry with the hash as
    stored; and when the stored hashes are replaced by any other
    strings, the load succeeds all the same, silently, and returns the
    same entries with these strings as their hashes. *)
Theorem C4_load_returns_stored_hashes_unchecked :
  (forall w, snd (Storage.loadBlocklist env w) = w)
  /\ (forall w j b (h : Json.Object -> string),
        blocklistFile w = Some j ->
        Schema.BlocklistSchema env j = Some b ->
        Storage.loadBlocklist env w = (Ok b, w)
        /\ Forall2 (fun stored loaded =>
                      Json.get loaded "hash" = Json.get stored "hash")
             (Ledger.jsonEntries j) (Ledger.entries b)
        /\ exists b',
             let w' := withLedger w (Some (LedgerSpec.tamper h j)) in
             Storage.loadBlocklist env w' = (Ok b', w')
             /\ console w' = console w
             /\ Forall2 (fun loaded loaded' =>
                           exists stored, In stored (Ledger.jsonEntries j) /\
                             loaded' = Json.set loaded "hash" (Json.Str (h stored)))
                  (Ledger.entries b) (Ledger.entries b')).
Proof.
  split.
  - intros w. now rewrite loadBlocklist_run.
  - intros w j b h Hj Hb. split; [|split].
    + now rewrite loadBlocklist_run, Hj, Hb.
    + unfold Schema.BlocklistSchema in Hb.
      destruct (Ledger.jsonVersion j) as [| | |v]; try discriminate;
        destruct (Ledger.jsonLastUpdated j) as [| | |t]; try discriminate;
        destruct (isDatetime env t); try discriminate;
        destruct (Schema.array _ (Ledger.jsonEntries j)) as [es|] eqn:Ea;
        try discriminate; injection Hb as <-; cbn [Ledger.entries];
        (eapply Forall2_impl; [|exact (array_Forall2 _ _ _ Ea)]);
        intros a c Hac; exact (proj1 (entrySchema_any_hash env a c "" Hac)).
    + unfold Schema.BlocklistSchema in Hb.
      destruct (Schema.array _ (Ledger.jsonEntries j)) as [es|] eqn:Ea.
      2:{ destruct (Ledger.jsonVersion j) as [| | |v]; try discriminate;
          destruct (Ledger.jsonLastUpdated j) as [| | |t]; try discriminate;
          destruct (isDatetime env t); discriminate. }
      destruct (array_any_hash h _ _ Ea) as (es' & Hes' & Hf).
      exists {| Ledger.version := Ledger.version b;
                Ledger.lastUpdated := Ledger.lastUpdated b;
                Ledger.entries := es' |}.
      cbn zeta. rewrite loadBlocklist_run.
      cbn [withLedger blocklistFile console Ledger.entries].
      unfold Schema.BlocklistSchema, LedgerSpec.tamper.
      cbn [Ledger.jsonVersion Ledger.jsonLastUpdated Ledger.jsonEntries].
      rewrite Hes'.
      destruct (Ledger.jsonVersion j) as [| | |v]; try discriminate;
        destruct (Ledger.jsonLastUpdated j) as [| | |t]; try discriminate;
        destruct (isDatetime env t); try discriminate;
        injection Hb as <-; cbn [Ledger.version Ledger.lastUpdated Ledger.entries];
        auto.
Qed.

(** C8. The hash of an entry is computed from the entry alone, over its
    fields in the order of their sorted names: it is "sha256:" and the
    digest of the text of the JSON object that lists the fields that
    hold a value, each once, names increasing; this text tells every
    field, so that two entries are digested as one text only when they
    agree on every field. Hence the hash is a function of the fields:
    entries with the same properties in another order have the same
    hash, and properties left [undefined] do not count. Appending one
    entry twice, at two readings of the clock, puts two entries with one
    and the same hash at the end of the ledger, and the hash stored with
    the new entry is the hash of its other stored fields. *)
Theorem C8_integrity_hash_is_canonical_and_reproducible
  (w : World) (j : Ledger.BlocklistJson) (b : Ledger.Blocklist)
  (entry n : Json.Object) :
  NoDup (Json.keys entry) ->
  ~ In "hash" (Json.keys entry) ->
  blocklistFile w = Some j ->
  Schema.BlocklistSchema env j = Some b ->
  writeFileOk env (Storage.getBlocklistPath env) = true ->
  (forall t, isDatetime env (isoTime env t) = true) ->
  Schema.BlocklistEntrySchema env
    (Json.persisted
       (Json.set entry "hash" (Json.Str (Storage.calculateHash env entry)))) = Some n ->
  let h := Storage.calculateHash env entry in
  (forall entry', Permutation entry entry' -> Storage.calculateHash env entry' = h)
  /\ Storage.calculateHash env (Json.persisted entry) = h
  /\ (forall entry',
        NoDup (Json.keys entry') ->
        (forall k, Json.get entry' k = Json.get entry k) ->
        Storage.calculateHash env entry' = h)
  /\ (exists names,
        LedgerSpec.fieldNames entry names
        /\ h = "sha256:" ++ sha256hex env (LedgerSpec.canonicalText entry names)
        /\ forall entry' names',
             LedgerSpec.fieldNames entry' names' ->
             LedgerSpec.canonicalText entry' names' =
             LedgerSpec.canonicalText entry names ->
             forall k, Json.get entry' k = Json.get entry k)
  /\ exists w1 w2 j2 old e1 e2,
       Storage.addBlocklistEntry env entry w = (Ok tt, w1)
       /\ Storage.addBlocklistEntry env entry w1 = (Ok tt, w2)
       /\ blocklistFile w2 = Some j2
       /\ Ledger.jsonEntries j2 = (old ++ [e1; e2])%list
       /\ length old = length (Ledger.entries b)
       /\ Json.get e1 "hash" = Json.Str h
       /\ Json.get e2 "hash" = Json.Str h
       /\ LedgerSpec.hashMatches env e2.
Proof.
  intros Hnd Hnh Hj Hb Hw Ht Hn h.
  split; [|split; [|split; [|split]]].
  - intros entry' Hp. symmetry. now apply calculateHash_perm.
  - now apply calculateHash_persisted.
  - intros entry' Hnd' Hget. now apply calculateHash_fields.
  - destruct (calculateHash_canonical env entry Hnd) as (names & Hnames & Eh).
    exists names. split; [exact Hnames|]. split; [exact Eh|].
    intros entry' names' Hnames' Et. now apply (canonicalText_inj _ _ names' names).
  - destruct (appended_loads env w j b entry n Hb (Ht _) Hn) as (j1 & Hj1 & Hb1).
    set (b1 := {| Ledger.version := Ledger.version b;
                  Ledger.lastUpdated := isoTime env (clock w);
                  Ledger.entries := (Ledger.entries b ++ [n])%list |}) in *.
    set (full := Json.set entry "hash" (Json.Str h)).
    assert (Hfull : Json.get (Json.persisted full) "hash" = Json.Str h).
    { rewrite get_persisted_defined; unfold full; rewrite get_set_same;
        [reflexivity | discriminate]. }
    exists (appended env w b entry), (appended env (appended env w b entry) b1 entry).
    eexists. exists (map Json.persisted (Ledger.entries b)), n, (Json.persisted full).
    split; [now apply addBlocklistEntry_run with (j := j)|].
    split; [now apply addBlocklistEntry_run with (j := j1)|].
    split; [reflexivity|].
    split.
    { cbn [Ledger.toJson Ledger.jsonEntries Ledger.entries b1].
      rewrite !map_app. cbn [map]. rewrite <- app_assoc. cbn [app].
      now rewrite (proj1 (entrySchema_idempotent env _ n Hn)). }
    split; [apply length_map|].
    split; [|split].
    + rewrite (proj1 (entrySchema_any_hash env _ n "" Hn)). exact Hfull.
    + exact Hfull.
    + unfold LedgerSpec.hashMatches. rewrite Hfull. unfold full.
      rewrite withoutHash_full by exact Hnh.
      now rewrite calculateHash_persisted.
Qed.

End LedgerTheorems.

(** ** The sync pass *)

Section SyncFacts.

Import Eff SyncSpec.

Variable env : Env.

Ltac run :=
  unfold Sys.consoleError, Sys.dateNow, Sys.mkdir, Sys.writeRepoFile,
    Sys.addRepoFile, Sys.setSearchEngine;
  unfold Eff.bind, Eff.ret, Eff.throw, Eff.tryCatch, Eff.get, Eff.modify,
    Eff.liftResult, Eff.withLocal, Eff.outer, Eff.getLocal, Eff.modifyLocal;
  cbv beta iota zeta;
  cbn [fst snd console clock configFile blocklistFile repoFiles searchEngine].

Lemma advances_refl (w : World) : advances w w 0.
Proof. unfold advances. repeat split. lia. Qed.

Lemma advances_trans (w1 w2 w3 : World) (a b : nat) :
  advances w1 w2 a -> advances w2 w3 b -> advances w1 w3 (a + b).
Proof.
  unfold advances. intros (A1 & A2 & A3 & A4) (B1 & B2 & B3 & B4).
  repeat split; try congruence. lia.
Qed.

Lemma consoleError_run (line : string) (w : World) :
  exists w', Sys.consoleError line w = (Ok tt, w')
             /\ advances w w' 0
             /\ console w' = (console w ++ [line])%list.
Proof.
  run. eexists. split; [reflexivity|]. split; [|reflexivity].
  unfold advances. cbn. repeat split. lia.
Qed.

(** A loop whose body never throws runs to the end. *)
Lemma forEach_total {S A : Type} (body : A -> M S unit) (l : list A) :
  (forall x s, exists s', body x s = (Ok tt, s')) ->
  forall s, Eff.forEach l body s =
            (Ok tt, fold_left (fun s x => snd (body x s)) l s).
Proof.
  intros Hb. induction l as [|x l IH]; intros s; [reflexivity|].
  cbn [Eff.forEach fold_left]. unfold Eff.bind.
  destruct (Hb x s) as [s' Hs']. rewrite Hs'. cbn [snd]. apply IH.
Qed.

(** One file: its documents are pushed and the loop goes on, whether
    the blob was fetched or not and whether the copy could be written
    or not. *)
Lemma fetchFile_run (owner repo branch repoPath : string) (file : TreeItem)
  (w : World) (documents : list IndexedDocument) :
  exists w',
    GitHubSync.fetchFile env owner repo branch repoPath file (w, documents) =
    (Ok tt, (w', (documents ++ fileDocuments env owner repo branch (clock w) file)%list))
    /\ advances w w' (2 * length (fileDocuments env owner repo branch (clock w) file)).
Proof.
  unfold GitHubSync.fetchFile, fileDocuments.
  destruct (GitHubSync.truthy (path file)) as [filePath|];
    [destruct (GitHubSync.truthy (sha file)) as [fileSha|]|].
  - run. destruct (getBlob env owner repo fileSha) as [text|e]; cbn [fst snd].
    + destruct (mkdirOk env _); cbn [fst snd];
        [destruct (writeFileOk env _); cbn [fst snd]|];
        (eexists; split; [reflexivity|]);
        unfold advances; cbn; repeat split; lia.
    + eexists. split; [now rewrite app_nil_r|].
      unfold advances; cbn; repeat split; lia.
  - exists w. run. split; [now rewrite app_nil_r | apply advances_refl].
  - exists w. run. split; [now rewrite app_nil_r | apply advances_refl].
Qed.

Lemma fetchFiles_run (owner repo branch repoPath : string)
  (files : list TreeItem) :
  forall (w : World) (documents : list IndexedDocument),
  exists w',
    Eff.forEach files (GitHubSync.fetchFile env owner repo branch repoPath)
      (w, documents) =
    (Ok tt,
     (w', (documents
           ++ filesDocuments env owner repo branch (clock w) files)%list))
    /\ advances w w'
         (2 * length (filesDocuments env owner repo branch (clock w) files)).
Proof.
  induction files as [|file files IH]; intros w documents.
  - exists w. cbn. rewrite app_nil_r. split; [reflexivity | apply advances_refl].
  - cbn [Eff.forEach filesDocuments]. unfold Eff.bind.
    destruct (fetchFile_run owner repo branch repoPath file w documents)
      as (w1 & -> & A1).
    set (first := fileDocuments env owner repo branch (clock w) file) in *.
    destruct (IH w1 (documents ++ first)%list) as (w2 & -> & A2).
    assert (Ec : clock w1 = (clock w + 2 * length first)%nat) by apply A1.
    rewrite Ec in *. exists w2. split.
    + now rewrite app_assoc.
    + rewrite length_app, Nat.mul_add_distr_l.
      eapply advances_trans; eassumption.
Qed.

(** [fetchFilesFromRepo] never throws and returns the batch of the
    repository. *)
Lemma fetchFilesFromRepo_run (job : Job) (w : World) :
  exists w',
    GitHubSync.fetchFilesFromRepo env (owner job) (repo job) (branch job)
      (includePatterns job) (excludePatterns job) w =
    (Ok (repoDocuments env job (clock w)), w')
    /\ advances w w' (2 * length (repoDocuments env job (clock w))).
Proof.
  unfold GitHubSync.fetchFilesFromRepo, repoDocuments, Storage.ensureRepoDir.
  run.
  destruct (mkdirOk env (Storage.getRepoPath env (owner job) (repo job)));
    run.
  - destruct (getTree env (owner job) (repo job) (branch job)) as [tree|e];
      run.
    + destruct (JsArray.filter _ tree) as [files|]; run.
      * match goal with
        | |- context [Eff.forEach files ?body (?w1, ?d)] =>
            destruct (fetchFiles_run (owner job) (repo job) (branch job)
                        (Storage.getRepoPath env (owner job) (repo job))
                        files w1 d) as (w2 & E & A)
        end.
        cbn [clock] in E, A. rewrite E. run. cbn [app].
        eexists. split; [reflexivity|].
        unfold advances in *. cbn in A |- *. exact A.
      * eexists. split; [reflexivity|]. unfold advances; cbn; repeat split; lia.
    + eexists. split; [reflexivity|]. unfold advances; cbn; repeat split; lia.
  - eexists. split; [reflexivity|]. unfold advances; cbn; repeat split; lia.
Qed.

Lemma bind_ok {S A B : Type} (m : M S A) (f : A -> M S B) (s s1 : S) (a : A) :
  m s = (Ok a, s1) -> Eff.bind m f s = f a s1.
Proof. intros H. unfold Eff.bind. now rewrite H. Qed.

Lemma reaches_quiet (w w' : World) : advances w w' 0 -> reaches env w w' [].
Proof.
  unfold advances, reaches. intros (Hc & Hs & Hf & _). cbn [fold_left].
  rewrite Hs, Hc, Nat.add_0_r. auto.
Qed.

Lemma reaches_app (w1 w2 w3 : World) (jobs1 jobs2 : list Job) :
  reaches env w1 w2 jobs1 -> reaches env w2 w3 jobs2 ->
  reaches env w1 w3 (jobs1 ++ jobs2).
Proof.
  unfold reaches. intros [H1 F1] [H2 F2]. rewrite fold_left_app, <- H1, H2.
  split; congruence.
Qed.

(** One repository of the pass: never an exception, the batch is
    upserted. *)
Lemma syncRepo_run (job : Job) (w : World) :
  exists w',
    Main.syncRepo env (owner job) (repo job) (branch job)
      (includePatterns job) (excludePatterns job) w = (Ok tt, w')
    /\ reaches env w w' [job].
Proof.
  unfold Main.syncRepo, Main.addDocuments.
  destruct (fetchFilesFromRepo_run job w) as (w1 & E & Hc & Hs & Hf & Hb).
  rewrite (bind_ok _ _ _ _ _ E). run.
  eexists. split; [reflexivity|].
  unfold reaches, stepJob. cbn. rewrite Hs, Hc, Hf. auto.
Qed.

Lemma syncRepos_run {A : Type} (jobOf : A -> Job) (l : list A) :
  forall w,
  exists w',
    Eff.forEach l
      (fun x => Main.syncRepo env (owner (jobOf x)) (repo (jobOf x))
                  (branch (jobOf x)) (includePatterns (jobOf x))
                  (excludePatterns (jobOf x))) w = (Ok tt, w')
    /\ reaches env w w' (map jobOf l).
Proof.
  induction l as [|x l IH]; intros w.
  - exists w. split; [reflexivity | apply reaches_quiet, advances_refl].
  - cbn [Eff.forEach map].
    destruct (syncRepo_run (jobOf x) w) as (w1 & E & R1).
    rewrite (bind_ok _ _ _ _ _ E).
    destruct (IH w1) as (w2 & E2 & R2). exists w2. split; [exact E2|].
    exact (reaches_app _ _ _ [jobOf x] _ R1 R2).
Qed.

Lemma syncConfigured_run (l : list Config.Repository) :
  forall w,
  exists w',
    Eff.forEach l
      (fun r =>
         if negb (Config.indexingEnabled r) then Eff.ret tt
         else Main.syncRepo env (Config.owner r) (Config.repo r) (Config.branch r)
                (Config.includePatterns r) (Config.excludePatterns r)) w
    = (Ok tt, w')
    /\ reaches env w w' (map configuredJob (filter Config.indexingEnabled l)).
Proof.
  induction l as [|r l IH]; intros w.
  - exists w. split; [reflexivity | apply reaches_quiet, advances_refl].
  - cbn [Eff.forEach filter]. destruct (Config.indexingEnabled r); cbn [negb map].
    + destruct (syncRepo_run (configuredJob r) w) as (w1 & E & R1).
      cbn [configuredJob owner repo branch includePatterns excludePatterns] in E.
      rewrite (bind_ok _ _ _ _ _ E).
      destruct (IH w1) as (w2 & E2 & R2). exists w2. split; [exact E2|].
      exact (reaches_app _ _ _ [configuredJob r] _ R1 R2).
    + unfold Eff.bind at 1. unfold Eff.ret at 1. apply IH.
Qed.

(** Discovery never throws: a failed listing gives no repository, a
    failed probe leaves its repository out. *)
Lemma discoverUserRepos_run (w : World) :
  exists w',
    GitHubSync.discoverUserRepos env w = (Ok (discovered env), w')
    /\ advances w w' 0.
Proof.
  unfold GitHubSync.discoverUserRepos, discovered.
  destruct (listForUser env) as [repos|e].
  - exists w. split; [|apply advances_refl].
    assert (H : forall acc,
              Eff.forEach repos
                (fun r =>
                   Eff.bind (Eff.outer (GitHubSync.hasCludeDirectory env (fst r) (snd r)))
                     (fun found =>
                        if found
                        then Eff.modifyLocal (fun reposWithClaude => reposWithClaude ++ [r])%list
                        else Eff.ret tt))
                (w, acc) =
              (Ok tt,
               (w, (acc ++ filter
                            (fun r =>
                               match getClaudeContent env (fst r) (snd r) with
                               | Ok _ => true
                               | Throw _ => false
                               end) repos)%list))).
    { induction repos as [|r repos IH]; intros acc.
      - cbn. now rewrite app_nil_r.
      - cbn [Eff.forEach filter]. unfold GitHubSync.hasCludeDirectory.
        unfold Eff.bind at 1. run.
        destruct (getClaudeContent env (fst r) (snd r)); run;
          rewrite IH; [now rewrite <- app_assoc | reflexivity]. }
    run. rewrite H. reflexivity.
  - run. eexists. split; [reflexivity|].
    unfold advances; cbn; repeat split; lia.
Qed.

Lemma loadConfig_run (w : World) (config : Config.KnowledgeBaseConfig) :
  configFile w = Some config -> Storage.loadConfig w = (Ok config, w).
Proof. intros H. unfold Storage.loadConfig. run. now rewrite H. Qed.

Lemma fileDocuments_failed (owner repo branch : string) (c : nat) (file : TreeItem) :
  (forall h, sha file = Some h -> exists e, getBlob env owner repo h = Throw e) ->
  fileDocuments env owner repo branch c file = [].
Proof.
  intros H. unfold fileDocuments.
  destruct (GitHubSync.truthy (path file)); [|reflexivity].
  destruct (GitHubSync.truthy (sha file)) as [h|] eqn:E; [|reflexivity].
  assert (Hs : sha file = Some h).
  { unfold GitHubSync.truthy in E. destruct (sha file) as [[|]|]; congruence. }
  destruct (H h Hs) as [e ->]. reflexivity.
Qed.

(** A file whose blob cannot be fetched is skipped, and nothing else
    changes in the batch. *)
Lemma filesDocuments_skip (owner repo branch : string) (file : TreeItem)
  (pre post : list TreeItem) :
  (forall h, sha file = Some h -> exists e, getBlob env owner repo h = Throw e) ->
  forall c,
    filesDocuments env owner repo branch c (pre ++ file :: post) =
    filesDocuments env owner repo branch c (pre ++ post).
Proof.
  intros H. induction pre as [|f pre IH]; intros c; cbn [app filesDocuments].
  - rewrite (fileDocuments_failed _ _ _ _ _ H). cbn. now rewrite Nat.add_0_r.
  - now rewrite IH.
Qed.

(** A file whose blob can be fetched has its document in the batch,
    whatever happens to the other files. *)
Lemma filesDocuments_In (owner repo branch : string) (files : list TreeItem)
  (file : TreeItem) (p h text : string) :
  In file files ->
  GitHubSync.truthy (path file) = Some p ->
  GitHubSync.truthy (sha file) = Some h ->
  getBlob env owner repo h = Ok text ->
  forall c, exists d,
    In d (filesDocuments env owner repo branch c files)
    /\ id d = owner ++ "/" ++ repo ++ "/" ++ branch ++ "/" ++ p
    /\ filePath d = p /\ content d = text.
Proof.
  intros Hin Hp Hs Hb. induction files as [|f files IH]; [contradiction|].
  intros c. cbn [filesDocuments]. destruct Hin as [->|Hin].
  - unfold fileDocuments at 1. rewrite Hp, Hs, Hb.
    eexists. split; [left; reflexivity|]. repeat split.
  - destruct (IH Hin (c + 2 * length (fileDocuments env owner repo branch c f))%nat)
      as (d & Hd & Hrest).
    exists d. split; [apply in_or_app; now right | exact Hrest].
Qed.

Lemma stepJob_skip (job : Job) (pre post : list Job)
  (state : nat * SearchEngine.Documents) :
  (forall c, repoDocuments env job c = []) ->
  fold_left (stepJob env) (pre ++ job :: post) state =
  fold_left (stepJob env) (pre ++ post) state.
Proof.
  intros H. rewrite !fold_left_app. cbn [fold_left].
  set (s := fold_left (stepJob env) pre state).
  assert (E : stepJob env s job = s).
  { unfold stepJob. rewrite H. destruct s as [c idx]. cbn. f_equal. lia. }
  now rewrite E.
Qed.

(** The pass: with the configuration loaded it ends without exception
    and has done every repository in turn. *)
Lemma syncKnowledgeBase_run (force : bool) (w : World)
  (config : Config.KnowledgeBaseConfig) :
  configFile w = Some config ->
  exists w',
    Main.syncKnowledgeBase env true force w = (Ok tt, w')
    /\ (clock w', searchEngine w') =
       fold_left (stepJob env) (passJobs env config)
         (clock w, if force then [] else searchEngine w).
Proof.
  intros Hc. unfold Main.syncKnowledgeBase. cbn [negb].
  rewrite (bind_ok _ _ _ _ _ (loadConfig_run w config Hc)).
  match goal with
  | |- exists w', Eff.bind _ ?k w = _ /\ _ =>
      assert (T : forall w0,
                exists w',
                  k tt w0 = (Ok tt, w')
                  /\ (clock w', searchEngine w') =
                     fold_left (stepJob env) (passJobs env config)
                       (clock w0, searchEngine w0))
  end.
  2:{ destruct force.
      - unfold Eff.bind at 1. unfold Eff.bind at 1. unfold Eff.get at 1.
        unfold Sys.setSearchEngine, Eff.modify. cbv beta iota.
        match goal with |- exists w', _ ?w0 = _ /\ _ => apply (T w0) end.
      - unfold Eff.bind at 1. unfold Eff.ret at 1. cbv beta iota. apply T. }
  intros w0. clear Hc w.
  unfold passJobs.
  (* user repositories *)
  assert (B1 : exists w1,
             (if Config.autoDiscoverUserRepos (Config.sync config)
              then
                Eff.bind (Sys.consoleError "Auto-discovering user repositories...")
                  (fun _ =>
                     Eff.bind (GitHubSync.discoverUserRepos env)
                       (fun userRepos =>
                          Eff.bind
                            (Sys.consoleError
                               ("Found " ++ Sys.showNat (length userRepos)
                                ++ " user repositories with .claude/ directories"))
                            (fun _ =>
                               Eff.forEach userRepos
                                 (fun r =>
                                    Main.syncRepo env (fst r) (snd r) "main"
                                      [".claude/**/*.md"; "**/*.mcp.json"]
                                      GitHubSync.defaultExcludePatterns))))
              else Eff.ret tt) w0 = (Ok tt, w1)
             /\ reaches env w0 w1
                  (if Config.autoDiscoverUserRepos (Config.sync config)
                   then map (mainJob [".claude/**/*.md"; "**/*.mcp.json"]) (discovered env)
                   else [])).
  { destruct (Config.autoDiscoverUserRepos (Config.sync config)).
    - destruct (consoleError_run "Auto-discovering user repositories..." w0)
        as (wa & Ea & Aa & _).
      rewrite (bind_ok _ _ _ _ _ Ea).
      destruct (discoverUserRepos_run wa) as (wb & Eb & Ab).
      rewrite (bind_ok _ _ _ _ _ Eb).
      destruct (consoleError_run
                  ("Found " ++ Sys.showNat (length (discovered env))
                   ++ " user repositories with .claude/ directories") wb)
        as (wc & Ec & Ac & _).
      rewrite (bind_ok _ _ _ _ _ Ec).
      destruct (syncRepos_run (mainJob [".claude/**/*.md"; "**/*.mcp.json"])
                  (discovered env) wc) as (wd & Ed & Rd).
      exists wd. split; [exact Ed|].
      apply (reaches_app w0 wc wd [] _); [|exact Rd].
      apply reaches_quiet.
      exact (advances_trans _ _ _ 0 0 (advances_trans _ _ _ 0 0 Aa Ab) Ac).
    - exists w0. split; [reflexivity | apply reaches_quiet, advances_refl]. }
  destruct B1 as (w1 & E1 & R1). rewrite (bind_ok _ _ _ _ _ E1).
  (* official and community repositories *)
  assert (B : forall (flag : bool) (line : string) (includePatterns : list string)
                (repos : list (string * string)) (wa : World),
             exists wb,
               (if flag
                then
                  Eff.bind (Sys.consoleError line)
                    (fun _ =>
                       Eff.forEach repos
                         (fun r =>
                            Main.syncRepo env (fst r) (snd r) "main" includePatterns
                              GitHubSync.defaultExcludePatterns))
                else Eff.ret tt) wa = (Ok tt, wb)
               /\ reaches env wa wb
                    (if flag then map (mainJob includePatterns) repos else [])).
  { intros [|] line inc repos wa.
    - destruct (consoleError_run line wa) as (wx & Ex & Ax & _).
      rewrite (bind_ok _ _ _ _ _ Ex).
      destruct (syncRepos_run (mainJob inc) repos wx) as (wy & Ey & Ry).
      exists wy. split; [exact Ey|].
      apply (reaches_app wa wx wy [] _); [now apply reaches_quiet | exact Ry].
    - exists wa. split; [reflexivity | apply reaches_quiet, advances_refl]. }
  destruct (B (Config.includeOfficialMCPRepos (Config.sync config))
              "Fetching official MCP repositories..."
              ["**/*.md"; "**/package.json"] GitHubSync.getOfficialMCPRepos w1)
    as (w2 & E2 & R2).
  rewrite (bind_ok _ _ _ _ _ E2).
  destruct (B (Config.includeCommunityRepos (Config.sync config))
              "Fetching community MCP repositories..."
              ["**/*.md"] GitHubSync.getCommunityMCPRepos w2)
    as (w3 & E3 & R3).
  rewrite (bind_ok _ _ _ _ _ E3).
  destruct (syncConfigured_run (Config.repositories config) w3) as (w4 & E4 & R4).
  rewrite (bind_ok _ _ _ _ _ E4).
  destruct (consoleError_run "Knowledge base sync complete" w4) as (w5 & E5 & A5 & _).
  exists w5. split; [exact E5|].
  pose proof (reaches_app _ _ _ _ _ R1
                (reaches_app _ _ _ _ _ R2
                   (reaches_app _ _ _ _ _ R3
                      (reaches_app _ _ _ _ _ R4 (reaches_quiet _ _ A5))))) as [Hfin _].
  rewrite app_nil_r in Hfin. exact Hfin.
Qed.

End SyncFacts.

(** C9. No provider failure aborts a sync pass. [fetchFilesFromRepo]
    never throws and returns the batch of its repository; the batch is
    empty when the tree cannot be listed, the directory cannot be made or
    a pattern cannot be compiled; a file whose blob cannot be fetched is
    left out of the batch and every file whose blob can be fetched is in
    it. With the configuration loaded, [syncKnowledgeBase] ends without
    exception and has upserted the batch of every repository of the
    pass, in order; a repository with an empty batch leaves the pass as
    if it were not listed. *)
Theorem C9_provider_failures_are_isolated (env : Env) :
  (forall job w, exists w',
     GitHubSync.fetchFilesFromRepo env (SyncSpec.owner job) (SyncSpec.repo job)
       (SyncSpec.branch job) (SyncSpec.includePatterns job)
       (SyncSpec.excludePatterns job) w =
     (Ok (SyncSpec.repoDocuments env job (clock w)), w'))
  /\ (forall job c,
        (exists e, getTree env (SyncSpec.owner job) (SyncSpec.repo job)
                     (SyncSpec.branch job) = Throw e)
        \/ mkdirOk env (Storage.getRepoPath env (SyncSpec.owner job) (SyncSpec.repo job))
           = false
        \/ (exists tree,
              getTree env (SyncSpec.owner job) (SyncSpec.repo job)
                (SyncSpec.branch job) = Ok tree
              /\ JsArray.filter
                   (GitHubSync.isMatchingFile (regExp env)
                      (SyncSpec.includePatterns job)
                      (SyncSpec.excludePatterns job)) tree = None) ->
        SyncSpec.repoDocuments env job c = [])
  /\ (forall owner repo branch file pre post c,
        (forall h, sha file = Some h -> exists e, getBlob env owner repo h = Throw e) ->
        SyncSpec.filesDocuments env owner repo branch c (pre ++ file :: post) =
        SyncSpec.filesDocuments env owner repo branch c (pre ++ post))
  /\ (forall owner repo branch files file p h text c,
        In file files ->
        GitHubSync.truthy (path file) = Some p ->
        GitHubSync.truthy (sha file) = Some h ->
        getBlob env owner repo h = Ok text ->
        exists d,
          In d (SyncSpec.filesDocuments env owner repo branch c files)
          /\ id d = owner ++ "/" ++ repo ++ "/" ++ branch ++ "/" ++ p
          /\ filePath d = p /\ content d = text)
  /\ (forall force w config,
        configFile w = Some config ->
        exists w',
          Main.syncKnowledgeBase env true force w = (Ok tt, w')
          /\ (clock w', searchEngine w') =
             fold_left (SyncSpec.stepJob env) (SyncSpec.passJobs env config)
               (clock w, if force then [] else searchEngine w))
  /\ (forall job pre post state,
        (forall c, SyncSpec.repoDocuments env job c = []) ->
        fold_left (SyncSpec.stepJob env) (pre ++ job :: post) state =
        fold_left (SyncSpec.stepJob env) (pre ++ post) state).
Proof.
  split; [|split; [|split; [|split; [|split]]]].
  - intros job w. destruct (fetchFilesFromRepo_run env job w) as (w' & E & _).
    eauto.
  - intros job c. unfold SyncSpec.repoDocuments.
    intros [[e ->]|[->|(tree & -> & ->)]];
      try reflexivity; now destruct (mkdirOk env _).
  - intros owner repo branch file pre post c H.
    now apply filesDocuments_skip.
  - intros owner repo branch files file p h text c.
    intros Hin Hp Hs Hb. now apply filesDocuments_In with (file := file) (h := h).
  - intros force w config. apply syncKnowledgeBase_run.
  - intros job pre post state. apply stepJob_skip.
Qed.

Lemma C9_provider_failures_are_isolated_witness :
  exists w',
    Main.syncKnowledgeBase flakyEnv true false (worldWith None (Some officialOnly))
    = (Ok tt, w')
    /\ (clock w', searchEngine w') =
       fold_left (SyncSpec.stepJob flakyEnv) (SyncSpec.passJobs flakyEnv officialOnly)
         (clock (worldWith None (Some officialOnly)),
          searchEngine (worldWith None (Some officialOnly))).
Proof.
  refine (proj1 (proj2 (proj2 (proj2 (proj2
    (C9_provider_failures_are_isolated flakyEnv)))))
    false (worldWith None (Some officialOnly)) officialOnly _).
  reflexivity.
Defined.

(** The pass of the witness: discovery fails, two of the three official
    repositories cannot be listed, one blob of the third cannot be
    fetched; the pass ends and the index holds the one document that
    could be fetched. *)
Example flaky_pass :
  exists w',
    Main.syncKnowledgeBase flakyEnv true false (worldWith None (Some officialOnly))
    = (Ok tt, w')
    /\ map fst (searchEngine w') = ["modelcontextprotocol/servers/main/docs/b.md"]
    /\ map (fun kv => content (snd kv)) (searchEngine w') = ["text of b0b"].
Proof.
  eexists. split; [vm_compute; reflexivity|]. split; reflexivity.
Qed.

(** The ledger of four entries, none of whose stored hashes is the hash
    of its fields, loads with these hashes; with every stored hash
    overwritten once more it loads again, nothing but the hashes
    changed. *)
Lemma C4_load_returns_stored_hashes_unchecked_witness :
  Storage.loadBlocklist sampleEnv (worldWith (Some mixedLedger) None)
  = (Ok mixedLoaded, worldWith (Some mixedLedger) None)
  /\ Forall2 (fun stored loaded =>
                Json.get loaded "hash" = Json.get stored "hash")
       (Ledger.jsonEntries mixedLedger) (Ledger.entries mixedLoaded)
  /\ exists b',
       let w' := withLedger (worldWith (Some mixedLedger) None)
                   (Some (LedgerSpec.tamper (fun _ => "sha256:0000") mixedLedger)) in
       Storage.loadBlocklist sampleEnv w' = (Ok b', w')
       /\ console w' = console (worldWith (Some mixedLedger) None)
       /\ Forall2 (fun loaded loaded' =>
                     exists stored, In stored (Ledger.jsonEntries mixedLedger) /\
                       loaded' = Json.set loaded "hash" (Json.Str "sha256:0000"))
            (Ledger.entries mixedLoaded) (Ledger.entries b').
Proof.
  exact (proj2 (C4_load_returns_stored_hashes_unchecked sampleEnv)
           (worldWith (Some mixedLedger) None) mixedLedger mixedLoaded
           (fun _ => "sha256:0000") eq_refl eq_refl).
Defined.

Example mixedLedger_hashes :
  map (fun e => Json.get e "hash") (Ledger.entries mixedLoaded)
  = [Json.Str "sha256:01"; Json.Str "sha256:02"; Json.Str "sha256:03";
     Json.Str "sha256:04"]
  /\ Forall (fun e => ~ LedgerSpec.hashMatches sampleEnv e)
       (Ledger.entries mixedLoaded).
Proof.
  split; [reflexivity|].
  repeat constructor; unfold LedgerSpec.hashMatches; vm_compute; discriminate.
Qed.

(** C4, as the specification words it, fails: a ledger whose only entry
    has a stored hash that is not the hash of its other fields is loaded
    with success, the entry is returned with the stored hash, and not a
    line is written to the console: nothing is flagged. *)
Lemma C4_load_counterexample :
  let w := worldWith (Some tamperedLedger) None in
  exists b e,
    Storage.loadBlocklist sampleEnv w = (Ok b, w)
    /\ Ledger.entries b = [e]
    /\ Json.get e "hash" = Json.Str "sha256:edited"
    /\ ~ LedgerSpec.hashMatches sampleEnv e
    /\ console (snd (Storage.loadBlocklist sampleEnv w)) = [].
Proof.
  cbv zeta. eexists. eexists.
  split; [vm_compute; reflexivity|].
  split; [reflexivity|]. split; [reflexivity|]. split; [|reflexivity].
  unfold LedgerSpec.hashMatches. vm_compute. discriminate.
Qed.

(** The sample entry, appended twice to the ledger of four entries. *)
Lemma C8_integrity_hash_is_canonical_and_reproducible_witness :
  (exists names,
     LedgerSpec.fieldNames sampleEntry names
     /\ Storage.calculateHash sampleEnv sampleEntry =
        "sha256:" ++ sha256hex sampleEnv (LedgerSpec.canonicalText sampleEntry names)
     /\ forall entry' names',
          LedgerSpec.fieldNames entry' names' ->
          LedgerSpec.canonicalText entry' names' =
          LedgerSpec.canonicalText sampleEntry names ->
          forall k, Json.get entry' k = Json.get sampleEntry k)
  /\ exists w1 w2 j2 old e1 e2,
       Storage.addBlocklistEntry sampleEnv sampleEntry
         (worldWith (Some mixedLedger) None) = (Ok tt, w1)
       /\ Storage.addBlocklistEntry sampleEnv sampleEntry w1 = (Ok tt, w2)
       /\ blocklistFile w2 = Some j2
       /\ Ledger.jsonEntries j2 = (old ++ [e1; e2])%list
       /\ length old = 4%nat
       /\ Json.get e1 "hash" = Json.Str (Storage.calculateHash sampleEnv sampleEntry)
       /\ Json.get e2 "hash" = Json.Str (Storage.calculateHash sampleEnv sampleEntry)
       /\ LedgerSpec.hashMatches sampleEnv e2.
Proof.
  refine (proj2 (proj2 (proj2
    (C8_integrity_hash_is_canonical_and_reproducible sampleEnv
       (worldWith (Some mixedLedger) None) mixedLedger mixedLoaded
       sampleEntry
       [ ("timestamp", Json.Str "2025-11-08T10:00:00.000Z");
         ("type", Json.Str "server");
         ("serverName", Json.Str "@malicious/mcp-server");
         ("reason", Json.Str "Security vulnerability");
         ("hash", Json.Str (Storage.calculateHash sampleEnv sampleEntry));
         ("allowOverride", Json.Bool false);
         ("source", Json.Str "user") ]
       _ _ _ _ _ _ _)))).
  - repeat constructor; simpl; intuition discriminate.
  - simpl. intuition discriminate.
  - reflexivity.
  - reflexivity.
  - reflexivity.
  - reflexivity.
  - vm_compute. reflexivity.
Defined.

(** * Further properties of the code *)

(** ** The index: [addDocuments], [getDocument], [getStats],
    [listRepositories] *)

Section IndexFacts.

Import SearchEngine.

Lemma mapSet_set (k : string) (v : IndexedDocument) (m : Documents) :
  mapSet k v m = JsMap.set m k v.
Proof. induction m as [|[k' v'] m IH]; simpl; [reflexivity|]. now rewrite IH. Qed.

Lemma jsmap_get_set {V : Type} (m : JsMap.t V) (k k' : string) (v : V) :
  JsMap.get (JsMap.set m k v) k' =
  if String.eqb k k' then Some v else JsMap.get m k'.
Proof.
  induction m as [|[k0 v0] m IH]; simpl.
  - reflexivity.
  - destruct (String.eqb_spec k0 k) as [->|Hne]; simpl.
    + destruct (String.eqb k k'); reflexivity.
    + rewrite IH. destruct (String.eqb_spec k0 k') as [->|Hne'].
      * destruct (String.eqb_spec k k'); [congruence | reflexivity].
      * reflexivity.
Qed.

Lemma jsmap_keys_set {V : Type} (m : JsMap.t V) (k : string) (v : V) :
  map fst (JsMap.set m k v) = JsSet.add (map fst m) k.
Proof.
  unfold JsSet.add. induction m as [|[k0 v0] m IH]; [reflexivity|].
  cbn [JsMap.set map fst existsb]. rewrite (String.eqb_sym k k0).
  destruct (String.eqb_spec k0 k) as [->|Hne]; [reflexivity|].
  cbn [map fst orb]. rewrite IH.
  destruct (existsb (String.eqb k) (map fst m)); reflexivity.
Qed.

Lemma existsb_eqb_In (k : string) (l : list string) :
  existsb (String.eqb k) l = true <-> In k l.
Proof.
  rewrite existsb_exists. split.
  - intros (x & Hx & E). apply String.eqb_eq in E. now subst.
  - intros H. exists k. split; [exact H | apply String.eqb_refl].
Qed.

Lemma jsset_add_In (s : JsSet.t) (k x : string) :
  In x (JsSet.add s k) <-> In x s \/ x = k.
Proof.
  unfold JsSet.add. destruct (existsb (String.eqb k) s) eqn:E.
  - apply existsb_eqb_In in E. split; [auto | intros [H| ->]; auto].
  - rewrite in_app_iff. simpl. intuition.
Qed.

Lemma jsset_add_NoDup (s : JsSet.t) (k : string) :
  NoDup s -> NoDup (JsSet.add s k).
Proof.
  unfold JsSet.add. intros H. destruct (existsb (String.eqb k) s) eqn:E; [exact H|].
  assert (Hk : ~ In k s).
  { intros Hin. apply existsb_eqb_In in Hin. congruence. }
  clear E. induction H as [|x s Hx Hs IH]; simpl.
  - constructor; [intros [] | constructor].
  - constructor.
    + rewrite in_app_iff. simpl. intros [H1|[H1|[]]]; [auto|].
      apply Hk. now left.
    + apply IH. intros Hin. apply Hk. now right.
Qed.

Lemma addDocuments_cons (this : Documents) (d : IndexedDocument)
  (docs : list IndexedDocument) :
  addDocuments this (d :: docs) = addDocuments (mapSet (id d) d this) docs.
Proof. reflexivity. Qed.

Lemma find_snoc {A : Type} (f : A -> bool) (l : list A) (x : A) :
  find f (l ++ [x]) =
  match find f l with
  | Some y => Some y
  | None => if f x then Some x else None
  end.
Proof.
  induction l as [|y l IH]; simpl; [reflexivity|].
  destruct (f y); [reflexivity | exact IH].
Qed.

End IndexFacts.

(** A batch that does not hold an id leaves its document alone. *)
Lemma addDocuments_get_other
  (this : SearchEngine.Documents) (docs : list IndexedDocument) (k : string) :
  (forall d, In d docs -> id d <> k) ->
  SearchEngine.getDocument (SearchEngine.addDocuments this docs) k =
  SearchEngine.getDocument this k.
Proof.
  revert this. induction docs as [|d docs IH]; intros this Hk; [reflexivity|].
  rewrite addDocuments_cons, IH by (intros d' Hd'; apply Hk; now right).
  unfold SearchEngine.getDocument. rewrite mapSet_set, jsmap_get_set.
  destruct (String.eqb_spec (id d) k) as [E|_]; [|reflexivity].
  exfalso. exact (Hk d (or_introl eq_refl) E).
Qed.

(** X1. After [addDocuments], [getDocument] of an id gives the last
    document of the batch that has this id, and what it gave before
    when the batch has none: a batch overwrites by id, and within a
    batch the later document wins. *)
Theorem addDocuments_then_getDocument
  (this : SearchEngine.Documents) (docs : list IndexedDocument) (k : string) :
  SearchEngine.getDocument (SearchEngine.addDocuments this docs) k =
  match find (fun d => String.eqb (id d) k) (rev docs) with
  | Some d => Some d
  | None => SearchEngine.getDocument this k
  end.
Proof.
  revert this. induction docs as [|d docs IH]; intros this; [reflexivity|].
  rewrite addDocuments_cons, IH. cbn [rev]. rewrite find_snoc.
  destruct (find _ (rev docs)); [reflexivity|].
  unfold SearchEngine.getDocument. rewrite mapSet_set, jsmap_get_set.
  destruct (String.eqb (id d) k); reflexivity.
Qed.

Section IndexOrder.

Import SearchEngine.

Lemma mapSet_filed (d : IndexedDocument) (m : Documents) :
  Forall (fun kv => fst kv = id (snd kv)) m ->
  Forall (fun kv => fst kv = id (snd kv)) (mapSet (id d) d m).
Proof.
  induction 1 as [|[k' v'] m Hkv Hm IH]; simpl.
  - constructor; [reflexivity | constructor].
  - destruct (String.eqb k' (id d)); constructor; auto.
Qed.

Lemma addDocuments_filed (this : Documents) (docs : list IndexedDocument) :
  Forall (fun kv => fst kv = id (snd kv)) this ->
  Forall (fun kv => fst kv = id (snd kv)) (addDocuments this docs).
Proof.
  revert this. induction docs as [|d docs IH]; intros this H; [exact H|].
  rewrite addDocuments_cons. apply IH. now apply mapSet_filed.
Qed.

Lemma addDocuments_keys (this : Documents) (docs : list IndexedDocument) :
  exists fresh,
    map fst (addDocuments this docs) = (map fst this ++ fresh)%list
    /\ NoDup fresh
    /\ (forall k, In k fresh <-> In k (map id docs) /\ ~ In k (map fst this)).
Proof.
  revert this. induction docs as [|d docs IH]; intros this.
  - exists []. rewrite app_nil_r. repeat split; try constructor; try tauto.
  - rewrite addDocuments_cons.
    destruct (IH (mapSet (id d) d this)) as (fresh & Hk & Hnd & Hin).
    rewrite mapSet_keys in Hk, Hin.
    destruct (existsb (String.eqb (id d)) (map fst this)) eqn:E.
    + apply existsb_eqb_In in E. exists fresh.
      split; [exact Hk | split; [exact Hnd|]]. intros k. rewrite Hin. simpl.
      split; [tauto|]. intros [[<-|Hd] Hn]; [contradiction | tauto].
    + assert (Hd : ~ In (id d) (map fst this)).
      { intros H. apply existsb_eqb_In in H. congruence. }
      exists (id d :: fresh). rewrite Hk, <- app_assoc.
      split; [reflexivity | split].
      * constructor; [|exact Hnd]. intros Hf. apply Hin in Hf as [_ Hf].
        apply Hf. apply in_or_app. right. now left.
      * intros k. simpl. rewrite Hin, in_app_iff. simpl. split.
        -- intros [<-|[Hf Hn]]; [tauto|]. tauto.
        -- intros [[<-|Hf] Hn]; [now left|].
           destruct (string_dec (id d) k) as [->|Hne]; [now left|]. right.
           tauto.
Qed.

End IndexOrder.

(** X2. [addDocuments] keeps the documents already indexed at their
    place in the order of iteration and puts every id that is new once,
    behind them; it keeps the ids pairwise distinct and every document
    filed under its own id. *)
Theorem addDocuments_keeps_iteration_order
  (this : SearchEngine.Documents) (docs : list IndexedDocument) :
  (exists fresh,
     map fst (SearchEngine.addDocuments this docs) = (map fst this ++ fresh)%list
     /\ NoDup fresh
     /\ (forall k, In k fresh <-> In k (map id docs) /\ ~ In k (map fst this)))
  /\ (NoDup (map fst this) ->
      NoDup (map fst (SearchEngine.addDocuments this docs)))
  /\ (Forall (fun kv => fst kv = id (snd kv)) this ->
      Forall (fun kv => fst kv = id (snd kv)) (SearchEngine.addDocuments this docs)).
Proof.
  split; [apply addDocuments_keys | split; [|apply addDocuments_filed]].
  intros Hnd. destruct (addDocuments_keys this docs) as (fresh & -> & Hf & Hin).
  apply NoDup_app; auto. intros k Hk Hk'. apply Hin in Hk'. tauto.
Qed.

Section CountFacts.

Context {A : Type}.
Variable keyOf : A -> string.
Variable step : JsMap.t Z -> A -> JsMap.t Z.
Hypothesis step_eq : forall m x,
  step m x = JsMap.set m (keyOf x) (JsMap.getOrZero m (keyOf x) + 1)%Z.

Lemma counts_get (l : list A) (m : JsMap.t Z) (k : string) :
  JsMap.get (fold_left step l m) k =
  match filter (fun x => String.eqb (keyOf x) k) l with
  | [] => JsMap.get m k
  | found => Some (JsMap.getOrZero m k + Z.of_nat (length found))%Z
  end.
Proof.
  revert m. induction l as [|x l IH]; intros m; [reflexivity|].
  cbn [fold_left]. rewrite IH, step_eq. cbn [filter].
  unfold JsMap.getOrZero. rewrite !jsmap_get_set.
  destruct (String.eqb_spec (keyOf x) k) as [->|Hne].
  - destruct (filter _ l) as [|y r]; cbn [length]; [f_equal; lia|].
    f_equal. lia.
  - reflexivity.
Qed.

Lemma counts_keys (l : list A) (m : JsMap.t Z) :
  map fst (fold_left step l m) = fold_left JsSet.add (map keyOf l) (map fst m).
Proof.
  revert m. induction l as [|x l IH]; intros m; [reflexivity|].
  cbn [fold_left map]. now rewrite IH, step_eq, jsmap_keys_set.
Qed.

Lemma set_sum (m : JsMap.t Z) (k : string) :
  fold_right Z.add 0%Z (map snd (JsMap.set m k (JsMap.getOrZero m k + 1)%Z)) =
  (fold_right Z.add 0%Z (map snd m) + 1)%Z.
Proof.
  unfold JsMap.getOrZero. induction m as [|[k' v'] m IH]; [reflexivity|].
  cbn [JsMap.set JsMap.get]. destruct (String.eqb k' k); cbn [map snd fold_right].
  - lia.
  - rewrite IH. lia.
Qed.

Lemma counts_sum (l : list A) (m : JsMap.t Z) :
  fold_right Z.add 0%Z (map snd (fold_left step l m)) =
  (fold_right Z.add 0%Z (map snd m) + Z.of_nat (length l))%Z.
Proof.
  revert m. induction l as [|x l IH]; intros m.
  - simpl. lia.
  - cbn [fold_left]. rewrite IH, step_eq, set_sum. cbn [length]. lia.
Qed.

End CountFacts.

Section SetFacts.

Lemma adds_In (l : list string) (s : JsSet.t) (k : string) :
  In k (fold_left JsSet.add l s) <-> In k s \/ In k l.
Proof.
  revert s. induction l as [|x l IH]; intros s; simpl; [tauto|].
  rewrite IH, jsset_add_In. intuition.
Qed.

Lemma adds_NoDup (l : list string) (s : JsSet.t) :
  NoDup s -> NoDup (fold_left JsSet.add l s).
Proof.
  revert s. induction l as [|x l IH]; intros s H; simpl; [exact H|].
  apply IH. now apply jsset_add_NoDup.
Qed.

End SetFacts.

Section StatsFacts.

Import SearchEngine.

Lemma statsStep_fold (docs : list IndexedDocument) (s : JsSet.t) (m : JsMap.t Z) :
  fold_left statsStep docs (s, m) =
  (fold_left JsSet.add (map repoKey docs) s,
   fold_left
     (fun m d =>
        JsMap.set m (fileType (metadata d))
          (JsMap.getOrZero m (fileType (metadata d)) + 1)%Z)
     docs m).
Proof.
  revert s m. induction docs as [|d docs IH]; intros s m; [reflexivity|].
  cbn [fold_left map]. unfold statsStep at 2. cbn [fst snd]. apply IH.
Qed.

End StatsFacts.

(** X3. In the value of [getStats] the map [fileTypes] has one entry
    per file type that occurs, holding the number of documents of this
    type, and no entry for a type that does not occur; the counts add
    up to [totalDocuments]. *)
Theorem getStats_fileTypes_count_documents (this : SearchEngine.Documents) :
  let stats := SearchEngine.getStats this in
  let ofType (t : string) :=
    filter (fun d => String.eqb (fileType (metadata d)) t)
      (SearchEngine.values this) in
  NoDup (map fst (SearchEngine.fileTypes stats))
  /\ (forall t,
        JsMap.get (SearchEngine.fileTypes stats) t =
        match ofType t with
        | [] => None
        | found => Some (Z.of_nat (length found))
        end)
  /\ fold_right Z.add 0%Z (map snd (SearchEngine.fileTypes stats)) =
     SearchEngine.totalDocuments stats.
Proof.
  intros stats ofType. unfold stats, SearchEngine.getStats.
  rewrite statsStep_fold.
  cbn [SearchEngine.fileTypes SearchEngine.totalDocuments snd].
  split; [|split].
  - rewrite (counts_keys (fun d => fileType (metadata d))) by reflexivity.
    apply adds_NoDup. constructor.
  - intros t.
    rewrite (counts_get (fun d => fileType (metadata d))) by reflexivity.
    unfold ofType. destruct (filter _ _); reflexivity.
  - rewrite (counts_sum (fun d => fileType (metadata d))) by reflexivity.
    unfold SearchEngine.values. now rewrite length_map.
Qed.

Section RepoFacts.

Import SearchEngine.

Lemma adds_length (l : list string) (s : JsSet.t) :
  (length (fold_left JsSet.add l s) <= length s + length l)%nat.
Proof.
  revert s. induction l as [|x l IH]; intros s; simpl; [lia|].
  specialize (IH (JsSet.add s x)). unfold JsSet.add in *.
  destruct (existsb (String.eqb x) s); [lia|].
  rewrite length_app in IH. simpl in IH. lia.
Qed.

Lemma noSlash_cons (c : ascii) (s : string) :
  JS.includes (String c s) "/" = false ->
  c <> "/"%char /\ JS.includes s "/" = false.
Proof.
  intros H. split.
  - intros ->. enough (E : JS.includes (String "/" s) "/" = true) by congruence.
    apply includes_iff. exists "", s. reflexivity.
  - destruct (JS.includes s "/") eqn:E; [|reflexivity].
    apply includes_iff in E as (a & b & ->).
    enough (E : JS.includes (String c (a ++ "/" ++ b)) "/" = true) by congruence.
    apply includes_iff. exists (String c a), b. reflexivity.
Qed.

Lemma prefix_slash (c : ascii) (s : string) :
  String.prefix "/" (String c s) = if Ascii.eqb c "/" then true else false.
Proof.
  cbn [String.prefix]. destruct (ascii_dec "/" c) as [<-|Hne].
  - rewrite Ascii.eqb_refl. apply prefix_empty.
  - destruct (Ascii.eqb_spec c "/"); [congruence | reflexivity].
Qed.

Lemma splitScan_noSlash (cur s : string) :
  JS.includes s "/" = false -> JS.splitScan "/" 0 cur s = [cur ++ s].
Proof.
  revert cur. induction s as [|c s IH]; intros cur H.
  - simpl. now rewrite append_empty_r.
  - apply noSlash_cons in H as [Hc Hs]. cbn [JS.splitScan].
    rewrite prefix_slash. destruct (Ascii.eqb_spec c "/"); [contradiction|].
    rewrite IH by exact Hs. now rewrite append_assoc.
Qed.

Lemma splitScan_slash (cur s t : string) :
  JS.includes s "/" = false ->
  JS.splitScan "/" 0 cur (s ++ "/" ++ t) = (cur ++ s) :: JS.splitScan "/" 0 "" t.
Proof.
  revert cur. induction s as [|c s IH]; intros cur H.
  - cbn [append JS.splitScan]. rewrite prefix_slash. simpl.
    now rewrite append_empty_r.
  - apply noSlash_cons in H as [Hc Hs]. cbn [append JS.splitScan].
    rewrite prefix_slash. destruct (Ascii.eqb_spec c "/"); [contradiction|].
    rewrite IH by exact Hs. now rewrite append_assoc.
Qed.

(** Cutting the key of a repository at the slash gives back the owner
    and the name, when neither holds a slash. *)
Lemma split_repoKey (o n : string) :
  JS.includes o "/" = false -> JS.includes n "/" = false ->
  JS.split (o ++ "/" ++ n) "/" = [o; n].
Proof.
  intros Ho Hn. unfold JS.split.
  rewrite splitScan_slash by exact Ho. now rewrite splitScan_noSlash.
Qed.

Lemma get_In_NoDup {V : Type} (m : JsMap.t V) (k : string) (v : V) :
  NoDup (map fst m) -> (In (k, v) m <-> JsMap.get m k = Some v).
Proof.
  induction m as [|[k' v'] m IH]; simpl; intros Hnd.
  - split; [contradiction | discriminate].
  - inversion Hnd as [|? ? Hk' Hm]; subst.
    destruct (String.eqb_spec k' k) as [->|Hne].
    + split.
      * intros [[= ->]|Hin]; [reflexivity|].
        exfalso. apply Hk'. apply in_map_iff. now exists (k, v).
      * intros [= ->]. now left.
    + rewrite <- IH by exact Hm. split.
      * intros [[= -> ->]|Hin]; [contradiction | exact Hin].
      * auto.
Qed.

Lemma repoMap_keys (docs : list IndexedDocument) :
  map fst (fold_left repoMapStep docs []) =
  fold_left JsSet.add (map repoKey docs) [].
Proof. now rewrite (counts_keys repoKey) by reflexivity. Qed.

End RepoFacts.

(** X4. In the value of [getStats] the set [repositories] holds the
    key [owner/name] of every document, each once, and nothing else; it
    has at most [totalDocuments] elements. *)
Theorem getStats_repositories_are_distinct_keys (this : SearchEngine.Documents) :
  let stats := SearchEngine.getStats this in
  NoDup (SearchEngine.repositories stats)
  /\ (forall k,
        In k (SearchEngine.repositories stats) <->
        exists d, In d (SearchEngine.values this)
                  /\ k = repoOwner d ++ "/" ++ repoName d)
  /\ (Z.of_nat (length (SearchEngine.repositories stats))
      <= SearchEngine.totalDocuments stats)%Z.
Proof.
  intros stats. unfold stats, SearchEngine.getStats.
  rewrite statsStep_fold.
  cbn [SearchEngine.repositories SearchEngine.totalDocuments fst].
  split; [|split].
  - apply adds_NoDup. constructor.
  - intros k. rewrite adds_In, in_map_iff. unfold SearchEngine.repoKey.
    split.
    + intros [[]|(d & <- & Hd)]. eauto.
    + intros (d & Hd & ->). right. eauto.
  - pose proof (adds_length (map SearchEngine.repoKey (SearchEngine.values this)) []) as H.
    unfold SearchEngine.values in *. rewrite !length_map in H. simpl in H. lia.
Qed.

(** X5. [listRepositories] and [getStats] agree: as many repositories
    are listed as [repositories] has elements, the file counts add up to
    [totalDocuments], and no listed repository has a count below one. *)
Theorem listRepositories_agrees_with_getStats (this : SearchEngine.Documents) :
  let listed := SearchEngine.listRepositories this in
  let stats := SearchEngine.getStats this in
  length listed = length (SearchEngine.repositories stats)
  /\ fold_right Z.add 0%Z (map SearchEngine.fileCount listed) =
     SearchEngine.totalDocuments stats
  /\ Forall (fun e => (1 <= SearchEngine.fileCount e)%Z) listed.
Proof.
  intros listed stats. unfold listed, stats, SearchEngine.listRepositories,
    SearchEngine.getStats.
  rewrite statsStep_fold.
  cbn [SearchEngine.repositories SearchEngine.totalDocuments fst].
  split; [|split].
  - rewrite length_map, <- repoMap_keys. now rewrite length_map.
  - rewrite map_map. cbn [SearchEngine.repositoryInfo SearchEngine.fileCount].
    rewrite (counts_sum SearchEngine.repoKey) by reflexivity.
    unfold SearchEngine.values. now rewrite length_map.
  - apply Forall_forall. intros e He. apply in_map_iff in He as ([k c] & <- & Hkc).
    cbn [SearchEngine.repositoryInfo SearchEngine.fileCount snd].
    apply get_In_NoDup in Hkc.
    2:{ rewrite repoMap_keys. apply adds_NoDup. constructor. }
    rewrite (counts_get SearchEngine.repoKey) in Hkc by reflexivity.
    destruct (filter _ _) as [|d r]; [discriminate|].
    cbn [JsMap.getOrZero JsMap.get length] in Hkc. injection Hkc as <-. lia.
Qed.

Section ListFacts.

Import SearchEngine.

Lemma repoKey_eqb (d d0 : IndexedDocument) :
  slashFree d -> slashFree d0 ->
  String.eqb (repoKey d) (repoKey d0) =
  String.eqb (repoOwner d) (repoOwner d0) && String.eqb (repoName d) (repoName d0).
Proof.
  intros [Ho Hn] [Ho0 Hn0]. unfold repoKey.
  destruct (String.eqb_spec (repoOwner d ++ "/" ++ repoName d)
              (repoOwner d0 ++ "/" ++ repoName d0)) as [E|E].
  - apply (f_equal (fun k => JS.split k "/")) in E.
    rewrite !split_repoKey in E by assumption. injection E as -> ->.
    now rewrite !String.eqb_refl.
  - destruct (String.eqb_spec (repoOwner d) (repoOwner d0)) as [E1|]; [|reflexivity].
    destruct (String.eqb_spec (repoName d) (repoName d0)) as [E2|]; [|reflexivity].
    exfalso. apply E. now rewrite E1, E2.
Qed.

Lemma repoMap_In (docs : list IndexedDocument) (k : string) (c : Z) :
  In (k, c) (fold_left repoMapStep docs []) <->
  filter (fun d => String.eqb (repoKey d) k) docs <> []
  /\ c = Z.of_nat (length (filter (fun d => String.eqb (repoKey d) k) docs)).
Proof.
  rewrite get_In_NoDup by (rewrite repoMap_keys; apply adds_NoDup; constructor).
  rewrite (counts_get repoKey) by reflexivity.
  destruct (filter _ docs) as [|d r]; cbn [JsMap.get JsMap.getOrZero].
  - split; [discriminate | intros [H _]; now contradiction H].
  - split.
    + intros [= <-]. split; [discriminate | reflexivity].
    + intros [_ ->]. reflexivity.
Qed.

Lemma filter_nonempty {A : Type} (f : A -> bool) (l : list A) :
  filter f l <> [] <-> exists x, In x l /\ f x = true.
Proof.
  split.
  - destruct (filter f l) as [|x r] eqn:E; [intros H; now contradiction H|].
    intros _. exists x. apply filter_In. rewrite E. now left.
  - intros (x & Hx & Hf) E.
    assert (Hin : In x (filter f l)) by (apply filter_In; auto).
    now rewrite E in Hin.
Qed.

End ListFacts.

(** X6. When no owner and no repository name holds a slash,
    [listRepositories] lists each repository of the index once, under
    its owner and its name as the documents have them, with the number
    of its documents: cutting the key at the slash undoes the joining. *)
Theorem listRepositories_gives_back_owner_and_name
  (this : SearchEngine.Documents) :
  Forall (fun d => JS.includes (repoOwner d) "/" = false
                   /\ JS.includes (repoName d) "/" = false)
    (SearchEngine.values this) ->
  let inRepo (o n : string) :=
    filter (fun d => String.eqb (repoOwner d) o && String.eqb (repoName d) n)
      (SearchEngine.values this) in
  NoDup (map (fun e => (SearchEngine.owner e, SearchEngine.repo e))
           (SearchEngine.listRepositories this))
  /\ forall e,
       In e (SearchEngine.listRepositories this) <->
       exists o n,
         inRepo o n <> []
         /\ e = {| SearchEngine.owner := Some o;
                   SearchEngine.repo := Some n;
                   SearchEngine.fileCount := Z.of_nat (length (inRepo o n)) |}.
Proof.
  intros Hfree inRepo. unfold SearchEngine.listRepositories.
  set (docs := SearchEngine.values this) in *.
  set (repoMap := fold_left SearchEngine.repoMapStep docs []).
  rewrite Forall_forall in Hfree.
  assert (Hkey : forall k c, In (k, c) repoMap ->
            exists d, In d docs /\ k = SearchEngine.repoKey d
                      /\ c = Z.of_nat (length (inRepo (repoOwner d) (repoName d)))).
  { intros k c H. apply repoMap_In in H as [Hne ->].
    apply filter_nonempty in Hne as (d & Hd & E). apply String.eqb_eq in E.
    exists d. split; [exact Hd | split; [now symmetry|]].
    do 2 f_equal. subst k. apply filter_ext_in. intros d' Hd'.
    apply repoKey_eqb; apply Hfree; assumption. }
  assert (Hinfo : forall d c, In d docs ->
            SearchEngine.repositoryInfo (SearchEngine.repoKey d, c) =
            {| SearchEngine.owner := Some (repoOwner d);
               SearchEngine.repo := Some (repoName d);
               SearchEngine.fileCount := c |}).
  { intros d c Hd. unfold SearchEngine.repositoryInfo, SearchEngine.repoKey.
    cbn [fst snd]. destruct (Hfree d Hd) as [Ho Hn].
    now rewrite split_repoKey. }
  split.
  - rewrite map_map. apply NoDup_map_NoDup_ForallPairs.
    + intros [k c] [k' c'] H H' E.
      destruct (Hkey k c H) as (d & Hd & -> & ->).
      destruct (Hkey k' c' H') as (d' & Hd' & -> & ->).
      rewrite !Hinfo in E by assumption.
      cbn [SearchEngine.owner SearchEngine.repo] in E.
      injection E as E1 E2. unfold SearchEngine.repoKey. now rewrite E1, E2.
    + apply (NoDup_map_inv fst). unfold repoMap. rewrite repoMap_keys.
      apply adds_NoDup. constructor.
  - intros e. rewrite in_map_iff. split.
    + intros ([k c] & <- & H). destruct (Hkey k c H) as (d & Hd & -> & ->).
      exists (repoOwner d), (repoName d). split; [|now apply Hinfo].
      apply filter_nonempty. exists d. split; [exact Hd|].
      now rewrite !String.eqb_refl.
    + intros (o & n & Hne & ->).
      apply filter_nonempty in Hne as (d & Hd & E).
      apply andb_true_iff in E as [Eo En].
      apply String.eqb_eq in Eo, En. subst o n.
      exists (SearchEngine.repoKey d,
              Z.of_nat (length (inRepo (repoOwner d) (repoName d)))).
      split; [now apply Hinfo|].
      apply repoMap_In. split.
      * apply filter_nonempty. exists d. split; [exact Hd | apply String.eqb_refl].
      * do 2 f_equal. apply filter_ext_in. intros d' Hd'. symmetry.
        apply repoKey_eqb; apply Hfree; assumption.
Qed.

Section SnippetFacts.

Lemma substring_length_le (n m : nat) (s : string) :
  (String.length (String.substring n m s) <= m)%nat.
Proof.
  revert n m. induction s as [|c s IH]; intros [|n] [|m]; simpl; try lia.
  - specialize (IH 0%nat m). lia.
  - apply IH.
  - apply IH.
Qed.

Lemma substring_split (a n1 n2 : nat) (s : string) :
  String.substring a (n1 + n2) s =
  String.substring a n1 s ++ String.substring (a + n1) n2 s.
Proof.
  revert a n1. induction s as [|c s IH]; intros a n1.
  - destruct a, n1, n2; reflexivity.
  - destruct a as [|a].
    + destruct n1 as [|n1]; [reflexivity|].
      cbn [Nat.add String.substring append]. f_equal. apply (IH 0%nat).
    + cbn [Nat.add String.substring]. apply IH.
Qed.

Lemma substring_prefix (n : nat) (s : string) :
  exists after, s = String.substring 0 n s ++ after.
Proof.
  revert n. induction s as [|c s IH]; intros [|n]; simpl.
  - now exists "".
  - now exists "".
  - now exists (String c s).
  - destruct (IH n) as [after E]. exists after. now f_equal.
Qed.

(** A substring is a piece of the string. *)
Lemma substring_piece (a n : nat) (s : string) :
  exists before after, s = before ++ String.substring a n s ++ after.
Proof.
  revert s. induction a as [|a IH]; intros s.
  - destruct (substring_prefix n s) as [after E]. now exists "", after.
  - destruct s as [|c s].
    + exists "", "". reflexivity.
    + destruct (IH s) as (before & after & E).
      exists (String c before), after. simpl. now f_equal.
Qed.

End SnippetFacts.

(** X7. The number of results of [search]. [maxResults] is a number,
    and its fraction does not count: when it is not negative there are
    [floor maxResults] results, or as many as there are documents that
    contain the query when these are fewer, so 2.5 gives two results at
    most; when it is -1 or less its integer part says how many results
    are missing at the end of the sorted sequence; between -1 and 1
    there is no result. *)
Theorem search_length_is_bounded_by_maxResults
  (this : SearchEngine.Documents) (query : string) (maxResults : Q) :
  let matching :=
    filter (fun d => JS.includes (JS.toLowerCase (content d)) (JS.toLowerCase query))
      (SearchEngine.values this) in
  let results := SearchEngine.search this query maxResults in
  ((0 <= maxResults)%Q ->
   length results = Nat.min (Z.to_nat (Qfloor maxResults)) (length matching)
   /\ results = SearchEngine.search this query (inject_Z (Qfloor maxResults)))
  /\ ((maxResults <= -1)%Q ->
      length results =
      (length matching - Z.to_nat (- Qceiling maxResults))%nat)
  /\ ((-1 < maxResults)%Q -> (maxResults < 1)%Q -> results = [])
  /\ (forall n : Z,
        Z.of_nat (length (SearchEngine.search this query (inject_Z n))) =
        if (n <? 0)%Z
        then Z.max 0 (Z.of_nat (length matching) + n)
        else Z.min n (Z.of_nat (length matching))).
Proof.
  intros matching results.
  assert (E : length (JS.sort SearchEngine.byScore
                        (SearchEngine.collect (JS.toLowerCase query)
                           (SearchEngine.values this))) = length matching).
  { rewrite (Permutation_length (sort_perm score _)).
    unfold matching. rewrite <- collect_documents. now rewrite length_map. }
  assert (Hz : forall n, JS.toIntegerOrInfinity (inject_Z n) = n).
  { intros n. unfold JS.toIntegerOrInfinity. simpl. apply Z.quot_1_r. }
  unfold results, SearchEngine.search. split; [|split; [|split]].
  - intros Hpos. rewrite Hz, toIntegerOrInfinity_nonneg by exact Hpos.
    split; [|reflexivity].
    assert (H0 : (0 <= Qfloor maxResults)%Z).
    { rewrite <- (Qfloor_Z 0). now apply Qfloor_resp_le. }
    now rewrite arraySlice_length, E by exact H0.
  - intros Hneg.
    assert (Hlt : (maxResults < 0)%Q) by lra.
    rewrite toIntegerOrInfinity_neg by exact Hlt.
    assert (H0 : (Qceiling maxResults <= -1)%Z).
    { rewrite <- (Qceiling_Z (-1)). now apply Qceiling_resp_le. }
    rewrite arraySlice_back, length_firstn, E by lia. lia.
  - intros H1 H2. rewrite toIntegerOrInfinity_small by assumption.
    now rewrite arraySlice_front.
  - intros n. rewrite Hz, arraySlice_firstn, length_firstn, E.
    unfold JS.clampIndex. destruct (n <? 0)%Z eqn:Hn; lia.
Qed.

(** X8. The snippet of a result is a piece of the content itself, not
    of its lower-cased copy, of at most 300 code units and between two
    ellipsis markers, so at most 306 code units in all. The offset of
    the match is taken in the lower-cased copy: when lower-casing keeps
    the length of this content and commutes with cutting a piece out of
    it, as it does on U+0000..U+00FF, and the lower-cased query has at
    most 200 code units, then the piece, lower-cased, contains the
    lower-cased query. *)
Theorem snippet_is_a_short_piece_of_the_content
  (this : SearchEngine.Documents) (query : string) (maxResults : Q)
  (r : SearchResult) :
  In r (SearchEngine.search this query maxResults) ->
  exists before piece after,
    content (document r) = before ++ piece ++ after
    /\ snippet r = "..." ++ piece ++ "..."
    /\ (String.length piece <= 300)%nat
    /\ (String.length (snippet r) <= 306)%nat
    /\ ((String.length (JS.toLowerCase query) <= 200)%nat ->
        String.length (JS.toLowerCase (content (document r))) =
        String.length (content (document r)) ->
        (forall a n,
           JS.toLowerCase (String.substring a n (content (document r))) =
           String.substring a n (JS.toLowerCase (content (document r)))) ->
        JS.includes (JS.toLowerCase piece) (JS.toLowerCase query) = true).
Proof.
  intros Hr. apply search_In in Hr as (d & _ & Hd).
  apply searchDocument_Some in Hd as (i & Hi & -> & _ & ->).
  unfold Spec.ellipsis, Spec.window.
  set (c := content d) in *.
  set (from := Z.to_nat (Z.max 0 (Z.of_nat i - 100))).
  set (n := Z.to_nat (Z.min (JS.len c) (Z.of_nat i + 200) - Z.max 0 (Z.of_nat i - 100))).
  destruct (substring_piece from n c) as (before & after & Ec).
  exists before, (String.substring from n c), after.
  pose proof (substring_length_le from n c) as Hlen.
  assert (Hn : (n <= 300)%nat) by (unfold n; lia).
  split; [exact Ec|]. split; [reflexivity|]. split; [lia|]. split.
  - rewrite !append_length. change (String.length "...") with 3%nat. lia.
  - intros Hq Hsame Hcut. pose proof (index0_bound _ _ _ Hi) as Hb.
    pose proof (index_correct1 _ _ _ _ Hi) as Ho.
    rewrite Hsame in Hb.
    set (m := String.length (JS.toLowerCase query)) in *.
    assert (En : n = ((i - from) + (m + (n - (i - from) - m)))%nat).
    { unfold n, from, JS.len in *. lia. }
    assert (Ei : (from + (i - from) = i)%nat) by (unfold from; lia).
    apply includes_iff. rewrite Hcut.
    exists (String.substring from (i - from) (JS.toLowerCase c)),
      (String.substring (i + m) (n - (i - from) - m) (JS.toLowerCase c)).
    rewrite En at 1. rewrite !substring_split, Ei.
    now rewrite Ho.
Qed.

(** ** The ledger: [isBlocked], [saveBlocklist], [addBlocklistEntry] *)

Section BlockFacts.

Variable env : Env.

Lemma loadBlocklist_Ok (w w' : World) (b : Ledger.Blocklist) :
  Storage.loadBlocklist env w = (Ok b, w') ->
  w' = w /\ exists j, blocklistFile w = Some j
                      /\ Schema.BlocklistSchema env j = Some b.
Proof.
  rewrite loadBlocklist_run. destruct (blocklistFile w) as [j|]; [|discriminate].
  destruct (Schema.BlocklistSchema env j) as [b'|] eqn:E; [|discriminate].
  intros [= <- <-]. eauto.
Qed.

Lemma blocklistSchema_entries (j : Ledger.BlocklistJson) (b : Ledger.Blocklist) :
  Schema.BlocklistSchema env j = Some b ->
  Schema.array (Schema.BlocklistEntrySchema env) (Ledger.jsonEntries j) =
  Some (Ledger.entries b).
Proof.
  unfold Schema.BlocklistSchema.
  destruct (Ledger.jsonVersion j) as [| | |v]; try discriminate;
    destruct (Ledger.jsonLastUpdated j) as [| | |t]; try discriminate;
    destruct (isDatetime env t); try discriminate;
    destruct (Schema.array _ (Ledger.jsonEntries j)) as [es|];
    try discriminate; now intros [= <-].
Qed.

Lemma array_In {A B : Type} (f : A -> option B) (l : list A) (r : list B) (y : B) :
  Schema.array f l = Some r -> In y r -> exists x, In x l /\ f x = Some y.
Proof.
  revert r. induction l as [|x l IH]; simpl; intros r.
  - intros [= <-] [].
  - destruct (f x) as [y'|] eqn:E; [|discriminate].
    destruct (Schema.array f l) as [r'|]; [|discriminate].
    intros [= <-] [<-|Hy]; [eauto|].
    destruct (IH r' eq_refl Hy) as (x' & Hx' & Hf). eauto.
Qed.

(** Every entry of a loaded ledger carries a reason. *)
Lemma loaded_reason (j : Ledger.BlocklistJson) (b : Ledger.Blocklist)
  (e : Json.Object) :
  Schema.BlocklistSchema env j = Some b -> In e (Ledger.entries b) ->
  exists r, Storage.reasonOf e = Some r.
Proof.
  intros Hb He. apply blocklistSchema_entries in Hb.
  destruct (array_In _ _ _ _ Hb He) as (o & _ & Ho).
  apply entrySchema_inv in Ho
    as (s1 & s2 & kv3 & kv4 & kv5 & s6 & s7 & b8 & s9
        & -> & _ & _ & _ & _ & E3 & E4 & E5).
  exists s6. unfold Storage.reasonOf.
  apply optionalString_Some in E3 as [[_ ->]|(? & _ & ->)];
    apply optionalString_Some in E4 as [[_ ->]|(? & _ & ->)];
    apply optionalString_Some in E5 as [[_ ->]|(? & _ & ->)]; reflexivity.
Qed.

Lemma valueEqb_true (v : Json.Value) (s : string) :
  Storage.valueEqb v s = true <-> v = Json.Str s.
Proof.
  destruct v as [| | |t]; simpl; split; try discriminate.
  - intros H. apply String.eqb_eq in H. now subst.
  - intros [= ->]. apply String.eqb_refl.
Qed.

Lemma isBlocked_run (w : World) (b : Ledger.Blocklist)
  (serverName pattern : option string) :
  Storage.loadBlocklist env w = (Ok b, w) ->
  Storage.isBlocked env serverName pattern w =
  (Ok match
        match Storage.truthy serverName with
        | Some name =>
            find (fun e => Storage.valueEqb (Json.get e "type") "server"
                           && Storage.valueEqb (Json.get e "serverName") name)
              (Ledger.entries b)
        | None => None
        end
      with
      | Some entry => (true, Storage.reasonOf entry)
      | None =>
          match
            match Storage.truthy pattern with
            | Some p =>
                find (fun e => Storage.valueEqb (Json.get e "type") "file_pattern"
                               && Storage.valueEqb (Json.get e "pattern") p)
                  (Ledger.entries b)
            | None => None
            end
          with
          | Some entry => (true, Storage.reasonOf entry)
          | None => (false, None)
          end
      end, w).
Proof.
  intros H. unfold Storage.isBlocked, Eff.bind. rewrite H.
  unfold JsArray.find, Eff.ret.
  destruct (match Storage.truthy serverName with Some _ => _ | None => _ end);
    [reflexivity|].
  destruct (match Storage.truthy pattern with Some _ => _ | None => _ end);
    reflexivity.
Qed.

Lemma isBlocked_throws (w w' : World) (message : string)
  (serverName pattern : option string) :
  Storage.loadBlocklist env w = (Throw message, w') ->
  Storage.isBlocked env serverName pattern w = (Throw message, w').
Proof. intros H. unfold Storage.isBlocked, Eff.bind. now rewrite H. Qed.

Lemma truthy_Some (s : option string) (name : string) :
  Storage.truthy s = Some name <-> s = Some name /\ name <> "".
Proof.
  destruct s as [[|c s]|]; simpl; split; try discriminate.
  - intros [[= <-] H]. now contradiction H.
  - intros [= <-]. split; [reflexivity | discriminate].
  - intros [[= <-] _]. reflexivity.
  - intros [[=] _].
Qed.

End BlockFacts.

(** X9. On a ledger that loads, [isBlocked] changes nothing and
    answers [blocked] exactly when some entry is of type [server] with
    the given, non-empty server name or of type [file_pattern] with the
    given, non-empty pattern; a reason comes with the answer exactly when
    it is [blocked]. *)
Theorem isBlocked_iff_an_entry_matches (env : Env) (w : World)
  (b : Ledger.Blocklist) (serverName pattern : option string) :
  Storage.loadBlocklist env w = (Ok b, w) ->
  exists blocked reason,
    Storage.isBlocked env serverName pattern w = (Ok (blocked, reason), w)
    /\ (blocked = true <->
        exists e, In e (Ledger.entries b)
          /\ ((exists name, serverName = Some name /\ name <> ""
                 /\ Json.get e "type" = Json.Str "server"
                 /\ Json.get e "serverName" = Json.Str name)
              \/ (exists p, pattern = Some p /\ p <> ""
                    /\ Json.get e "type" = Json.Str "file_pattern"
                    /\ Json.get e "pattern" = Json.Str p)))
    /\ (if blocked then exists r, reason = Some r else reason = None).
Proof.
  intros Hload. rewrite (isBlocked_run env w b _ _ Hload).
  destruct (loadBlocklist_Ok env _ _ _ Hload) as (_ & j & _ & Hb).
  set (byServer := match Storage.truthy serverName with
                   | Some name => find _ (Ledger.entries b) | None => None end).
  set (byPattern := match Storage.truthy pattern with
                    | Some p => find _ (Ledger.entries b) | None => None end).
  assert (Hs : forall e, byServer = Some e ->
            In e (Ledger.entries b)
            /\ exists name, serverName = Some name /\ name <> ""
                 /\ Json.get e "type" = Json.Str "server"
                 /\ Json.get e "serverName" = Json.Str name).
  { unfold byServer. intros e.
    destruct (Storage.truthy serverName) as [name|] eqn:Et; [|discriminate].
    intros Hf. apply find_some in Hf as [Hin Hm].
    apply andb_true_iff in Hm as [H1 H2]. apply valueEqb_true in H1, H2.
    apply truthy_Some in Et as [-> Hne]. split; [exact Hin|]. eauto. }
  assert (Hp : forall e, byPattern = Some e ->
            In e (Ledger.entries b)
            /\ exists p, pattern = Some p /\ p <> ""
                 /\ Json.get e "type" = Json.Str "file_pattern"
                 /\ Json.get e "pattern" = Json.Str p).
  { unfold byPattern. intros e.
    destruct (Storage.truthy pattern) as [p|] eqn:Et; [|discriminate].
    intros Hf. apply find_some in Hf as [Hin Hm].
    apply andb_true_iff in Hm as [H1 H2]. apply valueEqb_true in H1, H2.
    apply truthy_Some in Et as [-> Hne]. split; [exact Hin|]. eauto. }
  assert (Hsn : byServer = None ->
            forall e name, In e (Ledger.entries b) -> serverName = Some name ->
              name <> "" -> Json.get e "type" = Json.Str "server" ->
              Json.get e "serverName" = Json.Str name -> False).
  { unfold byServer. intros Hn e name Hin -> Hne H1 H2.
    assert (Et : Storage.truthy (Some name) = Some name)
      by (apply truthy_Some; auto).
    rewrite Et in Hn. apply (find_none _ _ Hn) in Hin.
    rewrite H1, H2 in Hin. simpl in Hin. rewrite String.eqb_refl in Hin.
    discriminate. }
  assert (Hpn : byPattern = None ->
            forall e p, In e (Ledger.entries b) -> pattern = Some p ->
              p <> "" -> Json.get e "type" = Json.Str "file_pattern" ->
              Json.get e "pattern" = Json.Str p -> False).
  { unfold byPattern. intros Hn e p Hin -> Hne H1 H2.
    assert (Et : Storage.truthy (Some p) = Some p)
      by (apply truthy_Some; auto).
    rewrite Et in Hn. apply (find_none _ _ Hn) in Hin.
    rewrite H1, H2 in Hin. simpl in Hin. rewrite String.eqb_refl in Hin.
    discriminate. }
  destruct byServer as [e|] eqn:Es.
  - destruct (Hs e eq_refl) as [Hin Hm].
    exists true, (Storage.reasonOf e). split; [reflexivity|]. split.
    + split; [|reflexivity]. intros _. exists e. auto.
    + exact (loaded_reason env j b e Hb Hin).
  - destruct byPattern as [e|] eqn:Ep.
    + destruct (Hp e eq_refl) as [Hin Hm].
      exists true, (Storage.reasonOf e). split; [reflexivity|]. split.
      * split; [|reflexivity]. intros _. exists e. auto.
      * exact (loaded_reason env j b e Hb Hin).
    + exists false, None. split; [reflexivity|]. split; [|reflexivity].
      split; [discriminate|].
      intros (e & Hin & [(name & H1 & H2 & H3 & H4)|(p & H1 & H2 & H3 & H4)]);
        exfalso; eauto.
Qed.

Section LedgerMore.

Variable env : Env.

Lemma find_app {A : Type} (f : A -> bool) (l1 l2 : list A) :
  find f (l1 ++ l2) =
  match find f l1 with
  | Some x => Some x
  | None => find f l2
  end.
Proof.
  induction l1 as [|x l1 IH]; simpl; [reflexivity|].
  destruct (f x); [reflexivity | exact IH].
Qed.

Lemma find_first {A : Type} (f : A -> bool) (pre post : list A) (x : A) :
  (forall y, In y pre -> f y = false) -> f x = true ->
  find f (pre ++ x :: post) = Some x.
Proof.
  intros Hpre Hx. rewrite find_app.
  destruct (find f pre) as [y|] eqn:E.
  - apply find_some in E as [Hin Hy]. rewrite (Hpre y Hin) in Hy. discriminate.
  - simpl. now rewrite Hx.
Qed.

(** A ledger that came out of a load is written and read back
    unchanged. *)
Lemma toJson_loads (j : Ledger.BlocklistJson) (b : Ledger.Blocklist) :
  Schema.BlocklistSchema env j = Some b ->
  Schema.BlocklistSchema env (Ledger.toJson b) = Some b.
Proof.
  intros Hb. pose proof (blocklistSchema_entries env j b Hb) as He.
  unfold Schema.BlocklistSchema, Ledger.toJson.
  cbn [Ledger.jsonVersion Ledger.jsonLastUpdated Ledger.jsonEntries].
  rewrite (array_idempotent env _ _ He).
  unfold Schema.BlocklistSchema in Hb.
  destruct (Ledger.jsonVersion j) as [| | |v]; try discriminate;
    destruct (Ledger.jsonLastUpdated j) as [| | |t]; try discriminate;
    destruct (isDatetime env t) eqn:Et; try discriminate;
    destruct (Schema.array _ (Ledger.jsonEntries j)) as [es|];
    try discriminate; injection Hb as <-;
    cbn [Ledger.version Ledger.lastUpdated Ledger.entries]; now rewrite Et.
Qed.

Lemma saveBlocklist_run (w : World) (b : Ledger.Blocklist) :
  Storage.saveBlocklist env b w =
  if writeFileOk env (Storage.getBlocklistPath env)
  then (Ok tt, withLedger w (Some (Ledger.toJson b)))
  else (Throw ("writeFile failed: " ++ Storage.getBlocklistPath env),
        withLedger w (ledgerAfterFailedWrite env (blocklistFile w))).
Proof.
  unfold Storage.saveBlocklist.
  destruct (writeFileOk env (Storage.getBlocklistPath env)); reflexivity.
Qed.

End LedgerMore.

(** X10. [isBlocked] reports the reason of the oldest entry that blocks
    the server name, whatever pattern is asked about with it: entries of
    servers are looked up first, and the first match in the ledger
    wins. *)
Theorem isBlocked_reports_the_oldest_server_entry (env : Env) (w : World)
  (b : Ledger.Blocklist) (name : string) (pattern : option string)
  (pre post : list Json.Object) (e : Json.Object) :
  Storage.loadBlocklist env w = (Ok b, w) ->
  name <> "" ->
  Ledger.entries b = (pre ++ e :: post)%list ->
  Json.get e "type" = Json.Str "server" ->
  Json.get e "serverName" = Json.Str name ->
  (forall e', In e' pre ->
     ~ (Json.get e' "type" = Json.Str "server"
        /\ Json.get e' "serverName" = Json.Str name)) ->
  exists reason,
    Json.get e "reason" = Json.Str reason
    /\ Storage.isBlocked env (Some name) pattern w = (Ok (true, Some reason), w).
Proof.
  intros Hload Hne He Ht Hs Hpre.
  destruct (loadBlocklist_Ok env _ _ _ Hload) as (_ & j & _ & Hb).
  destruct (loaded_reason env j b e Hb) as [r Hr].
  { rewrite He. apply in_or_app. right. now left. }
  exists r. split.
  { unfold Storage.reasonOf in Hr.
    destruct (Json.get e "reason"); congruence. }
  rewrite (isBlocked_run env w b _ _ Hload).
  assert (Et : Storage.truthy (Some name) = Some name)
    by (apply truthy_Some; auto).
  rewrite Et, He, (find_first _ pre post e).
  - now rewrite Hr.
  - intros y Hy. destruct (Storage.valueEqb (Json.get y "type") "server") eqn:E1;
      [|reflexivity].
    destruct (Storage.valueEqb (Json.get y "serverName") name) eqn:E2;
      [|reflexivity].
    apply valueEqb_true in E1, E2. exfalso. apply (Hpre y Hy). auto.
  - rewrite Ht, Hs. simpl. now rewrite String.eqb_refl.
Qed.

(** X11. [addBlocklistEntry] does not check its entry against the
    schema: an entry that fails the schema once written is appended
    without an exception, and from then on loading the ledger, any
    question to [isBlocked] and any further append throw. *)
Theorem addBlocklistEntry_does_not_validate_the_entry (env : Env) (w : World)
  (b : Ledger.Blocklist) (entry : Json.Object) :
  Storage.loadBlocklist env w = (Ok b, w) ->
  writeFileOk env (Storage.getBlocklistPath env) = true ->
  Schema.BlocklistEntrySchema env
    (Json.persisted
       (Json.set entry "hash" (Json.Str (Storage.calculateHash env entry)))) = None ->
  exists w',
    Storage.addBlocklistEntry env entry w = (Ok tt, w')
    /\ Storage.loadBlocklist env w' = (Throw "ZodError", w')
    /\ (forall serverName pattern,
          Storage.isBlocked env serverName pattern w' = (Throw "ZodError", w'))
    /\ (forall entry',
          Storage.addBlocklistEntry env entry' w' = (Throw "ZodError", w')).
Proof.
  intros Hload Hw Hbad.
  destruct (loadBlocklist_Ok env _ _ _ Hload) as (_ & j & Hj & Hb).
  exists (appended env w b entry).
  assert (Hl : Storage.loadBlocklist env (appended env w b entry) =
               (Throw "ZodError", appended env w b entry)).
  { rewrite loadBlocklist_run. cbn [appended blocklistFile].
    unfold Schema.BlocklistSchema, Ledger.toJson.
    cbn [Ledger.jsonVersion Ledger.jsonLastUpdated Ledger.jsonEntries
         Ledger.version Ledger.lastUpdated Ledger.entries].
    rewrite map_app, array_app. cbn [map Schema.array]. rewrite Hbad.
    destruct (isDatetime env _);
      destruct (Schema.array (Schema.BlocklistEntrySchema env)
                  (map Json.persisted (Ledger.entries b))); reflexivity. }
  split; [now apply addBlocklistEntry_run with (j := j)|].
  split; [exact Hl|]. split.
  - intros sn p. now apply isBlocked_throws.
  - intros entry'. unfold Storage.addBlocklistEntry, Eff.bind. now rewrite Hl.
Qed.

(** X12. When the write succeeds, a ledger that came out of a load is
    given back by a load after [saveBlocklist], whatever the ledger file
    held before, and the call touches the ledger file only. *)
Theorem saveBlocklist_then_loadBlocklist (env : Env) (w0 w : World)
  (b : Ledger.Blocklist) :
  Storage.loadBlocklist env w0 = (Ok b, w0) ->
  writeFileOk env (Storage.getBlocklistPath env) = true ->
  exists w',
    Storage.saveBlocklist env b w = (Ok tt, w')
    /\ Storage.loadBlocklist env w' = (Ok b, w')
    /\ console w' = console w /\ clock w' = clock w
    /\ searchEngine w' = searchEngine w
    /\ configFile w' = configFile w /\ repoFiles w' = repoFiles w.
Proof.
  intros Hload Hw.
  destruct (loadBlocklist_Ok env _ _ _ Hload) as (_ & j & Hj & Hb).
  rewrite saveBlocklist_run, Hw.
  eexists. split; [reflexivity|]. split; [|repeat split].
  rewrite loadBlocklist_run. cbn [withLedger blocklistFile].
  now rewrite (toJson_loads env j b Hb).
Qed.

(** ** The tools of the blocklist *)

Section ToolFacts.

Variable env : Env.

(** The arguments of [add_blocklist_entry] once parsed. *)
Lemma addSchema_inv (o a : Json.Object) :
  Tools.AddBlocklistEntrySchema o = Some a ->
  exists type kvServer kvPattern reason,
    a = ([("type", Json.Str type)] ++ kvServer ++ kvPattern
           ++ [("reason", Json.Str reason)])%list
    /\ Schema.oneOf ["server"; "file_pattern"] type = true
    /\ Schema.optionalString o "serverName" = Some kvServer
    /\ Schema.optionalString o "pattern" = Some kvPattern.
Proof.
  unfold Tools.AddBlocklistEntrySchema. cbn [Schema.object].
  destruct (Schema.requiredString _ o "type") as [kv1|] eqn:E1; [|discriminate].
  destruct (Schema.optionalString o "serverName") as [kv2|] eqn:E2; [|discriminate].
  destruct (Schema.optionalString o "pattern") as [kv3|] eqn:E3; [|discriminate].
  destruct (Schema.requiredString _ o "reason") as [kv4|] eqn:E4; [|discriminate].
  intros [= <-].
  apply requiredString_Some in E1 as (s1 & _ & Ok1 & ->).
  apply requiredString_Some in E4 as (s4 & _ & _ & ->).
  exists s1, kv2, kv3, s4. rewrite app_nil_r. auto.
Qed.

Lemma toolEntry_valid (o a : Json.Object) (timestamp : string) :
  Tools.AddBlocklistEntrySchema o = Some a ->
  isDatetime env timestamp = true ->
  exists n,
    Schema.BlocklistEntrySchema env
      (Json.persisted
         (Json.set (Tools.blocklistEntry timestamp a) "hash"
            (Json.Str (Storage.calculateHash env (Tools.blocklistEntry timestamp a))))) = Some n
    /\ Json.get n "timestamp" = Json.Str timestamp
    /\ Json.get n "type" = Json.get a "type"
    /\ Json.get n "serverName" = Json.get a "serverName"
    /\ Json.get n "pattern" = Json.get a "pattern"
    /\ Json.get n "reason" = Json.get a "reason"
    /\ Json.get n "hash" =
       Json.Str (Storage.calculateHash env (Tools.blocklistEntry timestamp a))
    /\ Json.get n "allowOverride" = Json.Bool false
    /\ Json.get n "source" = Json.Str "user".
Proof.
  intros Ha Ht. apply addSchema_inv in Ha as (ty & kv2 & kv3 & r & -> & Hty & E2 & E3).
  set (h := Storage.calculateHash env _). clearbody h.
  unfold Schema.oneOf in Hty.
  apply optionalString_Some in E2 as [[_ ->]|(sn & _ & ->)];
    apply optionalString_Some in E3 as [[_ ->]|(pt & _ & ->)];
    (eexists; split;
     [ unfold Tools.blocklistEntry, Schema.BlocklistEntrySchema, Schema.requiredString,
         Schema.optionalString, Schema.booleanDefault, Schema.enumDefault,
         Schema.oneOf, Schema.anyString;
       cbn [Json.get Json.set Json.persisted filter snd app String.eqb Ascii.eqb
            Bool.eqb];
       rewrite Ht, Hty; reflexivity
     | repeat split ]).
Qed.

End ToolFacts.

Section ToolRuns.

Variable env : Env.

Lemma handled_ok (body : Eff.M World Tools.Response) (w w' : World)
  (r : Tools.Response) :
  body w = (Ok r, w') -> Tools.handled body w = (Ok r, w').
Proof. intros H. unfold Tools.handled, Eff.tryCatch. now rewrite H. Qed.

Lemma handled_throw (body : Eff.M World Tools.Response) (w w' : World)
  (message : string) :
  body w = (Throw message, w') ->
  Tools.handled body w =
  (Ok {| Tools.text := "Error: " ++ message; Tools.isError := true |}, w').
Proof. intros H. unfold Tools.handled, Eff.tryCatch. now rewrite H. Qed.

Lemma add_tool_run (w : World) (b : Ledger.Blocklist) (o a : Json.Object) :
  Storage.loadBlocklist env w = (Ok b, w) ->
  writeFileOk env (Storage.getBlocklistPath env) = true ->
  (forall t, isDatetime env (isoTime env t) = true) ->
  Tools.AddBlocklistEntrySchema o = Some a ->
  exists w' n,
    Tools.add_blocklist_entry env (Some o) w =
    (Ok {| Tools.text :=
             "Added " ++ Tools.toStr (Json.get a "type") ++ " blocklist entry: "
             ++ Tools.toStr (Tools.orElse (Json.get a "serverName")
                               (Json.get a "pattern"));
           Tools.isError := false |}, w')
    /\ Storage.loadBlocklist env w' =
       (Ok {| Ledger.version := Ledger.version b;
              Ledger.lastUpdated := isoTime env (S (clock w));
              Ledger.entries := (Ledger.entries b ++ [n])%list |}, w')
    /\ Schema.BlocklistEntrySchema env
         (Json.persisted
            (Json.set (Tools.blocklistEntry (isoTime env (clock w)) a) "hash"
               (Json.Str (Storage.calculateHash env
                            (Tools.blocklistEntry (isoTime env (clock w)) a)))))
       = Some n
    /\ console w' = console w /\ searchEngine w' = searchEngine w.
Proof.
  intros Hload Hw Ht Ha.
  destruct (loadBlocklist_Ok env _ _ _ Hload) as (_ & j & Hj & Hb).
  destruct (toolEntry_valid env o a (isoTime env (clock w)) Ha (Ht _))
    as (n & Hn & _).
  set (w1 := snd (Sys.dateNow env w)).
  assert (Hj1 : blocklistFile w1 = Some j) by exact Hj.
  set (entry := Tools.blocklistEntry (isoTime env (clock w)) a) in *.
  destruct (appended_loads env w1 j b entry n Hb (Ht _) Hn) as (j1 & Hj1' & Hb1).
  exists (appended env w1 b entry), n.
  split; [|split; [|split; [exact Hn | split; reflexivity]]].
  - unfold Tools.add_blocklist_entry, Tools.parse. rewrite Ha.
    unfold Eff.bind at 1. unfold Eff.ret at 1.
    unfold Eff.bind at 1. unfold Sys.dateNow at 1. cbv beta iota.
    fold entry.
    change {| console := console w; clock := S (clock w);
              configFile := configFile w; blocklistFile := blocklistFile w;
              repoFiles := repoFiles w; searchEngine := searchEngine w |}
      with w1.
    unfold Eff.bind.
    now rewrite (addBlocklistEntry_run env w1 j b entry Hj1 Hb Hw).
  - rewrite loadBlocklist_run, Hj1', Hb1. reflexivity.
Qed.

End ToolRuns.

(** X13. The tool [add_blocklist_entry], on arguments that pass its
    schema and a ledger that loads, answers without an error and leaves
    a ledger that loads again: the entries before, then one new entry
    with the arguments given, the time of the call, [allowOverride]
    false, [source] user and the hash of these fields. *)
Theorem add_blocklist_entry_appends_one_loadable_entry (env : Env) (w : World)
  (b : Ledger.Blocklist) (o a : Json.Object) :
  Storage.loadBlocklist env w = (Ok b, w) ->
  writeFileOk env (Storage.getBlocklistPath env) = true ->
  (forall t, isDatetime env (isoTime env t) = true) ->
  Tools.AddBlocklistEntrySchema o = Some a ->
  exists w' b' n,
    Tools.handled (Tools.add_blocklist_entry env (Some o)) w =
    (Ok {| Tools.text :=
             "Added " ++ Tools.toStr (Json.get a "type") ++ " blocklist entry: "
             ++ Tools.toStr (Tools.orElse (Json.get a "serverName")
                               (Json.get a "pattern"));
           Tools.isError := false |}, w')
    /\ Storage.loadBlocklist env w' = (Ok b', w')
    /\ Ledger.entries b' = (Ledger.entries b ++ [n])%list
    /\ Json.get n "timestamp" = Json.Str (isoTime env (clock w))
    /\ Json.get n "type" = Json.get a "type"
    /\ Json.get n "serverName" = Json.get a "serverName"
    /\ Json.get n "pattern" = Json.get a "pattern"
    /\ Json.get n "reason" = Json.get a "reason"
    /\ Json.get n "allowOverride" = Json.Bool false
    /\ Json.get n "source" = Json.Str "user"
    /\ Json.get n "hash" =
       Json.Str (Storage.calculateHash env
                   (Tools.blocklistEntry (isoTime env (clock w)) a)).
Proof.
  intros Hload Hw Ht Ha.
  destruct (add_tool_run env w b o a Hload Hw Ht Ha) as (w' & n & Hrun & Hl & Hn & _).
  destruct (toolEntry_valid env o a (isoTime env (clock w)) Ha (Ht _))
    as (n' & Hn' & G).
  assert (n' = n) by congruence. subst n'.
  exists w'. eexists. exists n.
  split; [now apply handled_ok|].
  split; [exact Hl|]. split; [reflexivity|]. tauto.
Qed.

Section AppendFacts.

Variable env : Env.

Lemma isBlocked_app (w w' : World) (b b' : Ledger.Blocklist)
  (more : list Json.Object) (serverName pattern : option string)
  (reason : option string) :
  Storage.loadBlocklist env w = (Ok b, w) ->
  Storage.loadBlocklist env w' = (Ok b', w') ->
  Ledger.entries b' = (Ledger.entries b ++ more)%list ->
  Storage.isBlocked env serverName pattern w = (Ok (true, reason), w) ->
  exists reason',
    Storage.isBlocked env serverName pattern w' = (Ok (true, reason'), w')
    /\ (serverName = None \/ pattern = None -> reason' = reason).
Proof.
  intros Hl Hl' He. rewrite (isBlocked_run env w b _ _ Hl),
    (isBlocked_run env w' b' _ _ Hl'), He.
  destruct (Storage.truthy serverName) as [name|] eqn:Es;
    destruct (Storage.truthy pattern) as [p|] eqn:Ep; rewrite ?find_app.
  - destruct (find _ (Ledger.entries b)) as [e|].
    + intros [= <-]. eexists. split; [reflexivity|].
      intros [->| ->]; discriminate.
    + destruct (find _ (Ledger.entries b)) as [e|]; [|discriminate].
      intros [= <-]. destruct (find _ more) as [e'|].
      * eexists. split; [reflexivity|]. intros [->| ->]; discriminate.
      * eexists. split; [reflexivity|]. intros [->| ->]; discriminate.
  - destruct (find _ (Ledger.entries b)) as [e|]; [|discriminate].
    intros [= <-]. eauto.
  - destruct (find _ (Ledger.entries b)) as [e|]; [|discriminate].
    intros [= <-]. eauto.
  - discriminate.
Qed.

End AppendFacts.

(** X14. What is blocked stays blocked when an entry is appended, and
    with the same reason when the question names a server only or a
    pattern only. *)
Theorem addBlocklistEntry_never_unblocks (env : Env) (w : World)
  (b : Ledger.Blocklist) (entry n : Json.Object)
  (serverName pattern : option string) (reason : option string) :
  Storage.loadBlocklist env w = (Ok b, w) ->
  writeFileOk env (Storage.getBlocklistPath env) = true ->
  isDatetime env (isoTime env (clock w)) = true ->
  Schema.BlocklistEntrySchema env
    (Json.persisted
       (Json.set entry "hash" (Json.Str (Storage.calculateHash env entry)))) = Some n ->
  Storage.isBlocked env serverName pattern w = (Ok (true, reason), w) ->
  exists w' reason',
    Storage.addBlocklistEntry env entry w = (Ok tt, w')
    /\ Storage.isBlocked env serverName pattern w' = (Ok (true, reason'), w')
    /\ (serverName = None \/ pattern = None -> reason' = reason).
Proof.
  intros Hload Hw Ht Hn Hblocked.
  destruct (loadBlocklist_Ok env _ _ _ Hload) as (_ & j & Hj & Hb).
  destruct (appended_loads env w j b entry n Hb Ht Hn) as (j1 & Hj1 & Hb1).
  set (w' := appended env w b entry) in *.
  assert (Hl' : Storage.loadBlocklist env w' =
                (Ok {| Ledger.version := Ledger.version b;
                       Ledger.lastUpdated := isoTime env (clock w);
                       Ledger.entries := (Ledger.entries b ++ [n])%list |}, w')).
  { now rewrite loadBlocklist_run, Hj1, Hb1. }
  destruct (isBlocked_app env w w' b _ [n] serverName pattern reason
              Hload Hl' eq_refl Hblocked) as (reason' & Hr & Hsame).
  exists w', reason'. split; [now apply addBlocklistEntry_run with (j := j)|].
  auto.
Qed.

(** X15. After the tool [add_blocklist_entry] has blocked a server,
    the tool [check_blocklist] answers, for this server name, [blocked]
    with a reason; the reason is the one just given unless an older
    entry blocks the same server. *)
Theorem check_blocklist_finds_what_add_blocklist_entry_blocked
  (env : Env) (w : World) (b : Ledger.Blocklist) (name reason : string) :
  Storage.loadBlocklist env w = (Ok b, w) ->
  writeFileOk env (Storage.getBlocklistPath env) = true ->
  (forall t, isDatetime env (isoTime env t) = true) ->
  name <> "" ->
  exists w' shown,
    Tools.handled
      (Tools.add_blocklist_entry env
         (Some [ ("type", Json.Str "server"); ("serverName", Json.Str name);
                 ("reason", Json.Str reason) ])) w =
    (Ok {| Tools.text := "Added server blocklist entry: " ++ name;
           Tools.isError := false |}, w')
    /\ Tools.handled
         (Tools.check_blocklist env (Some [ ("serverName", Json.Str name) ])) w' =
       (Ok {| Tools.text :=
                Tools.stringifyIndented
                  [ ("blocked", Json.Bool true); ("reason", Json.Str shown) ];
              Tools.isError := false |}, w')
    /\ ((forall e, In e (Ledger.entries b) ->
           ~ (Json.get e "type" = Json.Str "server"
              /\ Json.get e "serverName" = Json.Str name)) ->
        shown = reason).
Proof.
  intros Hload Hw Ht Hne.
  set (o := [ ("type", Json.Str "server"); ("serverName", Json.Str name);
              ("reason", Json.Str reason) ]).
  assert (Ha : Tools.AddBlocklistEntrySchema o = Some o) by reflexivity.
  destruct (add_tool_run env w b o o Hload Hw Ht Ha)
    as (w' & n & Hrun & Hl & Hn & _).
  destruct (toolEntry_valid env o o (isoTime env (clock w)) Ha (Ht _))
    as (n' & Hn' & _ & Gt & Gs & _ & Gr & _).
  assert (n' = n) by congruence. subst n'. cbn in Gt, Gs, Gr.
  assert (Hname : Tools.toStr (Tools.orElse (Json.Str name) Json.Undefined) = name).
  { destruct name; [now contradiction Hne | reflexivity]. }
  assert (Hcheck : forall r,
            Storage.isBlocked env (Some name) None w' = (Ok (true, Some r), w') ->
            Tools.handled
              (Tools.check_blocklist env (Some [ ("serverName", Json.Str name) ])) w' =
            (Ok {| Tools.text :=
                     Tools.stringifyIndented
                       [ ("blocked", Json.Bool true); ("reason", Json.Str r) ];
                   Tools.isError := false |}, w')).
  { intros r Hr. apply handled_ok. unfold Tools.check_blocklist.
    cbn [Tools.parse Tools.CheckBlocklistSchema Schema.object
         Schema.optionalString Json.get String.eqb Ascii.eqb Bool.eqb app].
    unfold Eff.bind at 1. unfold Eff.ret at 1.
    cbn [Tools.asOption Json.get String.eqb Ascii.eqb Bool.eqb].
    unfold Eff.bind. rewrite Hr. reflexivity. }
  assert (Hblocked : exists shown,
            Storage.isBlocked env (Some name) None w' = (Ok (true, Some shown), w')
            /\ ((forall e, In e (Ledger.entries b) ->
                   ~ (Json.get e "type" = Json.Str "server"
                      /\ Json.get e "serverName" = Json.Str name)) ->
                shown = reason)).
  { rewrite (isBlocked_run env w' _ _ _ Hl).
    assert (Et : Storage.truthy (Some name) = Some name)
      by (apply truthy_Some; auto).
    rewrite Et. cbn [Ledger.entries]. rewrite find_app.
    destruct (find _ (Ledger.entries b)) as [e|] eqn:Ef.
    - apply find_some in Ef as [Hin Hm].
      destruct (loadBlocklist_Ok env _ _ _ Hload) as (_ & j & _ & Hb).
      destruct (loaded_reason env j b e Hb Hin) as [r Hr].
      exists r. rewrite Hr. split; [reflexivity|]. intros Hnone. exfalso.
      apply andb_true_iff in Hm as [H1 H2]. apply valueEqb_true in H1, H2.
      apply (Hnone e Hin). auto.
    - cbn [find]. rewrite Gt, Gs. cbn [Storage.valueEqb].
      rewrite !String.eqb_refl. cbn [andb].
      exists reason. unfold Storage.reasonOf. rewrite Gr. auto. }
  destruct Hblocked as (shown & Hshown & Hfirst).
  exists w', shown. split; [|split; [now apply Hcheck | exact Hfirst]].
  apply handled_ok. etransitivity; [exact Hrun|].
  cbn [o Json.get String.eqb Ascii.eqb Bool.eqb Tools.toStr].
  now rewrite Hname.
Qed.

(** ** The pass and the index *)

Section PassFacts.

Import SyncSpec.

Variable env : Env.

Lemma get_keys {V : Type} (m : JsMap.t V) (k : string) :
  In k (map fst m) <-> exists v, JsMap.get m k = Some v.
Proof.
  induction m as [|[k' v'] m IH]; simpl.
  - split; [contradiction | intros [v H]; discriminate].
  - destruct (String.eqb_spec k' k) as [->|Hne].
    + split; eauto.
    + rewrite <- IH. split; [intros [H|H]; [contradiction | exact H] | auto].
Qed.

Lemma mapSet_values (k : string) (v d : IndexedDocument)
  (m : SearchEngine.Documents) :
  In d (SearchEngine.values (SearchEngine.mapSet k v m)) ->
  d = v \/ In d (SearchEngine.values m).
Proof.
  unfold SearchEngine.values. induction m as [|[k' v'] m IH]; simpl.
  - intros [<-|[]]. now left.
  - destruct (String.eqb k' k); simpl.
    + intros [<-|H]; auto.
    + intros [<-|H]; auto. destruct (IH H); auto.
Qed.

Lemma addDocuments_values (docs : list IndexedDocument) (d : IndexedDocument) :
  forall m,
  In d (SearchEngine.values (SearchEngine.addDocuments m docs)) ->
  In d (SearchEngine.values m) \/ In d docs.
Proof.
  induction docs as [|x docs IH]; intros m; [auto|].
  rewrite addDocuments_cons. intros H. apply IH in H as [H|H].
  - apply mapSet_values in H as [->|H]; [right; now left | now left].
  - right. now right.
Qed.

Lemma pass_keys (jobs : list Job) :
  forall state, exists fresh,
    map fst (snd (fold_left (stepJob env) jobs state)) =
    (map fst (snd state) ++ fresh)%list.
Proof.
  induction jobs as [|job jobs IH]; intros state.
  - exists []. now rewrite app_nil_r.
  - cbn [fold_left]. destruct (IH (stepJob env state job)) as (fresh & ->).
    unfold stepJob. cbn [snd].
    destruct (addDocuments_keys (snd state)
                (repoDocuments env job (fst state))) as (fresh0 & -> & _).
    exists (fresh0 ++ fresh)%list. now rewrite app_assoc.
Qed.

Lemma pass_values (jobs : list Job) (d : IndexedDocument) :
  forall state,
  In d (SearchEngine.values (snd (fold_left (stepJob env) jobs state))) ->
  In d (SearchEngine.values (snd state))
  \/ exists job c, In job jobs /\ In d (repoDocuments env job c).
Proof.
  induction jobs as [|job jobs IH]; intros state; [auto|].
  cbn [fold_left]. intros H. apply IH in H as [H|(job' & c & Hj & Hd)].
  - unfold stepJob in H. cbn [snd] in H.
    apply addDocuments_values in H as [H|H]; [now left|].
    right. exists job, (fst state). split; [now left | exact H].
  - right. exists job', c. split; [now right | exact Hd].
Qed.

Lemma pass_get (jobs : list Job) (k : string) :
  (forall job c d, In job jobs -> In d (repoDocuments env job c) -> id d <> k) ->
  forall state,
  SearchEngine.getDocument (snd (fold_left (stepJob env) jobs state)) k =
  SearchEngine.getDocument (snd state) k.
Proof.
  induction jobs as [|job jobs IH]; intros Hk state; [reflexivity|].
  cbn [fold_left]. rewrite IH by (intros j c d Hj; apply Hk; now right).
  unfold stepJob. cbn [snd]. apply addDocuments_get_other.
  intros d Hd. exact (Hk job (fst state) d (or_introl eq_refl) Hd).
Qed.

Lemma pass_idle (jobs : list Job) :
  (forall job c, In job jobs -> repoDocuments env job c = []) ->
  forall state, snd (fold_left (stepJob env) jobs state) = snd state.
Proof.
  induction jobs as [|job jobs IH]; intros H state; [reflexivity|].
  cbn [fold_left]. rewrite IH by (intros j c Hj; apply H; now right).
  unfold stepJob. cbn [snd]. now rewrite H by now left.
Qed.

End PassFacts.

(** X16. A pass that is not forced removes nothing from the index:
    the documents indexed before keep their place in the order of
    iteration, an id that was indexed is still indexed, and a document
    whose id no repository of the pass delivers is unchanged. *)
Theorem sync_without_force_keeps_every_document (env : Env) (w : World)
  (config : Config.KnowledgeBaseConfig) :
  configFile w = Some config ->
  exists w',
    Main.syncKnowledgeBase env true false w = (Ok tt, w')
    /\ (exists fresh,
          map fst (searchEngine w') = (map fst (searchEngine w) ++ fresh)%list)
    /\ (forall k d,
          SearchEngine.getDocument (searchEngine w) k = Some d ->
          exists d', SearchEngine.getDocument (searchEngine w') k = Some d')
    /\ (forall k,
          (forall job c d,
             In job (SyncSpec.passJobs env config) ->
             In d (SyncSpec.repoDocuments env job c) -> id d <> k) ->
          SearchEngine.getDocument (searchEngine w') k =
          SearchEngine.getDocument (searchEngine w) k).
Proof.
  intros Hc. destruct (syncKnowledgeBase_run env false w config Hc) as (w' & Hrun & Hs).
  exists w'. split; [exact Hrun|].
  assert (Es : searchEngine w' =
               snd (fold_left (SyncSpec.stepJob env) (SyncSpec.passJobs env config)
                      (clock w, searchEngine w)))
    by (apply (f_equal snd) in Hs; exact Hs).
  destruct (pass_keys env (SyncSpec.passJobs env config) (clock w, searchEngine w))
    as (fresh & Hk).
  rewrite <- Es in Hk. cbn [snd] in Hk. split; [eauto|]. split.
  - intros k d Hd. unfold SearchEngine.getDocument in *. apply get_keys.
    rewrite Hk. apply in_or_app. left. apply get_keys. eauto.
  - intros k Hfresh. rewrite Es. now rewrite pass_get.
Qed.

(** X17. After a forced pass the index holds only documents fetched in
    this pass; when no repository delivers a document, the index is
    empty. *)
Theorem forced_sync_holds_only_what_the_pass_fetched (env : Env) (w : World)
  (config : Config.KnowledgeBaseConfig) :
  configFile w = Some config ->
  exists w',
    Main.syncKnowledgeBase env true true w = (Ok tt, w')
    /\ (forall d,
          In d (SearchEngine.values (searchEngine w')) ->
          exists job c,
            In job (SyncSpec.passJobs env config)
            /\ In d (SyncSpec.repoDocuments env job c))
    /\ ((forall job c, In job (SyncSpec.passJobs env config) ->
           SyncSpec.repoDocuments env job c = []) ->
        searchEngine w' = []).
Proof.
  intros Hc. destruct (syncKnowledgeBase_run env true w config Hc) as (w' & Hrun & Hs).
  exists w'. split; [exact Hrun|].
  assert (Es : searchEngine w' =
               snd (fold_left (SyncSpec.stepJob env) (SyncSpec.passJobs env config)
                      (clock w, [])))
    by (apply (f_equal snd) in Hs; exact Hs).
  split.
  - intros d Hd. rewrite Es in Hd. apply pass_values in Hd as [[]|H]. exact H.
  - intros Hidle. rewrite Es. now rewrite pass_idle.
Qed.

(** ** Discovery, the local copies, the tool of the pass *)

Section SyncMore.

Import Eff SyncSpec.

Variable env : Env.

Ltac run :=
  unfold Sys.consoleError, Sys.dateNow, Sys.mkdir, Sys.writeRepoFile,
    Sys.addRepoFile, Sys.setSearchEngine;
  unfold Eff.bind, Eff.ret, Eff.throw, Eff.tryCatch, Eff.get, Eff.modify,
    Eff.liftResult, Eff.withLocal, Eff.outer, Eff.getLocal, Eff.modifyLocal;
  cbv beta iota zeta;
  cbn [fst snd console clock configFile blocklistFile repoFiles searchEngine].

(** Discovery leaves the world as it is when the listing succeeds, and
    writes one line when it fails. *)
Lemma discoverUserRepos_world (w : World) :
  exists w',
    GitHubSync.discoverUserRepos env w = (Ok (discovered env), w')
    /\ match listForUser env with
       | Ok _ => w' = w
       | Throw message =>
           console w' = (console w ++ [("Error discovering user repos: " ++ message)%string])%list
           /\ advances w w' 0 /\ repoFiles w' = repoFiles w
       end.
Proof.
  unfold GitHubSync.discoverUserRepos, discovered.
  destruct (listForUser env) as [repos|e].
  - exists w. split; [|reflexivity].
    assert (H : forall acc,
              Eff.forEach repos
                (fun r =>
                   Eff.bind (Eff.outer (GitHubSync.hasCludeDirectory env (fst r) (snd r)))
                     (fun found =>
                        if found
                        then Eff.modifyLocal (fun reposWithClaude => reposWithClaude ++ [r])%list
                        else Eff.ret tt))
                (w, acc) =
              (Ok tt,
               (w, (acc ++ filter
                            (fun r =>
                               match getClaudeContent env (fst r) (snd r) with
                               | Ok _ => true
                               | Throw _ => false
                               end) repos)%list))).
    { induction repos as [|r repos IH]; intros acc.
      - cbn. now rewrite app_nil_r.
      - cbn [Eff.forEach filter]. unfold GitHubSync.hasCludeDirectory.
        unfold Eff.bind at 1. run.
        destruct (getClaudeContent env (fst r) (snd r)); run;
          rewrite IH; [now rewrite <- app_assoc | reflexivity]. }
    run. rewrite H. reflexivity.
  - run. eexists. split; [reflexivity|]. cbn.
    split; [reflexivity|]. split; [|reflexivity].
    unfold advances; cbn; repeat split; lia.
Qed.




End SyncMore.

(** X18. [discoverUserRepos] never throws. When the repositories can
    be listed it returns those in which [.claude] is found, in the order
    of the listing, and changes nothing; when they cannot, it returns no
    repository and writes one line to the console. *)
Theorem discoverUserRepos_never_throws (env : Env) (w : World) :
  exists found w',
    GitHubSync.discoverUserRepos env w = (Ok found, w')
    /\ match listForUser env with
       | Ok repos =>
           w' = w
           /\ found =
              filter (fun r => match getClaudeContent env (fst r) (snd r) with
                               | Ok _ => true
                               | Throw _ => false
                               end) repos
       | Throw message =>
           found = []
           /\ console w' =
              (console w ++ [("Error discovering user repos: " ++ message)%string])%list
           /\ clock w' = clock w /\ searchEngine w' = searchEngine w
           /\ repoFiles w' = repoFiles w /\ blocklistFile w' = blocklistFile w
       end.
Proof.
  destruct (discoverUserRepos_world env w) as (w' & Hrun & Hw).
  exists (SyncSpec.discovered env), w'. split; [exact Hrun|].
  unfold SyncSpec.discovered. destruct (listForUser env) as [repos|message].
  - auto.
  - destruct Hw as (Hc & (Hk & Hs & _ & Hb) & Hf). rewrite Nat.add_0_r in Hk.
    repeat split; assumption.
Qed.


Section UpdateTool.

Import Eff.

Variable env : Env.

Lemma update_parse (force : bool) :
  Tools.UpdateKnowledgeBaseSchema [("force", Json.Bool force)] =
  Some [("force", Json.Bool force)].
Proof. reflexivity. Qed.

Lemma update_run (githubSync force : bool) (w : World) :
  Tools.update_knowledge_base env githubSync (Some [("force", Json.Bool force)]) w =
  if negb githubSync
  then (Ok {| Tools.text :=
                "GitHub sync not configured. Set GITHUB_TOKEN environment variable.";
              Tools.isError := true |}, w)
  else
    match Main.syncKnowledgeBase env githubSync force
            (logged w "Updating knowledge base...") with
    | (Ok _, w') =>
        (Ok {| Tools.text :=
                 "Knowledge base updated. "
                 ++ Sys.showNat (length (searchEngine w'))
                 ++ " documents indexed from "
                 ++ Sys.showNat
                      (length (SearchEngine.repositories
                                 (SearchEngine.getStats (searchEngine w'))))
                 ++ " repositories.";
               Tools.isError := false |}, w')
    | (Throw message, w') => (Throw message, w')
    end.
Proof.
  unfold Tools.update_knowledge_base, Tools.parse. rewrite update_parse.
  unfold Eff.bind at 1. unfold Eff.ret at 1.
  destruct githubSync; cbn [negb]; [|reflexivity].
  unfold Eff.bind at 1. unfold Sys.consoleError at 1, Eff.modify.
  fold (logged w "Updating knowledge base...").
  unfold Eff.bind at 1. cbn [Json.get String.eqb Ascii.eqb Bool.eqb].
  destruct (Main.syncKnowledgeBase env true force _) as [[[]|message] w'];
    [|reflexivity].
  unfold Eff.bind, Eff.get, Eff.ret. cbn [SearchEngine.getStats SearchEngine.totalDocuments].
  now rewrite Nat2Z.id.
Qed.

End UpdateTool.

(** X20. The tool [update_knowledge_base]: without the GitHub client
    it answers with an error and changes nothing; when the configuration
    cannot be loaded it answers with an error and leaves the index as it
    was, forced or not; otherwise it runs the pass and reports the
    numbers of documents and repositories of the index after it. *)
Theorem update_knowledge_base_reports_or_leaves_the_index (env : Env)
  (w : World) (force : bool) :
  let arguments := Some [("force", Json.Bool force)] in
  Tools.handled (Tools.update_knowledge_base env false arguments) w =
  (Ok {| Tools.text :=
           "GitHub sync not configured. Set GITHUB_TOKEN environment variable.";
         Tools.isError := true |}, w)
  /\ (configFile w = None ->
      exists message w',
        Tools.handled (Tools.update_knowledge_base env true arguments) w =
        (Ok {| Tools.text := "Error: " ++ message; Tools.isError := true |}, w')
        /\ searchEngine w' = searchEngine w
        /\ repoFiles w' = repoFiles w /\ clock w' = clock w)
  /\ (forall config, configFile w = Some config ->
      exists w',
        Tools.handled (Tools.update_knowledge_base env true arguments) w =
        (Ok {| Tools.text :=
                 "Knowledge base updated. "
                 ++ Sys.showNat (length (searchEngine w'))
                 ++ " documents indexed from "
                 ++ Sys.showNat
                      (length (SearchEngine.repositories
                                 (SearchEngine.getStats (searchEngine w'))))
                 ++ " repositories.";
               Tools.isError := false |}, w')
        /\ (clock w', searchEngine w') =
           fold_left (SyncSpec.stepJob env) (SyncSpec.passJobs env config)
             (clock w, if force then [] else searchEngine w)).
Proof.
  intros arguments. split; [|split].
  - apply handled_ok. unfold arguments. now rewrite update_run.
  - intros Hc. exists "config.json: cannot read or parse".
    exists (logged w "Updating knowledge base...").
    split; [|repeat split].
    apply handled_throw. unfold arguments. rewrite update_run. cbn [negb].
    unfold Main.syncKnowledgeBase, Storage.loadConfig. cbn [negb].
    unfold Eff.bind, Eff.get. cbn [logged configFile]. now rewrite Hc.
  - intros config Hc.
    destruct (syncKnowledgeBase_run env force (logged w "Updating knowledge base...")
                config Hc) as (w' & Hrun & Hs).
    exists w'. split; [|exact Hs].
    apply handled_ok. unfold arguments. rewrite update_run. cbn [negb].
    now rewrite Hrun.
Qed.

(** ** Patterns without wildcard, and the stars *)

Section ReplaceFacts.

(** Replacing a literal of one code unit works code unit by code unit. *)
Lemma replace1_cons (a : ascii) (rep : string) (c : ascii) (s : string) :
  JS.replaceAll (String a "") rep (String c s) =
  (if Ascii.eqb c a then rep else String c "") ++ JS.replaceAll (String a "") rep s.
Proof.
  unfold JS.replaceAll. cbn [JS.replaceScan String.prefix String.length Nat.sub].
  destruct (ascii_dec a c) as [<-|Hne].
  - rewrite Ascii.eqb_refl, prefix_empty. reflexivity.
  - destruct (Ascii.eqb_spec c a); [congruence | reflexivity].
Qed.

Lemma replace1_app (a : ascii) (rep s t : string) :
  JS.replaceAll (String a "") rep (s ++ t) =
  JS.replaceAll (String a "") rep s ++ JS.replaceAll (String a "") rep t.
Proof.
  induction s as [|c s IH]; [reflexivity|].
  cbn [append]. rewrite !replace1_cons, IH. now rewrite append_assoc.
Qed.

Lemma replace1_absent (a : ascii) (rep s : string) :
  forallb (fun x => negb (Ascii.eqb x a)) (list_ascii_of_string s) = true ->
  JS.replaceAll (String a "") rep s = s.
Proof.
  induction s as [|c s IH]; [reflexivity|].
  cbn [list_ascii_of_string forallb]. intros H.
  apply andb_true_iff in H as [Hc Hs]. rewrite replace1_cons, IH by exact Hs.
  destruct (Ascii.eqb c a); [discriminate | reflexivity].
Qed.

Lemma globstar_absent (s : string) :
  forallb (fun x => negb (Ascii.eqb x "*")) (list_ascii_of_string s) = true ->
  Glob.expandGlobstar s = s.
Proof.
  unfold Glob.expandGlobstar, JS.replaceAll.
  induction s as [|c s IH]; [reflexivity|].
  cbn [list_ascii_of_string forallb]. intros H.
  apply andb_true_iff in H as [Hc Hs].
  cbn [JS.replaceScan String.prefix].
  destruct (ascii_dec "*" c) as [<-|Hne]; [discriminate|].
  now rewrite IH.
Qed.

End ReplaceFacts.

Section LiteralFacts.

Lemma plainChar_neq (c x : ascii) :
  GlobSpec.plainChar c = true ->
  In x ["."; "*"; "?"; "+"; "("; ")"; "["; "]"; "{"; "}"; "|"; "\"; "^"; "$"]%char ->
  Ascii.eqb c x = false.
Proof.
  unfold GlobSpec.plainChar. intros H Hx. apply negb_true_iff in H.
  destruct (Ascii.eqb c x) eqn:E; [|reflexivity].
  assert (Ht : existsb (Ascii.eqb c)
            ["."; "*"; "?"; "+"; "("; ")"; "["; "]"; "{"; "}"; "|"; "\"; "^"; "$"]%char
          = true) by (apply existsb_exists; eauto).
  congruence.
Qed.

Ltac plain H c x :=
  let E := fresh "E" in
  assert (E : Ascii.eqb c x = false) by (apply (plainChar_neq c x H); simpl; tauto);
  rewrite ?E.

Lemma escapeDots_cons (c : ascii) (p : string) :
  Glob.escapeDots (String c p) =
  (if Ascii.eqb c "." then "\." else String c "") ++ Glob.escapeDots p.
Proof. apply replace1_cons. Qed.

(** After the dots are escaped a literal pattern holds neither star nor
    question mark. *)
Lemma escapeDots_avoids (x : ascii) (p : string) :
  x = "*"%char \/ x = "?"%char ->
  GlobSpec.literalPattern p = true ->
  forallb (fun c => negb (Ascii.eqb c x)) (list_ascii_of_string (Glob.escapeDots p))
  = true.
Proof.
  intros Hx. unfold GlobSpec.literalPattern. induction p as [|c p IH]; [reflexivity|].
  cbn [list_ascii_of_string forallb]. intros H.
  apply andb_true_iff in H as [Hc Hp]. rewrite escapeDots_cons.
  destruct (Ascii.eqb_spec c ".") as [->|Hne].
  - cbn [append list_ascii_of_string forallb]. rewrite IH by exact Hp.
    destruct Hx as [-> | ->]; reflexivity.
  - cbn [append list_ascii_of_string forallb]. rewrite IH by exact Hp.
    rewrite orb_false_r in Hc.
    destruct Hx as [-> | ->];
      [plain Hc c "*"%char | plain Hc c "?"%char]; reflexivity.
Qed.

Lemma regexPattern_literal (p : string) :
  GlobSpec.literalPattern p = true -> Glob.regexPattern p = Glob.escapeDots p.
Proof.
  intros H. unfold Glob.regexPattern.
  rewrite globstar_absent by (apply escapeDots_avoids; auto).
  unfold Glob.expandStar, Glob.expandQuestion.
  rewrite (replace1_absent "*" "[^/]*" (Glob.escapeDots p))
    by (apply escapeDots_avoids; auto).
  apply replace1_absent. apply escapeDots_avoids; auto.
Qed.

Lemma tokenize_literal (p : string) :
  GlobSpec.literalPattern p = true ->
  RegExp.tokenize (Glob.escapeDots p ++ "$") =
  Some (map (fun c => RegExp.TClass (RegExp.Lit c)) (list_ascii_of_string p)
        ++ [RegExp.TEnd])%list.
Proof.
  unfold GlobSpec.literalPattern. induction p as [|c p IH]; [reflexivity|].
  cbn [list_ascii_of_string forallb]. intros H.
  apply andb_true_iff in H as [Hc Hp]. rewrite escapeDots_cons.
  destruct (Ascii.eqb_spec c ".") as [->|Hne].
  - cbn [append RegExp.tokenize Ascii.eqb Bool.eqb]. rewrite IH by exact Hp.
    reflexivity.
  - rewrite orb_false_r in Hc. cbn [append RegExp.tokenize].
    plain Hc c "\"%char. plain Hc c "["%char. plain Hc c "."%char.
    plain Hc c "*"%char. plain Hc c "^"%char. plain Hc c "$"%char.
    assert (Eu : RegExp.unsupported c = false).
    { unfold RegExp.unsupported. cbn [existsb].
      plain Hc c "+"%char. plain Hc c "?"%char. plain Hc c "("%char.
      plain Hc c ")"%char. plain Hc c "]"%char. plain Hc c "{"%char.
      plain Hc c "}"%char. plain Hc c "|"%char. rewrite E, E0. reflexivity. }
    rewrite Eu, IH by exact Hp. reflexivity.
Qed.

Lemma terms_literal (l : list ascii) :
  RegExp.terms (map (fun c => RegExp.TClass (RegExp.Lit c)) l ++ [RegExp.TEnd])%list =
  Some (map (fun c => RegExp.One (RegExp.Lit c)) l).
Proof.
  induction l as [|c l IH]; [reflexivity|].
  cbn [map app]. cbn [map app] in IH.
  destruct l as [|d l]; cbn [map app RegExp.terms] in *; [reflexivity|].
  now rewrite IH.
Qed.

Lemma matches_literal (p s : string) :
  RegExp.matches (map (fun c => RegExp.One (RegExp.Lit c)) (list_ascii_of_string p)) s
  = String.eqb s p.
Proof.
  revert s. induction p as [|c p IH]; intros [|d s]; try reflexivity.
  cbn [list_ascii_of_string map RegExp.matches RegExp.classTest String.eqb].
  rewrite IH. destruct (Ascii.eqb d c); reflexivity.
Qed.

End LiteralFacts.

(** X21. A pattern without wildcard, made of dots and of code units
    that mean nothing to a regular expression, matches its own text and
    nothing else: the dot stands for a dot. *)
Theorem matchPattern_without_wildcard_is_equality (engine : RegExp.Engine)
  (filePath pattern : string) :
  GlobSpec.literalPattern pattern = true ->
  Glob.matchPattern engine filePath pattern = Some (String.eqb filePath pattern).
Proof.
  intros H. unfold Glob.matchPattern, RegExp.compile, RegExp.parse.
  rewrite regexPattern_literal by exact H.
  cbn [append RegExp.tokenize Ascii.eqb Bool.eqb].
  rewrite tokenize_literal by exact H. cbn [option_map].
  rewrite terms_literal. now rewrite matches_literal.
Qed.

Section TranslationFacts.

Lemma includes_cons (c : ascii) (t q : string) :
  JS.includes (String c t) q = String.prefix q (String c t) || JS.includes t q.
Proof.
  unfold JS.includes. cbn [String.index].
  destruct (String.prefix q (String c t)); [reflexivity|].
  destruct (String.index 0 q t); reflexivity.
Qed.

(** The last two replacements, code unit by code unit. *)
Lemma stars_cons (c : ascii) (s : string) :
  Glob.expandQuestion (Glob.expandStar (String c s)) =
  (if Ascii.eqb c "*" then "[^/]*"
   else if Ascii.eqb c "?" then "." else String c "")
  ++ Glob.expandQuestion (Glob.expandStar s).
Proof.
  unfold Glob.expandQuestion, Glob.expandStar.
  rewrite replace1_cons, replace1_app.
  destruct (Ascii.eqb c "*") eqn:E1; [reflexivity|].
  rewrite replace1_cons. fold (JS.replaceAll "?" "." "").
  destruct (Ascii.eqb c "?"); reflexivity.
Qed.

(** What the last two replacements write never begins with a star. *)
Lemma stars_no_star_first (s : string) :
  String.prefix "*" (Glob.expandQuestion (Glob.expandStar s)) = false.
Proof.
  destruct s as [|c s]; [reflexivity|]. rewrite stars_cons.
  destruct (Ascii.eqb_spec c "*") as [->|Hs]; [reflexivity|].
  destruct (Ascii.eqb_spec c "?") as [->|Hq]; [reflexivity|].
  cbn [append String.prefix].
  destruct (ascii_dec "*" c); [congruence | reflexivity].
Qed.

End TranslationFacts.

(** X22. The expression that [matchPattern] builds never holds [.*],
    whatever the pattern: each star that the second replacement writes
    is rewritten by the third. *)
Theorem regexPattern_never_holds_dot_star (pattern : string) :
  JS.includes (Glob.regexPattern pattern) ".*" = false.
Proof.
  unfold Glob.regexPattern.
  generalize (Glob.expandGlobstar (Glob.escapeDots pattern)) as s.
  induction s as [|c s IH]; [reflexivity|].
  rewrite stars_cons. pose proof (stars_no_star_first s) as Hfirst.
  set (r := Glob.expandQuestion (Glob.expandStar s)) in *.
  assert (Hdot : JS.includes (String "." r) ".*" = false).
  { rewrite includes_cons, IH. cbn [String.prefix].
    destruct r as [|d r]; [reflexivity|].
    cbn [String.prefix] in *. destruct (ascii_dec "*" d); [|reflexivity].
    now rewrite prefix_empty in Hfirst. }
  destruct (Ascii.eqb_spec c "*") as [->|Hs].
  - cbn [append]. rewrite !includes_cons, IH. reflexivity.
  - destruct (Ascii.eqb_spec c "?") as [->|Hq]; [exact Hdot|].
    cbn [append]. rewrite includes_cons, IH, orb_false_r. cbn [String.prefix].
    destruct (ascii_dec "." c) as [<-|]; [|reflexivity].
    rewrite includes_cons, IH, orb_false_r in Hdot. exact Hdot.
Qed.

Section DepthFacts.

Lemma stars_app (a b : string) :
  Glob.expandQuestion (Glob.expandStar (a ++ b)) =
  Glob.expandQuestion (Glob.expandStar a) ++ Glob.expandQuestion (Glob.expandStar b).
Proof.
  unfold Glob.expandQuestion, Glob.expandStar. now rewrite !replace1_app.
Qed.

Lemma tokenize_star_first (x : string) (ts : list RegExp.Token) :
  RegExp.tokenize x = Some (RegExp.TStar :: ts) -> String.prefix "*" x = true.
Proof.
  destruct x as [|c x]; [discriminate|]. cbn [RegExp.tokenize].
  destruct (Ascii.eqb_spec c "*") as [->|Hne];
    [intros _; simpl; apply prefix_empty|].
  destruct (Ascii.eqb c "\").
  { destruct x as [|d x]; [discriminate|].
    destruct d as [[] [] [] [] [] [] [] []]; try discriminate.
    destruct (RegExp.tokenize x); discriminate. }
  destruct (Ascii.eqb c "[").
  { destruct x as [|d1 [|d2 [|d3 x]]]; try discriminate.
    all: destruct d1 as [[] [] [] [] [] [] [] []]; try discriminate.
    all: destruct d2 as [[] [] [] [] [] [] [] []]; try discriminate.
    all: destruct d3 as [[] [] [] [] [] [] [] []]; try discriminate.
    destruct (RegExp.tokenize x); discriminate. }
  destruct (Ascii.eqb c "."); [destruct (RegExp.tokenize x); discriminate|].
  destruct (Ascii.eqb c "^"); [destruct (RegExp.tokenize x); discriminate|].
  destruct (Ascii.eqb c "$"); [destruct (RegExp.tokenize x); discriminate|].
  destruct (RegExp.unsupported c); [discriminate|].
  destruct (RegExp.tokenize x); discriminate.
Qed.

Lemma tokens_no_star_first (s : string) (ts : list RegExp.Token) :
  RegExp.tokenize (Glob.expandQuestion (Glob.expandStar s)) = Some ts ->
  match ts with RegExp.TStar :: _ => False | _ => True end.
Proof.
  intros H. destruct ts as [|[] ts]; try exact I.
  apply tokenize_star_first in H.
  now rewrite (stars_no_star_first s) in H.
Qed.

Lemma terms_class (k : RegExp.CharClass) (ts : list RegExp.Token)
  (p : RegExp.Pattern) :
  match ts with RegExp.TStar :: _ => False | _ => True end ->
  RegExp.terms (RegExp.TClass k :: ts) = Some p ->
  exists p', p = RegExp.One k :: p' /\ RegExp.terms ts = Some p'.
Proof.
  intros Hns H.
  assert (E : RegExp.terms (RegExp.TClass k :: ts) =
              option_map (cons (RegExp.One k)) (RegExp.terms ts)).
  { destruct ts as [|[] ts]; try reflexivity. contradiction. }
  rewrite E in H. destruct (RegExp.terms ts) as [p'|]; [|discriminate].
  injection H as <-. eauto.
Qed.

(** In the expression compiled from a glob every starred class is the
    class of the code units other than the slash. *)
Lemma stars_are_segments (n : nat) :
  forall (s : string) (ts : list RegExp.Token) (p : RegExp.Pattern),
  (String.length s <= n)%nat ->
  RegExp.tokenize (Glob.expandQuestion (Glob.expandStar s)) = Some ts ->
  RegExp.terms ts = Some p ->
  Forall GlobSpec.starIsSegment p.
Proof.
  induction n as [|n IH]; intros s ts p Hn Ht Hp.
  { destruct s; [|simpl in Hn; lia]. injection Ht as <-. discriminate. }
  destruct s as [|c s]; [injection Ht as <-; discriminate|].
  cbn [String.length] in Hn. rewrite stars_cons in Ht.
  assert (Hclass : forall k s' ts',
            (String.length s' <= n)%nat ->
            RegExp.tokenize (Glob.expandQuestion (Glob.expandStar s')) = Some ts' ->
            ts = RegExp.TClass k :: ts' -> Forall GlobSpec.starIsSegment p).
  { intros k s' ts' Hs' Ht' ->.
    destruct (terms_class k ts' p (tokens_no_star_first s' ts' Ht') Hp)
      as (p' & -> & Hp').
    constructor; [exact I | exact (IH s' ts' p' Hs' Ht' Hp')]. }
  destruct (Ascii.eqb_spec c "*") as [->|Hstar].
  { cbn [append RegExp.tokenize Ascii.eqb Bool.eqb] in Ht.
    destruct (RegExp.tokenize _) as [ts'|] eqn:Et; [|discriminate].
    injection Ht as <-. cbn [RegExp.terms] in Hp.
    destruct (RegExp.terms ts') as [p'|] eqn:Ep; [|discriminate].
    injection Hp as <-. constructor; [reflexivity|].
    apply (IH s ts' p'); [lia | exact Et | exact Ep]. }
  destruct (Ascii.eqb_spec c "?") as [->|Hq].
  { cbn [append RegExp.tokenize Ascii.eqb Bool.eqb] in Ht.
    destruct (RegExp.tokenize _) as [ts'|] eqn:Et; [|discriminate].
    injection Ht as <-. apply (Hclass RegExp.AnyChar s ts'); [lia | exact Et | reflexivity]. }
  cbn [append RegExp.tokenize] in Ht.
  destruct (Ascii.eqb_spec c "\") as [->|Hb].
  { destruct s as [|c' s]; [discriminate|].
    rewrite stars_cons in Ht. cbn [String.length] in Hn.
    destruct c' as [[] [] [] [] [] [] [] []];
      cbn [append Ascii.eqb Bool.eqb] in Ht; try discriminate;
      (destruct (RegExp.tokenize _) as [ts'|] eqn:Et; [|discriminate]);
      injection Ht as <-;
      apply (Hclass (RegExp.Lit ".") s ts'); (lia || assumption || reflexivity). }
  destruct (Ascii.eqb_spec c "[") as [->|Hk].
  { destruct s as [|c1 s]; [discriminate|]. rewrite stars_cons in Ht.
    destruct c1 as [[] [] [] [] [] [] [] []];
      cbn [append Ascii.eqb Bool.eqb] in Ht; try discriminate.
    destruct s as [|c2 s]; [discriminate|]. rewrite stars_cons in Ht.
    destruct c2 as [[] [] [] [] [] [] [] []];
      cbn [append Ascii.eqb Bool.eqb] in Ht; try discriminate.
    destruct s as [|c3 s]; [discriminate|]. rewrite stars_cons in Ht.
    destruct c3 as [[] [] [] [] [] [] [] []];
      cbn [append Ascii.eqb Bool.eqb] in Ht; try discriminate.
    cbn [String.length] in Hn.
    destruct (RegExp.tokenize _) as [ts'|] eqn:Et; [|discriminate].
    injection Ht as <-.
    apply (Hclass RegExp.NotSlash s ts'); [lia | exact Et | reflexivity]. }
  destruct (Ascii.eqb_spec c ".") as [->|Hd].
  { destruct (RegExp.tokenize _) as [ts'|] eqn:Et; [|discriminate].
    injection Ht as <-. apply (Hclass RegExp.AnyChar s ts'); [lia | exact Et | reflexivity]. }
  rewrite (proj2 (Ascii.eqb_neq c "*") Hstar) in Ht.
  destruct (Ascii.eqb_spec c "^") as [->|Hc].
  { destruct (RegExp.tokenize _) as [ts'|]; [|discriminate].
    injection Ht as <-. discriminate. }
  destruct (Ascii.eqb_spec c "$") as [->|He].
  { destruct (RegExp.tokenize _) as [ts'|]; [|discriminate].
    injection Ht as <-. destruct ts'; [|discriminate].
    injection Hp as <-. constructor. }
  destruct (RegExp.unsupported c); [discriminate|].
  destruct (RegExp.tokenize _) as [ts'|] eqn:Et; [|discriminate].
  injection Ht as <-. apply (Hclass (RegExp.Lit c) s ts'); [lia | exact Et | reflexivity].
Qed.

End DepthFacts.

Section BoundFacts.

Lemma matches_star (k : RegExp.CharClass) (p : RegExp.Pattern) (s : string) :
  RegExp.matches (RegExp.Star k :: p) s =
  RegExp.matches p s
  || match s with
     | EmptyString => false
     | String c s' => RegExp.classTest k c && RegExp.matches (RegExp.Star k :: p) s'
     end.
Proof. destruct s; reflexivity. Qed.

Lemma slashes_cons (c : ascii) (s : string) :
  GlobSpec.slashes (String c s) = ((if Ascii.eqb "/" c then 1 else 0) + GlobSpec.slashes s)%nat.
Proof.
  unfold GlobSpec.slashes. cbn [list_ascii_of_string filter].
  destruct (Ascii.eqb "/" c); reflexivity.
Qed.

Lemma matches_slashes (p : RegExp.Pattern) :
  Forall GlobSpec.starIsSegment p ->
  forall s, RegExp.matches p s = true ->
            (GlobSpec.slashes s <= length (filter GlobSpec.takesSlash p))%nat.
Proof.
  induction 1 as [|t p Ht Hp IH]; intros s.
  - destruct s; [reflexivity | discriminate].
  - destruct t as [k|k].
    + destruct s as [|c s]; [discriminate|]. cbn [RegExp.matches].
      intros H. apply andb_true_iff in H as [Hk Hm]. specialize (IH s Hm).
      rewrite slashes_cons. cbn [filter GlobSpec.takesSlash].
      destruct (Ascii.eqb_spec "/" c) as [<-|Hne].
      * rewrite Hk. cbn [length]. lia.
      * destruct (RegExp.classTest k "/"); cbn [length]; lia.
    + cbn [GlobSpec.starIsSegment] in Ht. subst k. cbn [filter GlobSpec.takesSlash].
      induction s as [|c s IHs]; rewrite matches_star; intros H.
      * rewrite orb_false_r in H. now apply IH.
      * apply orb_true_iff in H as [H|H]; [now apply IH|].
        apply andb_true_iff in H as [Hc Hs]. specialize (IHs Hs).
        rewrite slashes_cons. cbn [RegExp.classTest] in Hc.
        rewrite Ascii.eqb_sym in Hc. destruct (Ascii.eqb "/" c); [discriminate | exact IHs].
Qed.

Lemma tokenize_length (x : string) :
  forall ts, RegExp.tokenize x = Some ts -> (length ts <= String.length x)%nat.
Proof.
  assert (H : forall n y ts, (String.length y <= n)%nat ->
            RegExp.tokenize y = Some ts -> (length ts <= String.length y)%nat).
  { clear x. induction n as [|n IH]; intros x ts Hn.
    - destruct x; [|simpl in Hn; lia]. intros [= <-]. simpl. lia.
    - destruct x as [|c x]; [intros [= <-]; simpl; lia|].
      cbn [String.length] in Hn. cbn [RegExp.tokenize String.length].
      assert (Hone : forall t, option_map (cons t) (RegExp.tokenize x) = Some ts ->
                (length ts <= S (String.length x))%nat).
      { intros t. destruct (RegExp.tokenize x) as [ts'|] eqn:E; [|discriminate].
        intros [= <-]. cbn [length]. specialize (IH x ts' ltac:(lia) E). lia. }
      destruct (Ascii.eqb c "\").
      { destruct x as [|d x]; [discriminate|].
        destruct d as [[] [] [] [] [] [] [] []]; try discriminate.
        destruct (RegExp.tokenize x) as [ts'|] eqn:E; [|discriminate].
        intros [= <-]. cbn [length String.length] in *.
        specialize (IH x ts' ltac:(lia) E). lia. }
      destruct (Ascii.eqb c "[").
      { destruct x as [|d1 [|d2 [|d3 x]]]; try discriminate.
        all: destruct d1 as [[] [] [] [] [] [] [] []]; try discriminate.
        all: destruct d2 as [[] [] [] [] [] [] [] []]; try discriminate.
        all: destruct d3 as [[] [] [] [] [] [] [] []]; try discriminate.
        destruct (RegExp.tokenize x) as [ts'|] eqn:E; [|discriminate].
        intros [= <-]. cbn [length String.length] in *.
        specialize (IH x ts' ltac:(lia) E). lia. }
      destruct (Ascii.eqb c "."); [apply Hone|].
      destruct (Ascii.eqb c "*"); [apply Hone|].
      destruct (Ascii.eqb c "^"); [apply Hone|].
      destruct (Ascii.eqb c "$"); [apply Hone|].
      destruct (RegExp.unsupported c); [discriminate | apply Hone]. }
  intros ts. now apply (H (String.length x)).
Qed.

Lemma terms_length (ts : list RegExp.Token) :
  forall p, RegExp.terms ts = Some p -> (S (length p) <= length ts)%nat.
Proof.
  assert (H : forall n ts' p, (length ts' <= n)%nat ->
            RegExp.terms ts' = Some p -> (S (length p) <= length ts')%nat).
  { clear ts. induction n as [|n IH]; intros ts p Hn.
    - destruct ts; [discriminate | simpl in Hn; lia].
    - destruct ts as [|t ts]; [discriminate|]. cbn [length] in Hn.
      destruct t as [k| | |]; try discriminate.
      + destruct ts as [|t' ts]; [simpl; discriminate|].
        assert (Hother :
                  match t' :: ts with RegExp.TStar :: _ => False | _ => True end ->
                  RegExp.terms (RegExp.TClass k :: t' :: ts) = Some p ->
                  (S (length p) <= length (RegExp.TClass k :: t' :: ts))%nat).
        { intros Hns Hp. apply terms_class in Hp as (p' & -> & Hp'); [|exact Hns].
          apply IH in Hp'; [|lia]. cbn [length] in *. lia. }
        destruct t' as [k'| | |]; try (apply Hother; exact I).
        change (RegExp.terms (RegExp.TClass k :: RegExp.TStar :: ts))
          with (option_map (cons (RegExp.Star k)) (RegExp.terms ts)).
        destruct (RegExp.terms ts) as [p'|] eqn:E; [|discriminate].
        intros [= <-]. cbn [length] in *. apply IH in E; [|lia]. lia.
      + destruct ts; [|discriminate]. intros [= <-]. simpl. lia. }
  intros p. now apply (H (length ts)).
Qed.

End BoundFacts.

(** X23. When the expression built for a pattern lies in the modelled
    fragment, each of its stars runs over code units other than the
    slash; so a path that matches has no more slashes than the
    expression has places that take one, and these are fewer than the
    code units of the expression: no pattern matches at every depth. *)
Theorem matchPattern_depth_is_bounded (engine : RegExp.Engine)
  (filePath pattern : string) (p : RegExp.Pattern) :
  RegExp.parse ("^" ++ Glob.regexPattern pattern ++ "$") = Some p ->
  Glob.matchPattern engine filePath pattern = Some true ->
  Forall GlobSpec.starIsSegment p
  /\ (GlobSpec.slashes filePath <= length (filter GlobSpec.takesSlash p))%nat
  /\ (length (filter GlobSpec.takesSlash p) <= String.length (Glob.regexPattern pattern))%nat.
Proof.
  intros Hp Hm.
  assert (Hseg : Forall GlobSpec.starIsSegment p).
  { unfold RegExp.parse, Glob.regexPattern in Hp.
    set (s2 := Glob.expandGlobstar (Glob.escapeDots pattern)) in *.
    change "$" with (Glob.expandQuestion (Glob.expandStar "$")) in Hp.
    rewrite <- stars_app in Hp. cbn [append RegExp.tokenize Ascii.eqb Bool.eqb] in Hp.
    destruct (RegExp.tokenize _) as [ts|] eqn:Et; [|discriminate].
    cbn [option_map] in Hp.
    exact (stars_are_segments _ _ ts p (le_n _) Et Hp). }
  split; [exact Hseg|]. split.
  - unfold Glob.matchPattern, RegExp.compile in Hm. rewrite Hp in Hm.
    injection Hm as Hm. now apply matches_slashes.
  - unfold RegExp.parse in Hp. cbn [append RegExp.tokenize Ascii.eqb Bool.eqb] in Hp.
    destruct (RegExp.tokenize _) as [ts|] eqn:Et; [|discriminate].
    cbn [option_map] in Hp. apply tokenize_length in Et. apply terms_length in Hp.
    rewrite append_length in Et. cbn [String.length] in Et.
    pose proof (filter_length_le GlobSpec.takesSlash p). lia.
Qed.

Section StarFacts.

Lemma escapeDots_app (a b : string) :
  Glob.escapeDots (a ++ b) = Glob.escapeDots a ++ Glob.escapeDots b.
Proof. apply replace1_app. Qed.

Lemma globstar_single (x y : string) :
  forallb (fun c => negb (Ascii.eqb c "*")) (list_ascii_of_string x) = true ->
  forallb (fun c => negb (Ascii.eqb c "*")) (list_ascii_of_string y) = true ->
  Glob.expandGlobstar (x ++ "*" ++ y) = x ++ "*" ++ y.
Proof.
  intros Hx Hy. unfold Glob.expandGlobstar, JS.replaceAll.
  induction x as [|c x IH].
  - cbn [append JS.replaceScan]. pose proof (globstar_absent y Hy) as E.
    unfold Glob.expandGlobstar, JS.replaceAll in E.
    destruct y as [|d y]; [reflexivity|].
    cbn [list_ascii_of_string forallb] in Hy. apply andb_true_iff in Hy as [Hd _].
    cbn [String.prefix]. destruct (ascii_dec "*" "*"); [|congruence].
    destruct (ascii_dec "*" d) as [<-|Hne]; [discriminate|]. now rewrite E.
  - cbn [list_ascii_of_string forallb] in Hx. apply andb_true_iff in Hx as [Hc Hx].
    specialize (IH Hx). cbn [append] in IH.
    cbn [append JS.replaceScan String.prefix].
    destruct (ascii_dec "*" c) as [<-|Hne]; [discriminate|]. now rewrite IH.
Qed.

Lemma regexPattern_star (a b : string) :
  GlobSpec.literalPattern a = true -> GlobSpec.literalPattern b = true ->
  Glob.regexPattern (a ++ "*" ++ b) =
  Glob.escapeDots a ++ "[^/]*" ++ Glob.escapeDots b.
Proof.
  intros Ha Hb. unfold Glob.regexPattern.
  rewrite !escapeDots_app. change (Glob.escapeDots "*") with "*".
  rewrite globstar_single by (apply escapeDots_avoids; auto).
  unfold Glob.expandStar, Glob.expandQuestion.
  rewrite !(replace1_app "*").
  rewrite !(replace1_absent "*" "[^/]*" (Glob.escapeDots _))
    by (apply escapeDots_avoids; auto).
  change (JS.replaceAll "*" "[^/]*" "*") with "[^/]*".
  rewrite !(replace1_app "?").
  rewrite !(replace1_absent "?" "." (Glob.escapeDots _))
    by (apply escapeDots_avoids; auto).
  reflexivity.
Qed.

Lemma tokenize_literal_app (a rest : string) :
  GlobSpec.literalPattern a = true ->
  RegExp.tokenize (Glob.escapeDots a ++ rest) =
  option_map
    (app (map (fun c => RegExp.TClass (RegExp.Lit c)) (list_ascii_of_string a)))
    (RegExp.tokenize rest).
Proof.
  unfold GlobSpec.literalPattern. induction a as [|c a IH].
  - intros _. cbn. destruct (RegExp.tokenize rest); reflexivity.
  - cbn [list_ascii_of_string forallb]. intros H.
    apply andb_true_iff in H as [Hc Ha]. rewrite escapeDots_cons.
    assert (Hstep : RegExp.tokenize
                      ((if Ascii.eqb c "." then "\." else String c "")
                       ++ Glob.escapeDots a ++ rest) =
                    option_map (cons (RegExp.TClass (RegExp.Lit c)))
                      (RegExp.tokenize (Glob.escapeDots a ++ rest))).
    { destruct (Ascii.eqb_spec c ".") as [->|Hne]; [reflexivity|].
      rewrite orb_false_r in Hc. cbn [append RegExp.tokenize].
      rewrite (plainChar_neq c "\" Hc), (plainChar_neq c "[" Hc),
        (plainChar_neq c "." Hc), (plainChar_neq c "*" Hc),
        (plainChar_neq c "^" Hc), (plainChar_neq c "$" Hc) by (simpl; tauto).
      assert (Eu : RegExp.unsupported c = false).
      { unfold RegExp.unsupported. cbn [existsb].
        rewrite (plainChar_neq c "+" Hc), (plainChar_neq c "?" Hc),
          (plainChar_neq c "(" Hc), (plainChar_neq c ")" Hc),
          (plainChar_neq c "[" Hc), (plainChar_neq c "]" Hc),
          (plainChar_neq c "{" Hc), (plainChar_neq c "}" Hc),
          (plainChar_neq c "|" Hc), (plainChar_neq c "\" Hc) by (simpl; tauto).
        reflexivity. }
      now rewrite Eu. }
    rewrite append_assoc, Hstep, IH by exact Ha.
    destruct (RegExp.tokenize rest); reflexivity.
Qed.

Lemma terms_literal_app (l : list ascii) (ts : list RegExp.Token) :
  match ts with RegExp.TStar :: _ => False | _ => True end ->
  RegExp.terms (map (fun c => RegExp.TClass (RegExp.Lit c)) l ++ ts)%list =
  option_map (app (map (fun c => RegExp.One (RegExp.Lit c)) l)) (RegExp.terms ts).
Proof.
  intros Hts. induction l as [|c l IH].
  - cbn. destruct (RegExp.terms ts); reflexivity.
  - cbn [map app].
    assert (E : forall k rest,
              match rest with RegExp.TStar :: _ => False | _ => True end ->
              RegExp.terms (RegExp.TClass k :: rest) =
              option_map (cons (RegExp.One k)) (RegExp.terms rest)).
    { intros k [|[] rest] H; try reflexivity. contradiction. }
    rewrite E, IH.
    + destruct (RegExp.terms ts); reflexivity.
    + destruct l; [exact Hts | exact I].
Qed.

Lemma matches_literal_app (a : string) (q : RegExp.Pattern) (s : string) :
  RegExp.matches
    (map (fun c => RegExp.One (RegExp.Lit c)) (list_ascii_of_string a) ++ q)%list s
  = true <->
  exists rest, s = a ++ rest /\ RegExp.matches q rest = true.
Proof.
  revert s. induction a as [|c a IH]; intros s.
  - cbn. split; [eauto | intros (rest & -> & H); exact H].
  - cbn [list_ascii_of_string map app]. destruct s as [|d s].
    + cbn. split; [discriminate | intros (rest & E & _); discriminate].
    + cbn [RegExp.matches RegExp.classTest]. rewrite andb_true_iff, IH. split.
      * intros [E (rest & -> & H)]. apply Ascii.eqb_eq in E. subst.
        exists rest. split; [reflexivity | exact H].
      * intros (rest & [= -> ->] & H). split; [apply Ascii.eqb_refl | eauto].
Qed.

Lemma includes_slash_cons (c : ascii) (s : string) :
  JS.includes (String c s) "/" = Ascii.eqb c "/" || JS.includes s "/".
Proof.
  rewrite includes_cons, prefix_slash. destruct (Ascii.eqb c "/"); reflexivity.
Qed.

Lemma matches_segment (q : RegExp.Pattern) (s : string) :
  RegExp.matches (RegExp.Star RegExp.NotSlash :: q) s = true <->
  exists seg rest,
    s = seg ++ rest /\ JS.includes seg "/" = false /\ RegExp.matches q rest = true.
Proof.
  induction s as [|c s IH]; rewrite matches_star.
  - rewrite orb_false_r. split.
    + intros H. exists "", "". auto.
    + intros (seg & rest & E & _ & H). destruct seg; [|discriminate].
      destruct rest; [exact H | discriminate].
  - rewrite orb_true_iff, andb_true_iff, IH. cbn [RegExp.classTest]. split.
    + intros [H|[Hc (seg & rest & -> & Hs & H)]].
      * exists "", (String c s). auto.
      * exists (String c seg), rest. split; [reflexivity|]. split; [|exact H].
        rewrite includes_slash_cons, Hs. apply negb_true_iff in Hc. now rewrite Hc.
    + intros (seg & rest & E & Hs & H). destruct seg as [|d seg].
      * left. cbn in E. now subst.
      * right. injection E as <- ->. rewrite includes_slash_cons in Hs.
        apply orb_false_iff in Hs as [Hd Hs]. split; [now rewrite Hd|]. eauto.
Qed.

End StarFacts.

(** X24. A pattern of a text, one star and a text, the texts without
    wildcard: [matchPattern] never throws on it and matches exactly the
    paths made of the first text, a run without slash and the second
    text. *)
Theorem matchPattern_star_stays_in_one_segment (engine : RegExp.Engine)
  (filePath before after : string) :
  GlobSpec.literalPattern before = true ->
  GlobSpec.literalPattern after = true ->
  exists matched,
    Glob.matchPattern engine filePath (before ++ "*" ++ after) = Some matched
    /\ (matched = true <->
        exists segment,
          filePath = before ++ segment ++ after
          /\ JS.includes segment "/" = false).
Proof.
  intros Ha Hb. unfold Glob.matchPattern, RegExp.compile, RegExp.parse.
  rewrite regexPattern_star by assumption.
  cbn [append RegExp.tokenize Ascii.eqb Bool.eqb].
  rewrite !append_assoc.
  rewrite tokenize_literal_app by exact Ha.
  cbn [append RegExp.tokenize Ascii.eqb Bool.eqb].
  rewrite tokenize_literal by exact Hb. cbn [option_map].
  rewrite terms_literal_app by exact I.
  change (RegExp.terms (RegExp.TClass RegExp.NotSlash :: RegExp.TStar :: ?ts))
    with (option_map (cons (RegExp.Star RegExp.NotSlash)) (RegExp.terms ts)).
  rewrite terms_literal. cbn [option_map].
  eexists. split; [reflexivity|].
  rewrite matches_literal_app. split.
  - intros (rest & -> & H). apply matches_segment in H as (seg & rest' & -> & Hs & H).
    rewrite matches_literal in H. apply String.eqb_eq in H. subst. eauto.
  - intros (seg & -> & Hs). eexists. split; [reflexivity|].
    apply matches_segment. exists seg, after. split; [reflexivity|].
    split; [exact Hs|]. rewrite matches_literal. apply String.eqb_refl.
Qed.

(** ** Results without repetition, documents of eligible files *)

Section OnceFacts.

Lemma firstn_NoDup {A : Type} (n : nat) (l : list A) :
  NoDup l -> NoDup (firstn n l).
Proof.
  revert n. induction l as [|x l IH]; intros [|n] H; simpl; try constructor.
  - inversion H as [|? ? Hx Hl]; subst. intros Hin. apply Hx.
    rewrite <- (firstn_skipn n l). apply in_or_app. now left.
  - inversion H; subst. now apply IH.
Qed.

Lemma filter_NoDup_map {A B : Type} (g : A -> B) (f : A -> bool) (l : list A) :
  NoDup (map g l) -> NoDup (map g (filter f l)).
Proof.
  induction l as [|x l IH]; simpl; intros H; [constructor|].
  inversion H as [|? ? Hx Hl]; subst. destruct (f x); simpl; [|now apply IH].
  constructor; [|now apply IH]. intros Hin. apply Hx.
  apply in_map_iff in Hin as (y & E & Hy). apply filter_In in Hy as [Hy _].
  apply in_map_iff. eauto.
Qed.

Lemma filed_ids (m : SearchEngine.Documents) :
  Forall (fun kv => fst kv = id (snd kv)) m ->
  map id (SearchEngine.values m) = map fst m.
Proof.
  unfold SearchEngine.values. induction 1 as [|[k v] m E Hm IH]; [reflexivity|].
  cbn [map fst snd] in *. now rewrite IH, E.
Qed.

End OnceFacts.

(** X25. However the index was filled, [search] lists no document
    twice: the ids of its results are pairwise distinct. *)
Theorem search_lists_each_document_once (docs : list IndexedDocument)
  (query : string) (maxResults : Q) :
  NoDup (map (fun r => id (document r))
           (SearchEngine.search (SearchEngine.addDocuments [] docs) query maxResults)).
Proof.
  set (this := SearchEngine.addDocuments [] docs).
  assert (Hkeys : NoDup (map id (SearchEngine.values this))).
  { rewrite filed_ids by (apply addDocuments_filed; constructor).
    destruct (addDocuments_keys [] docs) as (fresh & E & Hnd & _).
    unfold this. rewrite E. exact Hnd. }
  unfold SearchEngine.search. rewrite arraySlice_firstn, <- firstn_map.
  apply firstn_NoDup.
  eapply Permutation_NoDup.
  - apply Permutation_map. symmetry. apply (sort_perm score).
  - rewrite <- (map_map document id), collect_documents.
    now apply filter_NoDup_map.
Qed.

Section EligibleFacts.

Variable env : Env.

Lemma jsfilter_In {A : Type} (f : A -> option bool) (a r : list A) (x : A) :
  JsArray.filter f a = Some r -> In x r -> In x a /\ f x = Some true.
Proof.
  revert r. induction a as [|y a IH]; simpl; intros r.
  - intros [= <-] [].
  - destruct (f y) as [keep|] eqn:E; [|discriminate].
    destruct (JsArray.filter f a) as [r'|]; [|discriminate].
    intros [= <-]. destruct keep.
    + intros [<-|Hx]; [auto|]. destruct (IH r' eq_refl Hx). auto.
    + intros Hx. destruct (IH r' eq_refl Hx). auto.
Qed.

Lemma truthy_path (s : option string) (p : string) :
  GitHubSync.truthy s = Some p -> s = Some p.
Proof. destruct s as [[|c s]|]; simpl; congruence. Qed.

Lemma filesDocuments_inv (owner repo ref : string) (files : list TreeItem)
  (d : IndexedDocument) :
  forall c,
  In d (SyncSpec.filesDocuments env owner repo ref c files) ->
  exists file p h text c',
    In file files /\ path file = Some p /\ sha file = Some h
    /\ getBlob env owner repo h = Ok text
    /\ d = GitHubSync.mkDocument env owner repo ref p h text (itemSize file)
             (isoTime env c') (isoTime env (S c')).
Proof.
  induction files as [|file files IH]; intros c; [intros []|].
  cbn [SyncSpec.filesDocuments]. intros H. apply in_app_or in H as [H|H].
  - unfold SyncSpec.fileDocuments in H.
    destruct (GitHubSync.truthy (path file)) as [p|] eqn:Ep; [|destruct H].
    destruct (GitHubSync.truthy (sha file)) as [h|] eqn:Eh; [|destruct H].
    destruct (getBlob env owner repo h) as [text|] eqn:Eb; [|destruct H].
    destruct H as [<-|[]]. exists file, p, h, text, c.
    split; [now left|]. split; [now apply truthy_path|].
    split; [now apply truthy_path|]. auto.
  - apply IH in H as (file' & p & h & text & c' & Hin & H).
    exists file', p, h, text, c'. split; [now right | exact H].
Qed.

End EligibleFacts.

(** X26. [fetchFilesFromRepo] returns only documents of the repository
    and the reference asked for, each made from an entry of the tree
    that passes the filter of the include and exclude patterns, under
    the path and the hash of this entry and with the content of its
    blob. *)
Theorem fetchFilesFromRepo_returns_only_eligible_files (env : Env)
  (owner repo ref : string) (includePatterns excludePatterns : list string)
  (w : World) :
  exists docs w',
    GitHubSync.fetchFilesFromRepo env owner repo ref includePatterns
      excludePatterns w = (Ok docs, w')
    /\ forall d, In d docs ->
         repoOwner d = owner /\ repoName d = repo /\ branch d = ref
         /\ id d = owner ++ "/" ++ repo ++ "/" ++ ref ++ "/" ++ filePath d
         /\ exists tree item,
              getTree env owner repo ref = Ok tree
              /\ In item tree
              /\ GitHubSync.isMatchingFile (regExp env) includePatterns
                   excludePatterns item = Some true
              /\ path item = Some (filePath d)
              /\ sha item = Some (hash (metadata d))
              /\ getBlob env owner repo (hash (metadata d)) = Ok (content d).
Proof.
  destruct (fetchFilesFromRepo_run env
              {| SyncSpec.owner := owner; SyncSpec.repo := repo;
                 SyncSpec.branch := ref;
                 SyncSpec.includePatterns := includePatterns;
                 SyncSpec.excludePatterns := excludePatterns |} w)
    as (w' & Hrun & _).
  cbn [SyncSpec.owner SyncSpec.repo SyncSpec.branch SyncSpec.includePatterns
       SyncSpec.excludePatterns] in Hrun.
  eexists. exists w'. split; [exact Hrun|].
  unfold SyncSpec.repoDocuments.
  cbn [SyncSpec.owner SyncSpec.repo SyncSpec.branch SyncSpec.includePatterns
       SyncSpec.excludePatterns].
  intros d Hd.
  destruct (mkdirOk env _); [|destruct Hd].
  destruct (getTree env owner repo ref) as [tree|] eqn:Et; [|destruct Hd].
  destruct (JsArray.filter _ tree) as [files|] eqn:Ef; [|destruct Hd].
  apply filesDocuments_inv in Hd as (file & p & h & text & c' & Hin & Hp & Hs & Hb & ->).
  destruct (jsfilter_In _ _ _ _ Ef Hin) as [Htree Hm].
  cbn [GitHubSync.mkDocument repoOwner repoName branch id filePath metadata hash content].
  repeat split. exists tree, file. auto 10.
Qed.

(** ** Instances of the statements that have hypotheses *)

Lemma listRepositories_gives_back_owner_and_name_witness :
  In {| SearchEngine.owner := Some "o"; SearchEngine.repo := Some "r";
        SearchEngine.fileCount := 2 |}
    (SearchEngine.listRepositories twoRepos).
Proof.
  refine (proj2 (proj2
    (listRepositories_gives_back_owner_and_name twoRepos _) _) _).
  - repeat constructor.
  - exists "o", "r". split; [vm_compute; discriminate | reflexivity].
Defined.

Lemma snippet_is_a_short_piece_of_the_content_witness :
  exists before piece after,
    content longDoc = before ++ piece ++ after
    /\ snippet longDocResult = "..." ++ piece ++ "..."
    /\ (String.length piece <= 300)%nat
    /\ (String.length (snippet longDocResult) <= 306)%nat
    /\ JS.includes (JS.toLowerCase piece) (JS.toLowerCase "A") = true.
Proof.
  assert (H : In longDocResult
                (SearchEngine.search (sampleIndex [longDoc]) "A" 10)).
  { vm_compute. left. reflexivity. }
  destruct (snippet_is_a_short_piece_of_the_content _ "A" 10 longDocResult H)
    as (before & piece & after & Hc & Hs & Hp & Hl & Hq).
  exists before, piece, after.
  refine (conj Hc (conj Hs (conj Hp (conj Hl (Hq _ _ _))))).
  - simpl. lia.
  - vm_compute. reflexivity.
  - intros a n. apply toLowerCase_substring.
Defined.

Lemma isBlocked_iff_an_entry_matches_witness :
  exists blocked reason,
    Storage.isBlocked sampleEnv (Some "@malicious/mcp-server") None
      (worldWith (Some tamperedLedger) None)
    = (Ok (blocked, reason), worldWith (Some tamperedLedger) None)
    /\ (blocked = true <->
        exists e, In e (Ledger.entries tamperedLoaded)
          /\ ((exists name, Some "@malicious/mcp-server" = Some name /\ name <> ""
                 /\ Json.get e "type" = Json.Str "server"
                 /\ Json.get e "serverName" = Json.Str name)
              \/ (exists p, None = Some p /\ p <> ""
                    /\ Json.get e "type" = Json.Str "file_pattern"
                    /\ Json.get e "pattern" = Json.Str p)))
    /\ (if blocked then exists r, reason = Some r else reason = None).
Proof.
  exact (isBlocked_iff_an_entry_matches sampleEnv
           (worldWith (Some tamperedLedger) None) tamperedLoaded
           (Some "@malicious/mcp-server") None eq_refl).
Defined.

(** In the ledger of four entries the server is blocked by the third
    and by the fourth entry, and the pattern by the first: asked about
    both, [isBlocked] gives the reason of the third. *)
Lemma isBlocked_reports_the_oldest_server_entry_witness :
  exists reason,
    Json.get (serverEntry "2025-11-03T09:00:00.000Z" "@malicious/mcp-server"
                "Security vulnerability" "sha256:03") "reason" = Json.Str reason
    /\ Storage.isBlocked sampleEnv (Some "@malicious/mcp-server") (Some "*.md")
         (worldWith (Some mixedLedger) None)
       = (Ok (true, Some reason), worldWith (Some mixedLedger) None).
Proof.
  refine (isBlocked_reports_the_oldest_server_entry sampleEnv
            (worldWith (Some mixedLedger) None) mixedLoaded
            "@malicious/mcp-server" (Some "*.md")
            [ patternEntry "2025-11-01T09:00:00.000Z" "*.md" "Generated files"
                "sha256:01";
              serverEntry "2025-11-02T09:00:00.000Z" "other-server" "Deprecated"
                "sha256:02" ]
            [ serverEntry "2025-11-04T09:00:00.000Z" "@malicious/mcp-server"
                "Reported again" "sha256:04" ]
            _ eq_refl _ eq_refl eq_refl eq_refl _).
  - discriminate.
  - intros e' [<-|[<-|[]]] [Ht Hs]; vm_compute in Ht, Hs; discriminate.
Defined.

Example isBlocked_mixedLedger :
  Storage.isBlocked sampleEnv (Some "@malicious/mcp-server") (Some "*.md")
    (worldWith (Some mixedLedger) None)
  = (Ok (true, Some "Security vulnerability"), worldWith (Some mixedLedger) None)
  /\ Storage.isBlocked sampleEnv (Some "unknown-server") (Some "*.md")
       (worldWith (Some mixedLedger) None)
     = (Ok (true, Some "Generated files"), worldWith (Some mixedLedger) None)
  /\ Storage.isBlocked sampleEnv (Some "unknown-server") (Some "*.txt")
       (worldWith (Some mixedLedger) None)
     = (Ok (false, None), worldWith (Some mixedLedger) None).
Proof. repeat split. Qed.

Lemma addBlocklistEntry_does_not_validate_the_entry_witness :
  exists w',
    Storage.addBlocklistEntry sampleEnv [("type", Json.Str "server")]
      (worldWith (Some emptyLedger) None) = (Ok tt, w')
    /\ Storage.loadBlocklist sampleEnv w' = (Throw "ZodError", w')
    /\ (forall serverName pattern,
          Storage.isBlocked sampleEnv serverName pattern w' = (Throw "ZodError", w'))
    /\ (forall entry',
          Storage.addBlocklistEntry sampleEnv entry' w' = (Throw "ZodError", w')).
Proof.
  exact (addBlocklistEntry_does_not_validate_the_entry sampleEnv
           (worldWith (Some emptyLedger) None) emptyLoaded
           [("type", Json.Str "server")] eq_refl eq_refl eq_refl).
Defined.

Lemma saveBlocklist_then_loadBlocklist_witness :
  exists w',
    Storage.saveBlocklist sampleEnv tamperedLoaded (worldWith (Some emptyLedger) None)
    = (Ok tt, w')
    /\ Storage.loadBlocklist sampleEnv w' = (Ok tamperedLoaded, w')
    /\ console w' = [] /\ clock w' = 0%nat /\ searchEngine w' = []
    /\ configFile w' = None /\ repoFiles w' = [].
Proof.
  exact (saveBlocklist_then_loadBlocklist sampleEnv
           (worldWith (Some tamperedLedger) None)
           (worldWith (Some emptyLedger) None) tamperedLoaded eq_refl eq_refl).
Defined.

Lemma add_blocklist_entry_appends_one_loadable_entry_witness :
  exists w' b' n,
    Tools.handled
      (Tools.add_blocklist_entry sampleEnv
         (Some (blockServer "@malicious/mcp-server" "Security vulnerability")))
      (worldWith (Some emptyLedger) None) =
    (Ok {| Tools.text := "Added server blocklist entry: @malicious/mcp-server";
           Tools.isError := false |}, w')
    /\ Storage.loadBlocklist sampleEnv w' = (Ok b', w')
    /\ Ledger.entries b' = [n]
    /\ Json.get n "serverName" = Json.Str "@malicious/mcp-server"
    /\ Json.get n "allowOverride" = Json.Bool false.
Proof.
  destruct (add_blocklist_entry_appends_one_loadable_entry sampleEnv
              (worldWith (Some emptyLedger) None) emptyLoaded
              (blockServer "@malicious/mcp-server" "Security vulnerability")
              (blockServer "@malicious/mcp-server" "Security vulnerability")
              eq_refl eq_refl (fun _ => eq_refl) eq_refl)
    as (w' & b' & n & H1 & H2 & H3 & _ & _ & H6 & _ & _ & H9 & _).
  exists w', b', n. repeat split; assumption.
Defined.

Lemma addBlocklistEntry_never_unblocks_witness :
  exists w' reason',
    Storage.addBlocklistEntry sampleEnv sampleEntry
      (worldWith (Some tamperedLedger) None) = (Ok tt, w')
    /\ Storage.isBlocked sampleEnv (Some "@malicious/mcp-server") None w'
       = (Ok (true, reason'), w')
    /\ (Some "@malicious/mcp-server" = None \/ @None string = None ->
        reason' = Some "Security vulnerability").
Proof.
  refine (addBlocklistEntry_never_unblocks sampleEnv
            (worldWith (Some tamperedLedger) None) tamperedLoaded sampleEntry
            [ ("timestamp", Json.Str "2025-11-08T10:00:00.000Z");
              ("type", Json.Str "server");
              ("serverName", Json.Str "@malicious/mcp-server");
              ("reason", Json.Str "Security vulnerability");
              ("hash", Json.Str (Storage.calculateHash sampleEnv sampleEntry));
              ("allowOverride", Json.Bool false);
              ("source", Json.Str "user") ]
            (Some "@malicious/mcp-server") None (Some "Security vulnerability")
            eq_refl eq_refl eq_refl _ eq_refl).
  vm_compute. reflexivity.
Defined.

Lemma check_blocklist_finds_what_add_blocklist_entry_blocked_witness :
  exists w' shown,
    Tools.handled
      (Tools.add_blocklist_entry sampleEnv
         (Some [ ("type", Json.Str "server"); ("serverName", Json.Str "evil-server");
                 ("reason", Json.Str "leaks tokens") ]))
      (worldWith (Some emptyLedger) None) =
    (Ok {| Tools.text := "Added server blocklist entry: evil-server";
           Tools.isError := false |}, w')
    /\ Tools.handled
         (Tools.check_blocklist sampleEnv (Some [ ("serverName", Json.Str "evil-server") ]))
         w' =
       (Ok {| Tools.text :=
                Tools.stringifyIndented
                  [ ("blocked", Json.Bool true); ("reason", Json.Str shown) ];
              Tools.isError := false |}, w')
    /\ ((forall e, In e (Ledger.entries emptyLoaded) ->
           ~ (Json.get e "type" = Json.Str "server"
              /\ Json.get e "serverName" = Json.Str "evil-server")) ->
        shown = "leaks tokens").
Proof.
  refine (check_blocklist_finds_what_add_blocklist_entry_blocked sampleEnv
            (worldWith (Some emptyLedger) None) emptyLoaded
            "evil-server" "leaks tokens" eq_refl eq_refl (fun _ => eq_refl) _).
  discriminate.
Defined.

Lemma sync_without_force_keeps_every_document_witness :
  exists w',
    Main.syncKnowledgeBase flakyEnv true false indexedWorld = (Ok tt, w')
    /\ (exists fresh,
          map fst (searchEngine w') = (map fst twoRepos ++ fresh)%list)
    /\ exists d',
         SearchEngine.getDocument (searchEngine w') "o/r/main/a.md" = Some d'.
Proof.
  destruct (sync_without_force_keeps_every_document flakyEnv indexedWorld
              officialOnly eq_refl) as (w' & H1 & H2 & H3 & _).
  exists w'. split; [exact H1|]. split; [exact H2|].
  exact (H3 "o/r/main/a.md" (sampleDoc "a.md" "x") eq_refl).
Defined.

Lemma forced_sync_holds_only_what_the_pass_fetched_witness :
  exists w',
    Main.syncKnowledgeBase flakyEnv true true (worldWith None (Some officialOnly))
    = (Ok tt, w')
    /\ (forall d,
          In d (SearchEngine.values (searchEngine w')) ->
          exists job c,
            In job (SyncSpec.passJobs flakyEnv officialOnly)
            /\ In d (SyncSpec.repoDocuments flakyEnv job c)).
Proof.
  destruct (forced_sync_holds_only_what_the_pass_fetched flakyEnv
              (worldWith None (Some officialOnly)) officialOnly eq_refl)
    as (w' & H1 & H2 & _).
  exists w'. split; [exact H1 | exact H2].
Defined.

Lemma matchPattern_without_wildcard_is_equality_witness :
  Glob.matchPattern (fun _ => None) "package.json" "package.json" = Some true
  /\ Glob.matchPattern (fun _ => None) "package-json" "package.json" = Some false.
Proof.
  split.
  - exact (matchPattern_without_wildcard_is_equality (fun _ => None)
             "package.json" "package.json" eq_refl).
  - exact (matchPattern_without_wildcard_is_equality (fun _ => None)
             "package-json" "package.json" eq_refl).
Defined.

Lemma matchPattern_depth_is_bounded_witness :
  (GlobSpec.slashes "docs/a.md" <= 2)%nat.
Proof.
  exact (proj1 (proj2
    (matchPattern_depth_is_bounded (fun _ => None) "docs/a.md" "**/*.md"
       [ RegExp.One RegExp.AnyChar; RegExp.Star RegExp.NotSlash;
         RegExp.One (RegExp.Lit "/"); RegExp.Star RegExp.NotSlash;
         RegExp.One (RegExp.Lit "."); RegExp.One (RegExp.Lit "m");
         RegExp.One (RegExp.Lit "d") ]
       eq_refl eq_refl))).
Defined.

Lemma matchPattern_star_stays_in_one_segment_witness :
  exists matched,
    Glob.matchPattern (fun _ => None) "README.md" ("" ++ "*" ++ ".md") = Some matched
    /\ (matched = true <->
        exists segment,
          "README.md" = "" ++ segment ++ ".md" /\ JS.includes segment "/" = false).
Proof.
  exact (matchPattern_star_stays_in_one_segment (fun _ => None) "README.md"
           "" ".md" eq_refl eq_refl).
Defined.
